(** * ASL fingerspelling core: confidence smoother, sentence assembler,
      autocorrect engine and shape classifier.

    Shallow embedding of
      - [src/ai-services/sign-language-detection/services/signLanguageDetector.js]
      - [src/services/sentenceBuilder.js]
      - the detection loop of [src/hooks/useAIServices.js]
      - the landmark features of [src/services/aslMLModel.js]

    Conventions.  JavaScript strings are modelled by [string] (sequences of
    8-bit characters; every letter the detector emits is ASCII).  The text
    an engine prints for a native function is a parameter ([Engine]).
    [Date.now()] is an explicit integer argument (milliseconds).  The [Map] of confidence
    counters is a [gmap string Z]: every value the code stores in it is a
    non-negative integer ([+ 1] and [max(0, c - 2.0)] starting from [0]), so
    the doubles of the source are exact integers.  [null] results are [None]. *)

From Stdlib Require Import ZArith QArith String Ascii List Bool Lia.
From stdpp Require Import gmap strings list fin_maps.

Open Scope string_scope.
Open Scope Z_scope.

(** ** Confidence smoother ([smoothGesture]) *)

Module Smoother.

(** The fields of [SignLanguageDetector] that [smoothGesture] reads or
    writes. *)
Record State := mkState {
  gestureConfidence : gmap string Z;
  minConfidenceFrames : Z;
  lastGesture : string;
  lastGestureTimestamp : Z;
  gestureDebounceTime : Z
}.

(** The values assigned by the constructor. *)
Definition constructor : State :=
  {| gestureConfidence := ∅;
     minConfidenceFrames := 2;
     lastGesture := "none";
     lastGestureTimestamp := 0;
     gestureDebounceTime := 100 |}.

Definition fistLikeGestures : gset string :=
  list_to_set ["N"; "M"; "C"; "E"; "A"; "S"; "T"; "O"].
Definition fingerGestures : gset string :=
  list_to_set ["F"; "K"; "P"; "Q"; "R"; "U"; "V"; "W"; "X"; "H"; "B"; "G"].
Definition thumbOverlapGestures : gset string :=
  list_to_set ["N"; "M"; "P"; "K"].

Definition has (s : gset string) (g : string) : bool := bool_decide (g ∈ s).

(** [bothFistLike || bothFingerGestures || bothThumbOverlap] *)
Definition isSimilarSwitch (detectedGesture last : string) : bool :=
  let bothFistLike := has fistLikeGestures detectedGesture && has fistLikeGestures last in
  let bothFingerGestures := has fingerGestures detectedGesture && has fingerGestures last in
  let bothThumbOverlap :=
    has thumbOverlapGestures detectedGesture && has thumbOverlapGestures last in
  bothFistLike || bothFingerGestures || bothThumbOverlap.

(** [if (!has(g)) set(g, 0)] *)
Definition ensureEntry (g : string) (m : gmap string Z) : gmap string Z :=
  match m !! g with
  | Some _ => m
  | None => <[g := 0]> m
  end.

(** The hard reset of the previous gesture on a switch inside one group. *)
Definition resetOnSwitch (g last : string) (m : gmap string Z) : gmap string Z :=
  if bool_decide (last ≠ g) && isSimilarSwitch g last then <[last := 0]> m else m.

(** The decay loop over [entries()]: every other gesture whose counter is
    positive loses [2.0], floored at [0]. *)
Definition decayOne (g k : string) (confidence : Z) : Z :=
  if bool_decide (k ≠ g) && (0 <? confidence) then Z.max 0 (confidence - 2)
  else confidence.

Definition decayOthers (g : string) (m : gmap string Z) : gmap string Z :=
  map_imap (λ k c, Some (decayOne g k c)) m.

(** The value read by [gestureConfidence.get(detectedGesture)] before the
    increment (an absent key cannot occur there; the model reads it as 0,
    the value [ensureEntry] would have stored). *)
Definition confidenceOf (g : string) (m : gmap string Z) : Z := default 0 (m !! g).

Definition setConfidence (m : gmap string Z) (st : State) : State :=
  {| gestureConfidence := m;
     minConfidenceFrames := minConfidenceFrames st;
     lastGesture := lastGesture st;
     lastGestureTimestamp := lastGestureTimestamp st;
     gestureDebounceTime := gestureDebounceTime st |}.

Definition switchTo (g : string) (currentTime : Z) (st : State) : State :=
  {| gestureConfidence := gestureConfidence st;
     minConfidenceFrames := minConfidenceFrames st;
     lastGesture := g;
     lastGestureTimestamp := currentTime;
     gestureDebounceTime := gestureDebounceTime st |}.

(** [smoothGesture(detectedGesture)], with [currentTime = Date.now()].
    The result is the returned gesture ([None] is the [null] returned while
    a new gesture is still building confidence) and the new state. *)
Definition smoothGesture (detectedGesture : string) (currentTime : Z) (st : State)
  : option string * State :=
  let m0 := ensureEntry detectedGesture (gestureConfidence st) in
  let m1 := resetOnSwitch detectedGesture (lastGesture st) m0 in
  let currentConfidence := confidenceOf detectedGesture m1 in
  let m2 := <[detectedGesture := currentConfidence + 1]> m1 in
  let m3 := decayOthers detectedGesture m2 in
  let st' := setConfidence m3 st in
  if minConfidenceFrames st <=? currentConfidence then
    if bool_decide (detectedGesture ≠ lastGesture st) then
      let timeSinceLastChange := currentTime - lastGestureTimestamp st in
      if negb (isSimilarSwitch detectedGesture (lastGesture st))
         && (timeSinceLastChange <? gestureDebounceTime st)
      then (Some (lastGesture st), st')
      else (Some detectedGesture, switchTo detectedGesture currentTime st')
    else (Some detectedGesture, st')
  else
    if bool_decide (detectedGesture ≠ lastGesture st) then (None, st')
    else (Some (lastGesture st), st').

(** The counters after one call, whatever branch returns. *)
Definition countersAfter (g : string) (st : State) : gmap string Z :=
  let m1 := resetOnSwitch g (lastGesture st) (ensureEntry g (gestureConfidence st)) in
  decayOthers g (<[g := confidenceOf g m1 + 1]> m1).

(** Feeding a sequence of timed raw classifications, collecting the
    outputs of the successive calls. *)
Fixpoint feed (ticks : list (string * Z)) (st : State) : list (option string) * State :=
  match ticks with
  | [] => ([], st)
  | (g, t) :: rest =>
      let '(out, st1) := smoothGesture g t st in
      let '(outs, st2) := feed rest st1 in
      (out :: outs, st2)
  end.

End Smoother.

(** ** JavaScript string primitives used by the sentence builder

    A string is a sequence of code units below 256.  The case conversions
    act on the ASCII letters and leave every other character as it is, and
    the line terminators are LF and CR: this is what JavaScript does on
    strings of ASCII characters.  The builder only ever stores the letters
    [a] to [z] in the word in progress; a property that sends other words
    through a case conversion or through the [.] of a regular expression
    is stated for words of ASCII characters. *)

Module JsString.

Definition len (s : string) : nat := String.length s.

Fixpoint dropS (n : nat) (s : string) : string :=
  match n, s with
  | O, _ => s
  | S n', String _ r => dropS n' r
  | S _, EmptyString => EmptyString
  end.

Fixpoint takeS (n : nat) (s : string) : string :=
  match n, s with
  | O, _ => EmptyString
  | S n', String c r => String c (takeS n' r)
  | S _, EmptyString => EmptyString
  end.

(** A relative index of [slice]: negative counts from the end, and the
    result is clamped to [0 .. length]. *)
Definition relIndex (i : Z) (n : nat) : nat :=
  if i <? 0 then Z.to_nat (Z.max (Z.of_nat n + i) 0) else Nat.min (Z.to_nat i) n.

(** [s.slice(start, stop)]; [stop = None] is the one-argument form. *)
Definition slice (start : Z) (stop : option Z) (s : string) : string :=
  let from := relIndex start (len s) in
  let to := match stop with None => len s | Some e => relIndex e (len s) end in
  takeS (to - from) (dropS from s).

(** [s.charAt(i)] is the one-character string at [i], or [""]. *)
Definition charAt (i : nat) (s : string) : string := takeS 1 (dropS i s).

Definition isLower (c : ascii) : bool :=
  let n := nat_of_ascii c in (97 <=? n)%nat && (n <=? 122)%nat.
Definition isUpper (c : ascii) : bool :=
  let n := nat_of_ascii c in (65 <=? n)%nat && (n <=? 90)%nat.

Definition upperChar (c : ascii) : ascii :=
  if isLower c then ascii_of_nat (nat_of_ascii c - 32) else c.
Definition lowerChar (c : ascii) : ascii :=
  if isUpper c then ascii_of_nat (nat_of_ascii c + 32) else c.

Fixpoint mapS (f : ascii -> ascii) (s : string) : string :=
  match s with
  | EmptyString => EmptyString
  | String c r => String (f c) (mapS f r)
  end.

Definition toUpperCase : string -> string := mapS upperChar.
Definition toLowerCase : string -> string := mapS lowerChar.

(** [/^[A-Z]$/i.test(s)]: exactly one ASCII letter. *)
Definition isSingleLetter (s : string) : bool :=
  match s with
  | String c EmptyString => isLower c || isUpper c
  | _ => false
  end.

(** [s.split(sep)] for a one-character separator. *)
Fixpoint split (sep : ascii) (s : string) : list string :=
  match s with
  | EmptyString => [EmptyString]
  | String c r =>
      if Ascii.eqb c sep then EmptyString :: split sep r
      else match split sep r with
           | w :: ws => String c w :: ws
           | [] => [String c EmptyString]
           end
  end.

(** [words.join(sep)] *)
Fixpoint join (sep : string) (words : list string) : string :=
  match words with
  | [] => EmptyString
  | [w] => w
  | w :: ws => w ++ sep ++ join sep ws
  end.

(** [s.includes(pat)] *)
Fixpoint includes (pat s : string) : bool :=
  String.prefix pat s ||
  match s with
  | EmptyString => false
  | String _ r => includes pat r
  end.

(** [s.replace(pat, by)] with a string pattern: the first occurrence only. *)
Fixpoint replaceFirst (pat by_ s : string) : string :=
  if String.prefix pat s then by_ ++ dropS (len pat) s
  else match s with
       | EmptyString => EmptyString
       | String c r => String c (replaceFirst pat by_ r)
       end.

(** [.] of a regular expression matches everything but line terminators. *)
Definition isLineTerminator (c : ascii) : bool :=
  Ascii.eqb c "010"%char || Ascii.eqb c "013"%char.

(** [s.replace(/(.)\1{2,}/g, '$1$1')].  The greedy global match consumes a
    maximal run of three or more equal characters and leaves two of them,
    so a character is dropped exactly when the two characters before it in
    the input are equal to it.  [p2] and [p1] are those two characters. *)
Fixpoint reduceRepeats (p2 p1 : option ascii) (s : string) : string :=
  match s with
  | EmptyString => EmptyString
  | String c r =>
      let repeated :=
        match p2, p1 with
        | Some a, Some b => Ascii.eqb a c && Ascii.eqb b c && negb (isLineTerminator c)
        | _, _ => false
        end in
      if repeated then reduceRepeats p1 (Some c) r
      else String c (reduceRepeats p1 (Some c) r)
  end.

End JsString.

(** ** Sentence builder and autocorrect engine ([sentenceBuilder.js]) *)

Module SentenceBuilder.
Import JsString.

(** What a property read or [autoCorrect] can yield: a string, or one of
    the objects every object literal inherits ([constructor], [__proto__]),
    kept with the text [String(v)] gives for it. *)
Inductive JsValue :=
| VString (s : string)
| VObject (shown : string).

Definition JsValue_eqb (a b : JsValue) : bool :=
  match a, b with
  | VString x, VString y => String.eqb x y
  | VObject x, VObject y => String.eqb x y
  | _, _ => false
  end.

(** [' ' + v] converts [v] to a string. *)
Definition toText (v : JsValue) : string :=
  match v with VString s => s | VObject shown => shown end.

Definition letterHoldTime : Z := 1500.

(** [autoCorrectDict], in the order of the object literal (the order of
    [Object.keys]). *)
Definition autoCorrectDict : list (string * string) :=
  [("teh", "the"); ("hte", "the"); ("adn", "and"); ("nad", "and"); ("thsi", "this");
   ("taht", "that"); ("waht", "what"); ("wiht", "with"); ("wnat", "want"); ("hvae",
   "have"); ("cna", "can"); ("yuo", "you"); ("yuor", "your"); ("jsut", "just");
   ("dont", "don't"); ("cant", "can't"); ("wont", "won't"); ("im", "i'm"); ("ill",
   "i'll"); ("helo", "hello"); ("helllo", "hello"); ("hllo", "hello"); ("thankks",
   "thanks"); ("thanx", "thanks"); ("plz", "please"); ("pls", "please"); ("sry",
   "sorry"); ("srry", "sorry"); ("becuase", "because"); ("beacuse", "because");
   ("freind", "friend"); ("frend", "friend"); ("recieve", "receive"); ("recive",
   "receive"); ("beleive", "believe"); ("belive", "believe"); ("occured", "occurred");
   ("seperate", "separate"); ("definately", "definitely"); ("tommorrow", "tomorrow");
   ("tonite", "tonight"); ("untill", "until"); ("thier", "their"); ("occassion",
   "occasion"); ("embarass", "embarrass"); ("realy", "really"); ("goverment",
   "government"); ("enviroment", "environment")].

(** The array literal handed to [new Set(...)]. *)
Definition commonWordsLiteral : list string :=
  ["i"; "me"; "my"; "you"; "your"; "he"; "him"; "his"; "she"; "her"; "it"; "its";
   "we"; "us"; "our"; "they"; "them"; "their"; "am"; "is"; "are"; "was"; "were"; "be";
   "been"; "being"; "have"; "has"; "had"; "do"; "does"; "did"; "done"; "will";
   "would"; "should"; "could"; "can"; "may"; "might"; "go"; "goes"; "went"; "come";
   "comes"; "came"; "get"; "gets"; "got"; "give"; "gives"; "gave"; "make"; "makes";
   "made"; "take"; "takes"; "took"; "see"; "sees"; "saw"; "know"; "knows"; "knew";
   "think"; "thinks"; "thought"; "want"; "wants"; "wanted"; "need"; "needs"; "needed";
   "like"; "likes"; "liked"; "love"; "loves"; "loved"; "help"; "helps"; "helped";
   "use"; "uses"; "used"; "work"; "works"; "worked"; "try"; "tries"; "tried"; "ask";
   "asks"; "asked"; "feel"; "feels"; "felt"; "become"; "becomes"; "became"; "leave";
   "leaves"; "left"; "put"; "puts"; "call"; "calls"; "called"; "the"; "a"; "an";
   "and"; "or"; "but"; "if"; "as"; "of"; "at"; "by"; "for"; "with"; "from"; "to";
   "in"; "on"; "off"; "out"; "up"; "down"; "about"; "over"; "under"; "again"; "then";
   "than"; "so"; "such"; "what"; "when"; "where"; "who"; "whom"; "whose"; "which";
   "why"; "how"; "one"; "two"; "three"; "four"; "five"; "six"; "seven"; "eight";
   "nine"; "ten"; "first"; "second"; "third"; "last"; "next"; "today"; "tomorrow";
   "yesterday"; "now"; "later"; "soon"; "never"; "morning"; "afternoon"; "evening";
   "night"; "day"; "week"; "month"; "year"; "time"; "hour"; "minute"; "second";
   "good"; "great"; "bad"; "new"; "old"; "big"; "small"; "long"; "short"; "high";
   "low"; "hot"; "cold"; "warm"; "cool"; "fast"; "slow"; "easy"; "hard"; "happy";
   "sad"; "nice"; "pretty"; "beautiful"; "right"; "wrong"; "true"; "false"; "sure";
   "okay"; "ok"; "fine"; "ready"; "busy"; "free"; "full"; "empty"; "open"; "close";
   "closed"; "man"; "woman"; "boy"; "girl"; "person"; "people"; "child"; "children";
   "friend"; "family"; "dad"; "mom"; "parent"; "brother"; "sister"; "home"; "house";
   "room"; "door"; "window"; "car"; "phone"; "computer"; "food"; "water"; "work";
   "school"; "place"; "thing"; "way"; "life"; "world"; "hand"; "eye"; "face"; "head";
   "body"; "heart"; "please"; "thank"; "thanks"; "sorry"; "excuse"; "welcome"; "yes";
   "no"; "hello"; "hi"; "hey"; "bye"; "goodbye"; "goodnight"; "talk"; "speak"; "say";
   "tell"; "sign"; "show"; "look"; "watch"; "hear"; "listen"; "understand"; "mean";
   "wait"; "stop"; "start"; "meet"; "call"; "video"; "chat"; "message"; "text"].

Definition inList (w : string) (l : list string) : bool := existsb (String.eqb w) l.

(** [new Set(array)]: the elements in order of first insertion. *)
Definition newSet (l : list string) : list string :=
  fold_left (fun acc w => if inList w acc then acc else (acc ++ [w])%list) l [].

Definition commonWords : list string := Eval vm_compute in newSet commonWordsLiteral.

Definition commonWords_has (w : string) : bool := inList w commonWords.

Fixpoint assoc (k : string) (l : list (string * string)) : option string :=
  match l with
  | [] => None
  | (k', v) :: rest => if String.eqb k k' then Some v else assoc k rest
  end.

(** The text [String(Object)] gives for the [Object] function.  The
    language leaves the text of a native function to the implementation
    (V8 prints it on one line, SpiderMonkey and JavaScriptCore put line
    breaks and a run of four spaces in it), so it is a parameter of the
    model. *)
Class Engine := { objectFunctionText : string }.

Section WithEngine.
Context `{Engine}.

(** [this.autoCorrectDict[key]]: own properties first, then the prototype
    chain of an object literal.  Of the inherited names only [constructor]
    and [__proto__] are unchanged by [toLowerCase]; the first is the
    [Object] function, the second [Object.prototype], whose text is fixed
    by the language. *)
Definition dictGet (key : string) : option JsValue :=
  match assoc key autoCorrectDict with
  | Some v => Some (VString v)
  | None =>
      if String.eqb key "constructor" then Some (VObject objectFunctionText)
      else if String.eqb key "__proto__" then Some (VObject "[object Object]")
      else None
  end.

(** [simpleCorrect(word)] *)
Definition swaps : list (string * string) := [("ei", "ie"); ("mn", "nm"); ("nm", "mn")].

Fixpoint trySwaps (l : list (string * string)) (corrected : string) : string :=
  match l with
  | [] => corrected
  | (wrong, replacement) :: rest =>
      if includes wrong corrected then
        let candidate := replaceFirst wrong replacement corrected in
        if commonWords_has candidate then candidate else trySwaps rest corrected
      else trySwaps rest corrected
  end.

Definition simpleCorrect (word : string) : string :=
  let corrected := reduceRepeats None None word in
  trySwaps swaps corrected.

(** [levenshteinDistance(a, b)].  [matrix[i]] is the row of the [i]-th
    character of [b]; a row is filled from left to right from the row
    above it. [fillRow bc a diag left up] produces [matrix[i][j..]] where
    [diag = matrix[i-1][j-1]], [left = matrix[i][j-1]] and [up] holds
    [matrix[i-1][j..]]. *)
Fixpoint fillRow (bc : ascii) (a : string) (diag left : nat) (up : list nat) : list nat :=
  match a, up with
  | String ac a', u :: up' =>
      let v := if Ascii.eqb bc ac then diag
               else Nat.min (diag + 1) (Nat.min (left + 1) (u + 1)) in
      v :: fillRow bc a' u v up'
  | _, _ => []
  end.

Definition nextRow (bc : ascii) (a : string) (i : nat) (prev : list nat) : list nat :=
  match prev with
  | [] => [i]
  | d :: up => i :: fillRow bc a d i up
  end.

Fixpoint fillMatrix (b a : string) (i : nat) (prev : list nat) : list nat :=
  match b with
  | EmptyString => prev
  | String bc b' => fillMatrix b' a (S i) (nextRow bc a (S i) prev)
  end.

Definition levenshteinDistance (a b : string) : nat :=
  if (len a =? 0)%nat then len b
  else if (len b =? 0)%nat then len a
  else List.last (fillMatrix b a 0%nat (seq 0 (S (len a)))) 0%nat.

(** [Math.ceil(word.length * 0.4)].  For a length [n] below [2^50] the
    double product [n * 0.4] is exactly [2n/5] when [5] divides [n] and is
    otherwise within one ulp of a value at distance at least [0.2] from
    every integer, so its ceiling is the ceiling of [2n/5]. *)
Definition maxDistanceOf (word : string) : nat := ((2 * len word + 4) / 5)%nat.

(** One iteration of either loop of [findClosestWord].  The pair of
    variables [(closestWord, minDistance)] is [None] while it is
    [(null, Infinity)]. *)
Definition consider (word : string) (maxDistance : nat)
           (best : option (string * nat)) (cand : string * string)
  : option (string * nat) :=
  let '(key, value) := cand in
  let distance := levenshteinDistance word key in
  let below := match best with None => true | Some (_, m) => (distance <? m)%nat end in
  if (distance <=? maxDistance)%nat && below then Some (value, distance) else best.

(** The words the two loops visit, each with the value it would select:
    a dictionary key selects its correction, a vocabulary word itself. *)
Definition candidates : list (string * string) :=
  (autoCorrectDict ++ map (fun w => (w, w)) commonWords)%list.

Definition findClosestWord (word : string) : option string :=
  if (len word <? 3)%nat then None
  else
    let maxDistance := maxDistanceOf word in
    option_map fst (fold_left (consider word maxDistance) candidates None).

(** [autoCorrect(word)] *)
Definition autoCorrect (word : string) : JsValue :=
  let lowerWord := toLowerCase word in
  match dictGet lowerWord with
  | Some v => v
  | None =>
      if commonWords_has lowerWord then VString lowerWord
      else
        let simpleCorrection := simpleCorrect lowerWord in
        if negb (String.eqb simpleCorrection lowerWord) then VString simpleCorrection
        else
          match findClosestWord lowerWord with
          | Some fuzzyMatch =>
              if negb (String.eqb fuzzyMatch lowerWord) then VString fuzzyMatch
              else VString lowerWord
          | None => VString lowerWord
          end
  end.

(** The mutable fields of the builder. *)
Record State := mkState {
  currentWord : string;
  sentence : string;
  lastLetter : string;
  lastLetterTimestamp : Z
}.

Definition constructor : State :=
  {| currentWord := ""; sentence := ""; lastLetter := ""; lastLetterTimestamp := 0 |}.

(** The object every operation returns. *)
Record Result := mkResult {
  r_currentWord : string;
  r_sentence : string;
  action : string;
  correctedWord : option JsValue
}.

Definition report (st : State) (tag : string) : Result :=
  {| r_currentWord := currentWord st; r_sentence := sentence st;
     action := tag; correctedWord := None |}.

(** [addSpace()].  [None] is the [TypeError] raised by
    [correctedWord.charAt] when [autoCorrect] returned an inherited object
    and the sentence is empty; nothing has been assigned at that point. *)
Definition addSpace (st : State) : option (Result * State) :=
  if (len (currentWord st) =? 0)%nat then Some (report st "space_ignored", st)
  else
    let corrected := autoCorrect (currentWord st) in
    let newSentence :=
      if (0 <? len (sentence st))%nat then Some (sentence st ++ " " ++ toText corrected)
      else match corrected with
           | VString c => Some (toUpperCase (charAt 0 c) ++ slice 1 None c)
           | VObject _ => None
           end in
    match newSentence with
    | None => None
    | Some s =>
        Some ({| r_currentWord := ""; r_sentence := s; action := "word_completed";
                 correctedWord :=
                   if JsValue_eqb corrected (VString (currentWord st)) then None
                   else Some corrected |},
              {| currentWord := ""; sentence := s; lastLetter := "";
                 lastLetterTimestamp := lastLetterTimestamp st |})
    end.

(** [backspace()] *)
Definition backspace (st : State) : Result * State :=
  if (0 <? len (currentWord st))%nat then
    let st' := {| currentWord := slice 0 (Some (-1)) (currentWord st);
                  sentence := sentence st; lastLetter := lastLetter st;
                  lastLetterTimestamp := lastLetterTimestamp st |} in
    (report st' "letter_deleted", st')
  else if (0 <? len (sentence st))%nat then
    let words := split " "%char (sentence st) in
    let st' := {| currentWord := currentWord st;
                  sentence := join " " (removelast words); lastLetter := lastLetter st;
                  lastLetterTimestamp := lastLetterTimestamp st |} in
    (report st' "word_deleted", st')
  else (report st "backspace_ignored", st).

(** [clear()] *)
Definition clear (st : State) : Result * State :=
  ({| r_currentWord := ""; r_sentence := ""; action := "cleared"; correctedWord := None |},
   {| currentWord := ""; sentence := ""; lastLetter := "";
      lastLetterTimestamp := lastLetterTimestamp st |}).

(** [clearWord()] *)
Definition clearWord (st : State) : Result * State :=
  ({| r_currentWord := ""; r_sentence := sentence st; action := "word_cleared";
      correctedWord := None |},
   {| currentWord := ""; sentence := sentence st; lastLetter := "";
      lastLetterTimestamp := lastLetterTimestamp st |}).

(** [setSentence(sentence)] *)
Definition setSentence (text : string) (st : State) : State :=
  {| currentWord := ""; sentence := text; lastLetter := lastLetter st;
     lastLetterTimestamp := lastLetterTimestamp st |}.

(** [addLetter(letter)], with [now = Date.now()]. *)
Definition addLetter (letter : string) (now : Z) (st : State) : option (Result * State) :=
  let timeSinceLastLetter := now - lastLetterTimestamp st in
  let lastLetterInWord := toUpperCase (slice (-1) None (currentWord st)) in
  let isRepeatingLastLetter := String.eqb letter lastLetterInWord in
  if isRepeatingLastLetter && (timeSinceLastLetter <? 2000) then
    Some (report st "duplicate_blocked", st)
  else if String.eqb letter (lastLetter st) && (timeSinceLastLetter <? letterHoldTime) then
    Some (report st "debounced", st)
  else if String.eqb letter "SPACE" then addSpace st
  else if String.eqb letter "BACKSPACE" || String.eqb letter "DELETE" then Some (backspace st)
  else if String.eqb letter "CLEAR" then Some (clear st)
  else if isSingleLetter letter then
    let lowerLetter := toLowerCase letter in
    let lastTwoLetters := slice (-2) None (currentWord st) in
    if String.eqb lastTwoLetters (lowerLetter ++ lowerLetter) then
      Some (report st "triple_prevented", st)
    else
      let st' := {| currentWord := currentWord st ++ lowerLetter; sentence := sentence st;
                    lastLetter := letter; lastLetterTimestamp := now |} in
      Some (report st' "letter_added", st')
  else Some (report st "ignored", st).

End WithEngine.

(** The engine of Chrome and Node.js, used where a property is applied to
    concrete calls. *)
#[global] Instance V8 : Engine :=
  {| objectFunctionText := "function Object() { [native code] }" |}.

End SentenceBuilder.

(** ** Shape classifier and detection tick ([signLanguageDetector.js]) *)

Module Classifier.

(** The double-precision arithmetic the classifier relies on.  Nothing
    proved below depends on how these operations behave: the results are
    about which landmarks are dereferenced and which branch returns. *)
Class JsNumber (num : Type) := {
  lit : Q -> num;                   (* a numeric literal *)
  infinity : num;
  nan : num;
  Math_PI : num;
  add : num -> num -> num;
  sub : num -> num -> num;
  mul : num -> num -> num;
  div : num -> num -> num;
  Math_abs : num -> num;
  Math_sqrt : num -> num;
  Math_round : num -> num;
  Math_pow : num -> num -> num;
  Math_atan2 : num -> num -> num;
  Math_min : num -> num -> num;
  Math_max : num -> num -> num;
  ltb : num -> num -> bool;         (* a < b; a > b is b < a *)
  leb : num -> num -> bool;         (* a <= b; a >= b is b <= a *)
  truthy : num -> bool              (* neither 0 nor NaN *)
}.

Declare Scope js_scope.
Delimit Scope js_scope with js.
Notation "a + b" := (add a b) : js_scope.
Notation "a - b" := (sub a b) : js_scope.
Notation "a * b" := (mul a b) : js_scope.
Notation "a / b" := (div a b) : js_scope.
Notation "a <? b" := (ltb a b) : js_scope.
Notation "a >? b" := (ltb b a) : js_scope.
Notation "a >=? b" := (leb b a) : js_scope.

(** The one-point model in which every number is NaN (all comparisons
    false, nothing truthy).  It serves to run the paths of the code that
    perform no arithmetic. *)
#[export] Instance NaN_only : JsNumber unit := {|
  lit := fun _ => tt; infinity := tt; nan := tt; Math_PI := tt;
  add := fun _ _ => tt; sub := fun _ _ => tt; mul := fun _ _ => tt;
  div := fun _ _ => tt; Math_abs := fun _ => tt; Math_sqrt := fun _ => tt;
  Math_round := fun _ => tt; Math_pow := fun _ _ => tt;
  Math_atan2 := fun _ _ => tt; Math_min := fun _ _ => tt;
  Math_max := fun _ _ => tt; ltb := fun _ _ => false; leb := fun _ _ => false;
  truthy := fun _ => false |}.

Section WithNumbers.
Context {num : Type} `{JsNumber num}.
Local Open Scope js_scope.

(** A landmark of [hand.keypoints3D] (world coordinates).  A coordinate
    that is [undefined] or [null] behaves as NaN or as 0 in all the
    arithmetic below, so the coordinates range over [num].  The [name] field is copied along
    by the source and never read; it is left out. *)
Record Keypoint3D := { x3 : num; y3 : num; z3 : num }.

(** A landmark of the two-dimensional fallback [hand.keypoints]; it has
    no [z]. [score] may be missing. *)
Record Keypoint2D := { x2 : num; y2 : num; score : option num }.

(** A detected hand; either array may be absent. *)
Record Hand := { keypoints : option (list Keypoint2D);
                 keypoints3D : option (list Keypoint3D) }.

(** The objects built by [classifyGesture] from either array. *)
Record Keypoint := { kx : num; ky : num; kz : option num;
                     xPixel : option num; yPixel : option num }.

(** The objects of [pixelKeypoints]. *)
Record Point := { px : num; py : num; pz : option num }.

(** A value used as a condition or as an operand while it may be
    [undefined]. *)
Definition truthyOpt (v : option num) : bool :=
  match v with Some n => truthy n | None => false end.
Definition numOf (v : option num) : num := default nan v.

(** [v.toFixed(d)] raises a [TypeError] on [undefined]; its text is only
    logged. *)
Definition toFixed (v : option num) : option unit :=
  match v with Some _ => Some tt | None => None end.

(** [a || b] on numbers *)
Definition orNum (a : option num) (b : num) : num :=
  match a with
  | Some n => if truthy n then n else b
  | None => b
  end.

(** [Math.sqrt(Math.pow(a.x - b.x, 2) + Math.pow(a.y - b.y, 2))] *)
Definition dist (a b : Point) : num :=
  Math_sqrt (Math_pow (px a - px b) (lit 2) + Math_pow (py a - py b) (lit 2)).

(** [Math.min(...list)] *)
Definition minOf (l : list num) : num := fold_left Math_min l infinity.
(** [list.reduce((a, b) => a + b, 0)] *)
Definition sumOf (l : list num) : num := fold_left add l (lit 0).

(** [getDirectionAngle(p1, p2)] *)
Definition getDirectionAngle (p1 p2 : Point) : num :=
  Math_atan2 (py p2 - py p1) (px p2 - px p1) * (lit 180 / Math_PI).

(** Reading a property of [keypoints[i]]: a [TypeError] ([None]) when the
    array has no such element. *)
Definition at_ (keypoints : list Point) (i : nat) : option Point := keypoints !! i.

Definition isThumbAcrossPalm (keypoints : list Point) : option bool :=
  thumbTip ← at_ keypoints 4; palmBase ← at_ keypoints 0;
  indexBase ← at_ keypoints 5; middleBase ← at_ keypoints 9;
  let xDistance := Math_abs (px thumbTip - px palmBase) in
  let yPosition := py thumbTip in
  let avgFingerBaseY := (py indexBase + py middleBase) / lit 2 in
  Some ((xDistance <? lit 50) && (Math_abs (yPosition - avgFingerBaseY) <? lit 40)).

Definition isThumbToSide (keypoints : list Point) : option bool :=
  thumbTip ← at_ keypoints 4; indexBase ← at_ keypoints 5;
  palmBase ← at_ keypoints 0;
  let xDiff := Math_abs (px thumbTip - px indexBase) in
  let thumbExtension := Math_abs (px thumbTip - px palmBase) in
  Some ((xDiff >? lit 40) && (thumbExtension >? lit 35)).

Definition isDShape (keypoints : list Point) : option bool :=
  thumbTip ← at_ keypoints 4; middleTip ← at_ keypoints 12;
  ringTip ← at_ keypoints 16; pinkyTip ← at_ keypoints 20;
  let thumbToMiddle := dist thumbTip middleTip in
  let thumbToRing := dist thumbTip ringTip in
  let thumbToPinky := dist thumbTip pinkyTip in
  let middleToRing := dist middleTip ringTip in
  let ringToPinky := dist ringTip pinkyTip in
  let fingersBunched := (middleToRing <? lit 25) && (ringToPinky <? lit 25) in
  let thumbTouchingClosedFingers :=
    (thumbToMiddle <? lit 35) || (thumbToRing <? lit 35) || (thumbToPinky <? lit 35) in
  Some (fingersBunched && thumbTouchingClosedFingers).

Definition isThumbTouchingFingers (keypoints : list Point) : option bool :=
  thumbTip ← at_ keypoints 4; middleTip ← at_ keypoints 12;
  Some (dist thumbTip middleTip <? lit 30).

(** [thumbTip.z && indexMCP.z ? thumbTip.z - indexMCP.z : 0]: the second
    landmark is read only when the thumb depth is truthy. *)
Definition isThumbInFront (keypoints : list Point) : option bool :=
  thumbTip ← at_ keypoints 4;
  zDiff ← (if truthyOpt (pz thumbTip) then
             indexMCP ← at_ keypoints 5;
             Some (if truthyOpt (pz indexMCP)
                   then numOf (pz thumbTip) - numOf (pz indexMCP) else lit 0)
           else Some (lit 0));
  palmBase ← at_ keypoints 0;
  let xDiff := Math_abs (px thumbTip - px palmBase) in
  Some ((zDiff >? lit 0.01) && (xDiff <? lit 60)).

Definition isCShape (keypoints : list Point) : option bool :=
  tips ← mapM (at_ keypoints) [8; 12; 16; 20]%nat;
  bases ← mapM (at_ keypoints) [5; 9; 13; 17]%nat;
  thumbTip ← at_ keypoints 4;
  let avgDistance :=
    fold_left (fun sum tb => sum + dist (fst tb) (snd tb)) (zip tips bases) (lit 0)
    / lit 4 in
  let fingersToThumb := map (fun tip => dist tip thumbTip) tips in
  let avgDistToThumb := sumOf fingersToThumb / lit 4 in
  let isCurved := (avgDistance >? lit 25) && (avgDistance <? lit 45) in
  let fingersAway := avgDistToThumb >? lit 40 in
  Some (isCurved && fingersAway).

Definition isFShape (keypoints : list Point) : option bool :=
  thumbTip ← at_ keypoints 4; indexTip ← at_ keypoints 8;
  indexDIP ← at_ keypoints 7; indexPIP ← at_ keypoints 6;
  indexMCP ← at_ keypoints 5; middleTip ← at_ keypoints 12;
  ringTip ← at_ keypoints 16; pinkyTip ← at_ keypoints 20;
  palmBase ← at_ keypoints 0;
  let distances := map (dist thumbTip) [indexTip; indexDIP; indexPIP; indexMCP] in
  let minDistance := minOf distances in
  let thumbTouchesIndex := minDistance <? lit 30 in
  let middleDist := dist middleTip palmBase in
  let ringDist := dist ringTip palmBase in
  let pinkyDist := dist pinkyTip palmBase in
  let avgExtension := (middleDist + ringDist + pinkyDist) / lit 3 in
  let fingersExtended := avgExtension >? lit 75 in
  Some (thumbTouchesIndex && fingersExtended).

Definition isOShape (keypoints : list Point) : option bool :=
  thumbTip ← at_ keypoints 4; indexTip ← at_ keypoints 8;
  Some (dist thumbTip indexTip <? lit 35).

Definition isGShape (keypoints : list Point) (indexExt thumbExt : bool) : option bool :=
  if negb indexExt || negb thumbExt then Some false
  else
    indexTip ← at_ keypoints 8; indexBase ← at_ keypoints 5;
    thumbTip ← at_ keypoints 4;
    let indexAngle := getDirectionAngle indexBase indexTip in
    let indexHorizontal :=
      (Math_abs indexAngle <? lit 30)
      || (Math_abs (Math_abs indexAngle - lit 180) <? lit 30) in
    let yDiff := Math_abs (py indexTip - py thumbTip) in
    let parallel := yDiff <? lit 50 in
    Some (parallel && indexHorizontal).

Definition areFingersTogether (keypoints : list Point) (finger1Tip finger2Tip : nat)
  : option bool :=
  tip1 ← at_ keypoints finger1Tip; tip2 ← at_ keypoints finger2Tip;
  Some (dist tip1 tip2 <? lit 20).

Definition isHShape (keypoints : list Point) : option bool :=
  areFingersTogether keypoints 8 12.

Definition pointingUp (angle : num) : bool :=
  ((angle <? lit (-10)) && (angle >? lit (-135)))
  || ((angle >? lit 10) && (angle <? lit 45)).

Definition isKShape (keypoints : list Point) : option bool :=
  indexTip ← at_ keypoints 8; indexBase ← at_ keypoints 5;
  middleTip ← at_ keypoints 12; middleBase ← at_ keypoints 9;
  let indexMiddleDist := Math_abs (px indexTip - px middleTip) in
  let isValid := (indexMiddleDist >? lit 10) && (indexMiddleDist <? lit 50) in
  let indexAngle := getDirectionAngle indexBase indexTip in
  let middleAngle := getDirectionAngle middleBase middleTip in
  Some (isValid && (pointingUp indexAngle && pointingUp middleAngle)).

Definition isLShape (keypoints : list Point) : option bool :=
  indexTip ← at_ keypoints 8; thumbTip ← at_ keypoints 4; wrist ← at_ keypoints 0;
  let indexVertical := Math_abs (py indexTip - py wrist) >? lit 60 in
  let thumbHorizontal := Math_abs (px thumbTip - px wrist) >? lit 40 in
  Some (indexVertical && thumbHorizontal).

Definition isPShape (keypoints : list Point) : option bool :=
  indexTip ← at_ keypoints 8; indexBase ← at_ keypoints 5;
  middleTip ← at_ keypoints 12; middleBase ← at_ keypoints 9;
  wrist ← at_ keypoints 0;
  let indexAngle := getDirectionAngle indexBase indexTip in
  let middleAngle := getDirectionAngle middleBase middleTip in
  let indexPointingDown := (indexAngle >? lit 45) && (indexAngle <? lit 135) in
  let middlePointingDown := (middleAngle >? lit 45) && (middleAngle <? lit 135) in
  let bothDown := indexPointingDown && middlePointingDown in
  let belowWrist := (py indexTip >? py wrist) && (py middleTip >? py wrist) in
  Some (bothDown && belowWrist).

Definition isQShape (keypoints : list Point) : option bool :=
  indexTip ← at_ keypoints 8; indexBase ← at_ keypoints 5;
  thumbTip ← at_ keypoints 4; thumbBase ← at_ keypoints 2;
  wrist ← at_ keypoints 0;
  let indexAngle := getDirectionAngle indexBase indexTip in
  let thumbAngle := getDirectionAngle thumbBase thumbTip in
  let indexPointingDown := (indexAngle >? lit 45) && (indexAngle <? lit 135) in
  let thumbPointingDown := (thumbAngle >? lit 30) && (thumbAngle <? lit 150) in
  let bothDown := indexPointingDown && thumbPointingDown in
  let belowWrist := (py indexTip >? py wrist) && (py thumbTip >? py wrist) in
  Some (bothDown && belowWrist).

Definition isRShape (keypoints : list Point) (indexExt middleExt : bool) : option bool :=
  if negb indexExt || negb middleExt then Some false
  else
    indexTip ← at_ keypoints 8; middleTip ← at_ keypoints 12;
    Some (Math_abs (px indexTip - px middleTip) <? lit 15).

Definition isTShape (keypoints : list Point) : option bool :=
  thumbTip ← at_ keypoints 4; indexBase ← at_ keypoints 5;
  middleBase ← at_ keypoints 9;
  Some ((px thumbTip >? Math_min (px indexBase) (px middleBase))
        && (px thumbTip <? Math_max (px indexBase) (px middleBase))).

(** The [filter] callback [tip.z && thumbTip.z && tip.z > thumbTip.z + 0.005] *)
Definition behindThumb (thumbTip tip : Point) : bool :=
  truthyOpt (pz tip) && truthyOpt (pz thumbTip)
  && (numOf (pz tip) >? numOf (pz thumbTip) + lit 0.005).

Definition isEShape (keypoints : list Point) : option bool :=
  thumbTip ← at_ keypoints 4; indexTip ← at_ keypoints 8;
  middleTip ← at_ keypoints 12; ringTip ← at_ keypoints 16;
  pinkyTip ← at_ keypoints 20;
  thumbAcrossPalm ← isThumbAcrossPalm keypoints;
  let tips := [indexTip; middleTip; ringTip; pinkyTip] in
  let fingersBehind :=
    (3 <=? length (filter (fun tip => behindThumb thumbTip tip = true) tips))%nat in
  let distances := map (fun tip => dist tip thumbTip) tips in
  let minDistance := minOf distances in
  let notTouchingThumb := minDistance >? lit 30 in
  Some (thumbAcrossPalm && (fingersBehind || notTouchingThumb)).

(** The [filter] callback of [isMShape]:
    [f.z !== undefined && thumbTip.z !== undefined && f.diff > 0.005] *)
Definition overThumb (thumbTip tip : Point) : bool :=
  bool_decide (is_Some (pz tip)) && bool_decide (is_Some (pz thumbTip))
  && (numOf (pz tip) - numOf (pz thumbTip) >? lit 0.005).

Definition isMShape (keypoints : list Point) : option bool :=
  thumbTip ← at_ keypoints 4; indexTip ← at_ keypoints 8;
  middleTip ← at_ keypoints 12; ringTip ← at_ keypoints 16;
  let tips := [indexTip; middleTip; ringTip] in
  let distances := map (fun tip => dist tip thumbTip) tips in
  let avgDistance := sumOf distances / lit 3 in
  let minDistance := minOf distances in
  let fingersInFrontCount :=
    length (filter (fun tip => overThumb thumbTip tip = true) tips) in
  let fingersInFront := (2 <=? fingersInFrontCount)%nat in
  Some ((avgDistance <? lit 28) && (minDistance <? lit 22) && fingersInFront).

(** [ringTip] is bound by the source but never read.  The logging lines
    call [toFixed] on the three depths. *)
Definition isNShape (keypoints : list Point) : option bool :=
  thumbTip ← at_ keypoints 4; indexTip ← at_ keypoints 8;
  middleTip ← at_ keypoints 12;
  let distances := map (fun tip => dist tip thumbTip) [indexTip; middleTip] in
  let avgDist := sumOf distances / lit 2 in
  let minDist := minOf distances in
  let diffs := [Math_abs (numOf (pz indexTip) - numOf (pz thumbTip));
                Math_abs (numOf (pz middleTip) - numOf (pz thumbTip))] in
  let fingersAtSimilarDepth := length (filter (fun d => (d <? lit 0.03) = true) diffs) in
  let depthCheck := (1 <=? fingersAtSimilarDepth)%nat in
  _ ← toFixed (pz thumbTip); _ ← toFixed (pz indexTip); _ ← toFixed (pz middleTip);
  Some ((avgDist <? lit 35) && (minDist <? lit 30) && depthCheck).

Definition isXShape (keypoints : list Point) (indexExt : bool) : option bool :=
  if negb indexExt then Some false
  else
    indexTip ← at_ keypoints 8; indexPIP ← at_ keypoints 6;
    indexMCP ← at_ keypoints 5;
    let tipToMid := dist indexTip indexPIP in
    let midToBase := dist indexPIP indexMCP in
    Some (tipToMid <? midToBase * lit 1.2).

Inductive Finger := thumb | index | middle | ring | pinky.

Definition fingerTips (f : Finger) : nat :=
  match f with thumb => 4 | index => 8 | middle => 12 | ring => 16 | pinky => 20 end%nat.
Definition fingerBase (f : Finger) : nat :=
  match f with thumb => 2 | index => 5 | middle => 9 | ring => 13 | pinky => 17 end%nat.

(** [isFingerExtended(keypoints, fingerName)]: a missing landmark makes
    the finger count as closed. *)
Definition isFingerExtended (keypoints : list Point) (fingerName : Finger) : bool :=
  match keypoints !! fingerTips fingerName, keypoints !! fingerBase fingerName with
  | Some tip, Some base =>
      let distance := dist tip base in
      match fingerName with
      | thumb => distance >? lit 25
      | _ => distance >? lit 30
      end
  | _, _ => false
  end.

(** [if (test) return letter;] followed by the rest of the function. *)
Definition orElse (test : option bool) (letter : string) (rest : option string)
  : option string :=
  match test with
  | Some true => Some letter
  | Some false => rest
  | None => None
  end.

(** [guard && shape]: the shape predicate runs only when the guard holds. *)
Definition guarded (guard : bool) (shape : option bool) : option bool :=
  if guard then shape else Some false.

(** The part of [detectASLLetter] below the closed-fist block: the
    tests for D to Z in the order of the source, then ['unknown']. *)
Definition lettersAfterFist (keypoints : list Point) (thumbAcrossPalm : bool)
           (thumbExt indexExt middleExt ringExt pinkyExt : bool) : option string :=
  let allFingersClosed :=
    negb indexExt && negb middleExt && negb ringExt && negb pinkyExt in
  let twoUp := indexExt && middleExt && negb ringExt && negb pinkyExt in
  let indexAndThumb :=
    indexExt && thumbExt && negb middleExt && negb ringExt && negb pinkyExt in
  orElse (guarded (indexExt && negb middleExt && negb ringExt && negb pinkyExt)
                  (isDShape keypoints)) "D" (
  orElse (Some (indexExt && middleExt && ringExt && pinkyExt && thumbAcrossPalm)) "B" (
  orElse (guarded (middleExt && ringExt && pinkyExt && negb indexExt)
                  (isFShape keypoints)) "F" (
  orElse (guarded twoUp (isHShape keypoints)) "H" (
  orElse (guarded indexAndThumb (isQShape keypoints)) "Q" (
  orElse (guarded indexAndThumb (isGShape keypoints indexExt thumbExt)) "G" (
  orElse (guarded twoUp (isPShape keypoints)) "P" (
  kShapeValid ← isKShape keypoints;
  orElse (Some (twoUp && kShapeValid)) "K" (
  orElse (Some (negb indexExt && negb middleExt && negb ringExt && pinkyExt
                && thumbAcrossPalm)) "I" (
  orElse (guarded indexAndThumb (isLShape keypoints)) "L" (
  orElse (guarded allFingersClosed (isNShape keypoints)) "N" (
  orElse (isCShape keypoints) "C" (
  orElse (isOShape keypoints) "O" (
  orElse (isRShape keypoints indexExt middleExt) "R" (
  orElse (guarded allFingersClosed (isThumbInFront keypoints)) "S" (
  orElse (isTShape keypoints) "T" (
  orElse (guarded twoUp (areFingersTogether keypoints 8 12)) "U" (
  orElse (guarded twoUp (negb <$> areFingersTogether keypoints 8 12)) "V" (
  orElse (Some (indexExt && middleExt && ringExt && negb pinkyExt && negb thumbExt))
         "W" (
  orElse (isXShape keypoints indexExt) "X" (
  orElse (Some (thumbExt && negb indexExt && negb middleExt && negb ringExt
                && pinkyExt)) "Y" (
  orElse (Some (indexExt && negb middleExt && negb ringExt && negb pinkyExt
                && negb thumbExt)) "Z" (
  Some "unknown")))))))))))))))))))))).

(** [detectASLLetter]; [None] is an uncaught [TypeError].  The three
    thumb helpers run first; the closed-fist block falls through to the
    remaining tests when none of its own matches. *)
Definition detectASLLetter (keypoints : list Point)
           (thumbExt indexExt middleExt ringExt pinkyExt : bool) : option string :=
  thumbAcrossPalm ← isThumbAcrossPalm keypoints;
  thumbToSide ← isThumbToSide keypoints;
  thumbTouchingFingers ← isThumbTouchingFingers keypoints;
  let allFingersClosed :=
    negb indexExt && negb middleExt && negb ringExt && negb pinkyExt in
  let afterFist :=
    lettersAfterFist keypoints thumbAcrossPalm
                     thumbExt indexExt middleExt ringExt pinkyExt in
  if allFingersClosed then
    if thumbToSide && negb thumbAcrossPalm then Some "A"
    else
      orElse (isMShape keypoints) "M" (
      orElse (isEShape keypoints) "E" (
      orElse (isThumbInFront keypoints) "S" (
      if thumbToSide then Some "A" else afterFist)))
  else afterFist.

(** The external ML model: [mlModel.isLoaded] and
    [await mlModel.predict(keypoints)], which yields a letter with its
    confidence or raises ([None]). *)
Variable mlIsLoaded : bool.
Variable mlPredict : list Keypoint -> option (string * num).

(** The fields of the detector object that a detection tick reads or
    writes; [detectorLoaded] is [this.detector !== null]. *)
Record Detector := {
  isInitialized : bool;
  detectorLoaded : bool;
  useMLHybrid : bool;
  gestureBuffer : list string;
  bufferSize : nat;
  smoother : Smoother.State
}.

(** The state built by the constructor. *)
Definition constructor : Detector :=
  {| isInitialized := false; detectorLoaded := false; useMLHybrid := false;
     gestureBuffer := []; bufferSize := 10; smoother := Smoother.constructor |}.

Definition mlConfidenceThreshold : num := lit 0.50.

(** The first pass over [keypoints3D] that finds the depth range. *)
Definition zBounds (points : list Keypoint3D) : num * num :=
  fold_left (fun '(minZ, maxZ) point =>
               (if z3 point <? minZ then z3 point else minZ,
                if z3 point >? maxZ then z3 point else maxZ))
            points (infinity, lit 0 - infinity).

(** World coordinates to image space, with the pixel coordinates kept on
    the side. *)
Definition normalize (minZ zRange : num) (point : Keypoint3D) : Keypoint :=
  {| kx := x3 point + lit 0.5;
     ky := lit 1.0 - (y3 point + lit 0.5);
     kz := Some ((z3 point - minZ) / zRange);
     xPixel := Some ((x3 point + lit 0.5) * lit 640);
     yPixel := Some ((lit 0.5 - y3 point) * lit 480) |}.

Definition fromKeypoints3D (points : list Keypoint3D) : list Keypoint :=
  let '(minZ, maxZ) := zBounds points in
  let zRange := orNum (Some (maxZ - minZ)) (lit 1) in
  map (normalize minZ zRange) points.

(** [keypoints = hand.keypoints]: the fallback objects have neither [z]
    nor pixel coordinates. *)
Definition fromKeypoints2D (points : list Keypoint2D) : list Keypoint :=
  map (fun p => {| kx := x2 p; ky := y2 p; kz := None;
                   xPixel := None; yPixel := None |}) points.

Definition toPixel (kp : Keypoint) : Point :=
  {| px := orNum (xPixel kp) (kx kp); py := orNum (yPixel kp) (ky kp); pz := kz kp |}.

(** The choice between the two landmark arrays; [None] is the branch
    that returns ['none']. *)
Definition selectKeypoints (hand : Hand) : option (list Keypoint) :=
  match keypoints3D hand with
  | Some (p :: ps) => Some (fromKeypoints3D (p :: ps))
  | _ =>
      match keypoints hand with
      | Some (p :: ps) => Some (fromKeypoints2D (p :: ps))
      | _ => None
      end
  end.

(** The angle-based classification of the selected landmarks. *)
Definition angleBased (kps : list Keypoint) : option string :=
  let pixelKeypoints := map toPixel kps in
  let thumbExtended := isFingerExtended pixelKeypoints thumb in
  let indexExtended := isFingerExtended pixelKeypoints index in
  let middleExtended := isFingerExtended pixelKeypoints middle in
  let ringExtended := isFingerExtended pixelKeypoints ring in
  let pinkyExtended := isFingerExtended pixelKeypoints pinky in
  detectASLLetter pixelKeypoints thumbExtended indexExtended middleExtended
                  ringExtended pinkyExtended.

(** [classifyGesture(hands)]; [None] is a rejected promise (an uncaught
    exception). *)
Definition classifyGesture (d : Detector) (hands : list Hand) : option string :=
  match hands with
  | [] => Some "none"
  | hand :: _ =>
      match selectKeypoints hand with
      | None => Some "none"
      | Some kps =>
          if useMLHybrid d && mlIsLoaded then
            match mlPredict kps with
            | Some (letter, confidence) =>
                if confidence >=? mlConfidenceThreshold then Some letter
                else angleBased kps
            | None => angleBased kps
            end
          else angleBased kps
      end
  end.

(** [calculateConfidence(hands)]; it reads [hand.keypoints] and raises
    when that array is absent. *)
Definition calculateConfidence (hands : list Hand) : option num :=
  match hands with
  | [] => Some (lit 0)
  | hand :: _ =>
      points ← keypoints hand;
      let scores := map (fun kp => orNum (score kp) (lit 0)) points in
      let avgScore := sumOf scores / lit (inject_Z (Z.of_nat (length scores))) in
      Some (Math_round (avgScore * lit 100))
  end.

(** The object returned by [detectGesture]; the early return for an
    empty frame carries no [timestamp]. *)
Record Detection := {
  gesture : option string;
  confidence : num;
  hands_ : list Hand;
  timestamp : option Z
}.

(** The logging block that reads [hands[0].keypoints3D[8].x]. *)
Definition logSamplePoint (hand : Hand) : option unit :=
  match keypoints3D hand with
  | Some (p :: ps) => _ ← (p :: ps) !! 8%nat; Some tt
  | _ => Some tt
  end.

Definition pushGesture (rawGesture : string) (d : Detector) (s : Smoother.State)
  : Detector :=
  let buffer := (gestureBuffer d ++ [rawGesture])%list in
  {| isInitialized := isInitialized d; detectorLoaded := detectorLoaded d;
     useMLHybrid := useMLHybrid d;
     gestureBuffer := if (bufferSize d <? length buffer)%nat then tail buffer else buffer;
     bufferSize := bufferSize d; smoother := s |}.

(** [detectGesture(videoElement)].  [videoReady] is the readiness test on
    the video element, [estimated] the outcome of
    [detector.estimateHands] ([None] when it raises), [now] the clock
    read by [smoothGesture] and [stamp] the one stored in the result.
    The first component is [None] for the [null] returned by the guards
    and by the [catch]. *)
Definition detectGesture (videoReady : bool) (estimated : option (list Hand))
           (now stamp : Z) (d : Detector) : option Detection * Detector :=
  if negb (isInitialized d) || negb (detectorLoaded d) then (None, d)
  else if negb videoReady then (None, d)
  else
    match estimated with
    | None => (None, d)
    | Some [] =>
        (Some {| gesture := Some "none"; confidence := lit 0; hands_ := [];
                 timestamp := None |}, d)
    | Some (hand :: others) =>
        let hands := hand :: others in
        match logSamplePoint hand with
        | None => (None, d)
        | Some _ =>
            match classifyGesture d hands with
            | None => (None, d)
            | Some rawGesture =>
                let '(smoothedGesture, s) :=
                  Smoother.smoothGesture rawGesture now (smoother d) in
                let d' := pushGesture rawGesture d s in
                match calculateConfidence hands with
                | None => (None, d')
                | Some c =>
                    (Some {| gesture := smoothedGesture; confidence := c;
                             hands_ := hands; timestamp := Some stamp |}, d')
                end
            end
        end
    end.

End WithNumbers.
End Classifier.

(** ** Vocabulary of the properties *)

Module Assembler.
Import JsString SentenceBuilder.

(** The calls a client can make on the builder. *)
Inductive Op :=
| AddLetter (letter : string) (now : Z)
| AddSpace
| Backspace
| Clear
| ClearWord
| SetSentence (text : string).

Section WithEngine.
Context `{Engine}.

(** The state after a call; a call that raises leaves it as it was. *)
Definition apply (op : Op) (st : State) : State :=
  match op with
  | AddLetter letter now =>
      match addLetter letter now st with Some (_, st') => st' | None => st end
  | AddSpace => match addSpace st with Some (_, st') => st' | None => st end
  | Backspace => snd (backspace st)
  | Clear => snd (clear st)
  | ClearWord => snd (clearWord st)
  | SetSentence text => setSentence text st
  end.

(** The state reached from a state by a sequence of calls. *)
Definition run (ops : list Op) (st : State) : State :=
  fold_left (fun s op => apply op s) ops st.

(** [a] followed by the first two characters of [r] are three equal
    characters. *)
Definition tripleAt (a : ascii) (r : string) : bool :=
  match r with
  | String b (String c _) => Ascii.eqb a b && Ascii.eqb b c
  | _ => false
  end.

(** No three identical consecutive characters anywhere in [s]. *)
Fixpoint noTriple (s : string) : bool :=
  match s with
  | EmptyString => true
  | String a r => negb (tripleAt a r) && noTriple r
  end.

(** Only the characters [a] to [z]. *)
Fixpoint onlyLower (s : string) : bool :=
  match s with
  | EmptyString => true
  | String a r => isLower a && onlyLower r
  end.

(** The character [c] does not occur in [s]. *)
Fixpoint lacks (c : ascii) (s : string) : bool :=
  match s with
  | EmptyString => true
  | String a r => negb (Ascii.eqb a c) && lacks c r
  end.

(** The invariant of the word in progress. *)
Definition wordOk (st : State) : Prop :=
  noTriple (currentWord st) = true ∧ onlyLower (currentWord st) = true.

(** The two guards [addLetter] evaluates before anything else. *)
Definition duplicateGuard (letter : string) (now : Z) (st : State) : bool :=
  String.eqb letter (toUpperCase (slice (-1) None (currentWord st)))
  && (now - lastLetterTimestamp st <? 2000).
Definition debounceGuard (letter : string) (now : Z) (st : State) : bool :=
  String.eqb letter (lastLetter st) && (now - lastLetterTimestamp st <? letterHoldTime).

(** C5 as the specification states it: whenever appending the letter to
    the word in progress would create a run of three, the call answers
    [triple_prevented] and changes nothing. *)
Definition triple_claim : Prop :=
  ∀ ops letter now r st',
    let st := run ops constructor in
    isSingleLetter letter = true ->
    noTriple (currentWord st ++ toLowerCase letter) = false ->
    addLetter letter now st = Some (r, st') ->
    action r = "triple_prevented" ∧ st' = st.

(** C6 as the specification states it. *)
Definition debounce_claim : Prop :=
  ∀ st t1 t2 r1 st1 r2 st2,
    addLetter "A" t1 st = Some (r1, st1) -> action r1 = "letter_added" ->
    t1 < t2 -> t2 - t1 < letterHoldTime ->
    addLetter "A" t2 st1 = Some (r2, st2) ->
    action r2 = "debounced" ∧ currentWord st2 = currentWord st1.

(** C7 as the specification states it. *)
Definition round_trip_claim : Prop :=
  ∀ st r1 st1,
    currentWord st ≠ "" ->
    autoCorrect (currentWord st) = VString (currentWord st) ->
    addSpace st = Some (r1, st1) ->
    currentWord (snd (backspace st1)) = currentWord st.

End WithEngine.
End Assembler.

Module EditDistance.
Import JsString SentenceBuilder.

(** The Levenshtein distance as the specification uses the word: the least
    number of single-character insertions, deletions and substitutions that
    turn one string into the other.  [edits a b n] holds when [a] can be
    turned into [b] with [n] such edits. *)
Inductive edits : string -> string -> nat -> Prop :=
| edits_nil : edits "" "" 0
| edits_keep c a b n : edits a b n -> edits (String c a) (String c b) n
| edits_substitute x y a b n : edits a b n -> edits (String x a) (String y b) (S n)
| edits_delete x a b n : edits a b n -> edits (String x a) b (S n)
| edits_insert y a b n : edits a b n -> edits a (String y b) (S n).

(** The recurrence of the matrix, as a function of the two strings read
    from their heads. *)
Fixpoint lev (a : string) : string -> nat :=
  fix inner (b : string) : nat :=
    match a, b with
    | EmptyString, _ => len b
    | _, EmptyString => len a
    | String x a', String y b' =>
        if Ascii.eqb x y then lev a' b'
        else S (Nat.min (lev a' b') (Nat.min (lev a' b) (inner b')))
    end.

Fixpoint revAppend (s acc : string) : string :=
  match s with
  | EmptyString => acc
  | String c r => revAppend r (String c acc)
  end.

(** The string read backwards. *)
Definition revS (s : string) : string := revAppend s "".

(** The cells [matrix[i][j+1 ..]] of one row: [rb] holds the first [i]
    characters of [b] and [ra] the first [j] characters of [a], both read
    backwards; [suffix] is the rest of [a]. *)
Fixpoint rowFrom (rb ra suffix : string) : list nat :=
  match suffix with
  | EmptyString => []
  | String c s => lev (String c ra) rb :: rowFrom rb (String c ra) s
  end.

(** The whole row [matrix[i]]. *)
Definition fullRow (rb a : string) : list nat := lev "" rb :: rowFrom rb "" a.

End EditDistance.

Module Fuzzy.
Import JsString SentenceBuilder.

(** What the pair [(closestWord, minDistance)] of [findClosestWord] says
    about the candidates visited so far: nothing is selected while all of
    them are beyond the budget; otherwise the selected value belongs to
    the first visited candidate whose distance is the smallest, and that
    distance is within the budget. *)
Definition selects (word : string) (maxDistance : nat)
           (seen : list (string * string)) (best : option (string * nat)) : Prop :=
  match best with
  | None => ∀ kv, In kv seen -> (maxDistance < levenshteinDistance word (fst kv))%nat
  | Some (value, m) =>
      (m <= maxDistance)%nat
      ∧ ∃ before key after,
          seen = (before ++ (key, value) :: after)%list
          ∧ levenshteinDistance word key = m
          ∧ (∀ kv, In kv before -> (m < levenshteinDistance word (fst kv))%nat)
          ∧ (∀ kv, In kv after -> (m <= levenshteinDistance word (fst kv))%nat)
  end.

End Fuzzy.

Module Suppression.
Import Smoother.



End Suppression.

Module Detection.
Import Classifier.

(** The gesture names the angle-based classifier can return for a hand. *)
Definition shapeNames : list string :=
  ["A"; "B"; "C"; "D"; "E"; "F"; "G"; "H"; "I"; "K"; "L"; "M"; "N"; "O"; "P"; "Q";
   "R"; "S"; "T"; "U"; "V"; "W"; "X"; "Y"; "Z"; "unknown"].

(** The first hand carries at least 21 three-dimensional landmarks, or
    there is nothing to classify (no hand, or a first hand without
    landmarks). *)
Definition wellFormed {num : Type} (hands : list (Hand (num := num))) : bool :=
  match hands with
  | [] => true
  | hand :: _ =>
      match keypoints3D hand with
      | Some (p :: ps) => (21 <=? length (p :: ps))%nat
      | _ => match keypoints hand with Some (_ :: _) => false | _ => true end
      end
  end.

(** Every landmark handed to the predicates carries a depth. *)
Definition hasDepth {num : Type} (p : Point (num := num)) : Prop := is_Some (pz p).

(** Nothing to classify: no hand, or a first hand without landmarks. *)
Definition nothingToClassify {num : Type} `{JsNumber num}
           (hands : list (Hand (num := num))) : bool :=
  match hands with
  | [] => true
  | hand :: _ => match selectKeypoints hand with None => true | Some _ => false end
  end.

(** The first hand carries between one and nine three-dimensional
    landmarks. *)
Definition incomplete {num : Type} (hands : list (Hand (num := num))) : bool :=
  match hands with
  | hand :: _ =>
      match keypoints3D hand with
      | Some points => (1 <=? length points)%nat && (length points <=? 9)%nat
      | None => false
      end
  | [] => false
  end.

(** A detector that has been initialised. *)
Definition ready (d : Detector) : bool := isInitialized d && detectorLoaded d.

(** C4 as the specification states it: a frame without a hand yields what
    the smoother answers to ['none'] and leaves the smoother in the state
    that call produces. *)
Definition no_hand_claim : Prop :=
  ∀ (num : Type) (N : JsNumber num) mlIsLoaded mlPredict (d : Detector) now stamp,
    ready d = true ->
    let '(answer, d') :=
      detectGesture (num := num) mlIsLoaded mlPredict true (Some []) now stamp d in
    (gesture <$> answer) = Some (fst (Smoother.smoothGesture "none" now (smoother d)))
    ∧ smoother d' = snd (Smoother.smoothGesture "none" now (smoother d)).

(** C9 as the specification states it: classification never raises,
    whatever the landmark input. *)
Definition total_claim : Prop :=
  ∀ (num : Type) (N : JsNumber num) mlIsLoaded mlPredict (d : Detector)
    (hands : list (Hand (num := num))),
    ∃ g, classifyGesture mlIsLoaded mlPredict d hands = Some g.

(** A detector on which ['K'] has been confirmed. *)
Definition detectorOnK : Detector :=
  {| isInitialized := true; detectorLoaded := true; useMLHybrid := false;
     gestureBuffer := ["K"; "K"; "K"]; bufferSize := 10;
     smoother := snd (Smoother.feed [("K", 1700000000000); ("K", 1700000000200);
                                     ("K", 1700000000400)] Smoother.constructor) |}.

(** A hand with a single three-dimensional landmark, in the NaN-only
    model. *)
Definition onePointHand : Hand (num := unit) :=
  {| keypoints := None; keypoints3D := Some [ {| x3 := tt; y3 := tt; z3 := tt |} ] |}.

(** A hand with 21 three-dimensional landmarks, in the NaN-only model. *)
Definition fullHand : Hand (num := unit) :=
  {| keypoints := None;
     keypoints3D := Some (replicate 21 {| x3 := tt; y3 := tt; z3 := tt |}) |}.

End Detection.

(** ** The remaining operations of the two services and their callers *)

Module BuilderReads.
Import JsString SentenceBuilder.

(** The object returned by [getState()]. *)
Record Stats := {
  s_currentWord : string;
  s_sentence : string;
  wordCount : nat;
  letterCount : nat;
  totalCharacters : nat
}.

(** [sentence.split(' ').filter(w => w.length > 0).length] *)
Definition countWords (s : string) : nat :=
  length (List.filter (fun w => (0 <? len w)%nat) (split " " s)).

(** [getState()] *)
Definition getState (st : State) : Stats :=
  {| s_currentWord := currentWord st;
     s_sentence := sentence st;
     wordCount := countWords (sentence st);
     letterCount := len (currentWord st);
     totalCharacters := (len (sentence st) + len (currentWord st))%nat |}.

(** [getCompleteText()] *)
Definition getCompleteText (st : State) : string :=
  if (0 <? len (currentWord st))%nat then
    if (0 <? len (sentence st))%nat then sentence st ++ " " ++ currentWord st
    else currentWord st
  else sentence st.

(** The action tags with which a call reports that it did nothing. *)
Definition refusals : list string :=
  ["duplicate_blocked"; "debounced"; "triple_prevented"; "ignored"; "space_ignored";
   "backspace_ignored"].

(** The action tags with which [addLetter] reports a change. *)
Definition changes : list string :=
  ["letter_added"; "word_completed"; "letter_deleted"; "word_deleted"; "cleared"].

(** The words [addLetter] hands over to another operation. *)
Definition keywords : list string := ["SPACE"; "BACKSPACE"; "DELETE"; "CLEAR"].

(** The returned object shows the buffers as the call left them. *)
Definition reports (r : Result) (st : State) : Prop :=
  r_currentWord r = currentWord st ∧ r_sentence r = sentence st.

(** No leading, trailing or doubled space: the string is empty or every
    piece between two spaces is non-empty. *)
Definition wellSpaced (s : string) : bool :=
  String.eqb s "" || forallb (fun w => negb (String.eqb w "")) (split " " s).

(** A call that cannot bring badly spaced text into the sentence: every
    call but a [setSentence] with such a text. *)
Definition keepsSpacing (op : Assembler.Op) : bool :=
  match op with
  | Assembler.SetSentence text => wellSpaced text
  | _ => true
  end.

(** A call that completes the word in progress. *)
Definition completes (op : Assembler.Op) : bool :=
  match op with
  | Assembler.AddSpace => true
  | Assembler.AddLetter letter _ => String.eqb letter "SPACE"
  | _ => false
  end.

(** No call of the run completes the word [constructor], the one word
    whose completion appends a text that depends on the engine. *)
Fixpoint sparesConstructor `{Engine} (ops : list Assembler.Op) (st : State) : bool :=
  match ops with
  | [] => true
  | op :: rest =>
      negb (completes op && String.eqb (currentWord st) "constructor")
      && sparesConstructor rest (Assembler.apply op st)
  end.

(** The values [autoCorrect] can select from its two tables. *)
Definition tableWords : list string := (map snd autoCorrectDict ++ commonWords)%list.

(** Only characters of the ASCII range. *)
Fixpoint asciiOnly (s : string) : bool :=
  match s with
  | EmptyString => true
  | String c r => (nat_of_ascii c <? 128)%nat && asciiOnly r
  end.

(** No line terminator in the string. *)
Fixpoint singleLine (s : string) : bool :=
  match s with
  | EmptyString => true
  | String c r => negb (isLineTerminator c) && singleLine r
  end.

(** The two characters read before the current one, as a string. *)
Definition context (p2 p1 : option ascii) : string :=
  match p2, p1 with
  | Some a, Some b => String a (String b "")
  | None, Some b => String b ""
  | _, None => ""
  end.

End BuilderReads.

Module DetectorMore.
Import Classifier.

(** [cleanup()]: the detector is disposed of and the legacy buffer emptied;
    the smoother fields are not touched. *)
Definition cleanup (d : Detector) : Detector :=
  {| isInitialized := false; detectorLoaded := false; useMLHybrid := useMLHybrid d;
     gestureBuffer := []; bufferSize := bufferSize d; smoother := smoother d |}.

(** How the creation of the hand detector can end: with a detector, with
    [null], or with an exception from both runtimes. *)
Inductive Loading := Loaded | Missing | Raised.

(** [initialize()].  [mlLoaded] is what [mlModel.initialize()] resolves to
    ([None] when it raises), [backend] tells whether TensorFlow.js became
    ready and could create a tensor, [created] is the outcome of
    [createDetector].  Every exception ends in the [catch], which clears
    [isInitialized] and returns [false]. *)
Definition initialize (mlLoaded : option bool) (backend : bool) (created : Loading)
           (d : Detector) : bool * Detector :=
  let failed (hybrid loaded : bool) :=
    (false,
     {| isInitialized := false; detectorLoaded := loaded; useMLHybrid := hybrid;
        gestureBuffer := gestureBuffer d; bufferSize := bufferSize d;
        smoother := smoother d |}) in
  let hybrid := if useMLHybrid d then mlLoaded else Some false in
  match hybrid with
  | None => failed (useMLHybrid d) (detectorLoaded d)
  | Some hybrid' =>
      if negb backend then failed hybrid' (detectorLoaded d)
      else
        match created with
        | Raised => failed hybrid' (detectorLoaded d)
        | Missing => failed hybrid' false
        | Loaded =>
            (true,
             {| isInitialized := true; detectorLoaded := true; useMLHybrid := hybrid';
                gestureBuffer := gestureBuffer d; bufferSize := bufferSize d;
                smoother := smoother d |})
        end
  end.

(** The names the angle-based classifier can answer for a hand: no [J] and
    no [U]. *)
Definition answerNames : list string :=
  ["A"; "B"; "C"; "D"; "E"; "F"; "G"; "H"; "I"; "K"; "L"; "M"; "N"; "O"; "P"; "Q";
   "R"; "S"; "T"; "V"; "W"; "X"; "Y"; "Z"; "unknown"].

(** The last [n] elements of a list: [l.slice(-n)]. *)
Definition lastN {A : Type} (n : nat) (l : list A) : list A := drop (length l - n) l.

End DetectorMore.

(** *** The detection loop of [useAIServices.js] *)

Module Caller.
Import JsString Classifier DetectorMore.

Section WithNumbers.
Context {num : Type} `{JsNumber num} `{SentenceBuilder.Engine}.
Variable mlIsLoaded : bool.
Variable mlPredict : list (Keypoint (num := num)) -> option (string * num).

(** An entry of [captionHistory]; [shown] is the clock reading rendered by
    [toISOString()]. *)
Record Caption := { id : Z; text : string; kind : string; shown : Z }.

(** An entry of [gestureHistoryRef.current]. *)
Record Seen := { seenGesture : string; seenAt : Z; seenConfidence : num }.

(** The state the interval callback reads and writes: the shared sentence
    builder, the React state mirrored from it, and the two histories. *)
Record Hook := {
  builder : SentenceBuilder.State;
  currentWord : string;
  currentSentence : string;
  currentGesture : option (Detection (num := num));
  captionHistory : list Caption;
  gestureHistory : list Seen
}.

(** The readings of the clock made during one callback. *)
Record Clock := { atLetter : Z; atCaption : Z; atStamp : Z; atHistory : Z }.

Definition aslLetters : list string :=
  ["A"; "B"; "C"; "D"; "E"; "F"; "G"; "H"; "I"; "J"; "K"; "L"; "M"; "N"; "O"; "P"; "Q";
   "R"; "S"; "T"; "U"; "V"; "W"; "X"; "Y"; "Z"].

(** [gesture.replace(/_/g, ' ')] *)
Definition underscoresToSpaces : string -> string :=
  mapS (fun c => if Ascii.eqb c "_" then " "%char else c).

(** [interpretGesture(gesture)] *)
Definition interpretGesture (gesture : string) : string :=
  if SentenceBuilder.inList gesture aslLetters then "ASL Letter: " ++ gesture
  else if String.eqb gesture "unknown" then "Unknown gesture"
  else underscoresToSpaces gesture.

(** [addCaption(text, type)]: [[...prev.slice(-20), caption]] *)
Definition addCaption (text_ kind_ : string) (now stamp : Z) (h : Hook) : Hook :=
  {| builder := builder h; currentWord := currentWord h;
     currentSentence := currentSentence h; currentGesture := currentGesture h;
     captionHistory :=
       (lastN 20 (captionHistory h)
        ++ [ {| id := now; text := text_; kind := kind_; shown := stamp |} ])%list;
     gestureHistory := gestureHistory h |}.

(** [/^[A-Z]$/.test(s)]: exactly one upper-case ASCII letter. *)
Definition isUpperLetter (s : string) : bool :=
  match s with
  | String c EmptyString => isUpper c
  | _ => false
  end.

(** The test that lets a result through to the sentence builder or the
    captions: a non-empty gesture other than ['none'] and
    ['unknown_gesture'], with at least one hand. *)
Definition passes (r : Detection (num := num)) : option string :=
  match gesture r with
  | Some g =>
      if negb (String.eqb g "") && negb (String.eqb g "none")
         && negb (String.eqb g "unknown_gesture") && (0 <? length (hands_ r))%nat
      then Some g else None
  | None => None
  end.

Definition remember (g : string) (c : num) (now : Z) (h : Hook) : Hook :=
  let history := (gestureHistory h
                  ++ [ {| seenGesture := g; seenAt := now; seenConfidence := c |} ])%list in
  {| builder := builder h; currentWord := currentWord h;
     currentSentence := currentSentence h; currentGesture := currentGesture h;
     captionHistory := captionHistory h;
     gestureHistory := if (50 <? length history)%nat then tail history else history |}.

Definition setGesture (g : option (Detection (num := num))) (h : Hook) : Hook :=
  {| builder := builder h; currentWord := currentWord h;
     currentSentence := currentSentence h; currentGesture := g;
     captionHistory := captionHistory h; gestureHistory := gestureHistory h |}.

(** The body of the interval callback of [startSignDetection], given the
    value [detectGesture] resolved to.  An exception of [addLetter] would
    end the callback before anything is stored. *)
Definition onDetection (result : option (Detection (num := num))) (clock : Clock)
           (h : Hook) : Hook :=
  match result with
  | None => h
  | Some r =>
      match passes r with
      | Some g =>
          let detectedLetter := toUpperCase g in
          if isUpperLetter detectedLetter then
            match SentenceBuilder.addLetter detectedLetter (atLetter clock) (builder h) with
            | None => h
            | Some (builderResult, b) =>
                let h1 := {| builder := b;
                             currentWord := SentenceBuilder.r_currentWord builderResult;
                             currentSentence := SentenceBuilder.r_sentence builderResult;
                             currentGesture := currentGesture h;
                             captionHistory := captionHistory h;
                             gestureHistory := gestureHistory h |} in
                let h2 :=
                  if String.eqb (SentenceBuilder.action builderResult) "word_completed"
                  then addCaption (SentenceBuilder.r_sentence builderResult) "sign"
                                  (atCaption clock) (atStamp clock) h1
                  else h1 in
                remember g (confidence r) (atHistory clock) (setGesture (Some r) h2)
            end
          else
            let h1 := setGesture (Some r) h in
            let h2 := addCaption ("[Sign] " ++ interpretGesture g) "sign"
                                 (atCaption clock) (atStamp clock) h1 in
            remember g (confidence r) (atHistory clock) h2
      | None =>
          match gesture r with
          | Some g => if String.eqb g "none" then setGesture None h else h
          | None => h
          end
      end
  end.

(** The React state shows the buffers of the builder. *)
Definition mirrors (h : Hook) : Prop :=
  currentWord h = SentenceBuilder.currentWord (builder h)
  ∧ currentSentence h = SentenceBuilder.sentence (builder h).

(** What one firing of the interval meets: the state of the video element,
    the outcome of the hand estimation and the readings of the clock. *)
Record Frame := {
  videoReady : bool;
  estimated : option (list (Hand (num := num)));
  smoothedAt : Z;
  stampedAt : Z;
  clock : Clock
}.

(** One firing of the interval: [detectGesture], then the body of the
    callback on its result. *)
Definition tick (f : Frame) (s : Detector * Hook) : Detector * Hook :=
  let '(result, d) :=
    detectGesture mlIsLoaded mlPredict (videoReady f) (estimated f)
                  (smoothedAt f) (stampedAt f) (fst s) in
  (d, onDetection result (clock f) (snd s)).

(** The firings of the interval over a sequence of frames, each callback
    finishing before the next one starts. *)
Definition session (frames : list Frame) (s : Detector * Hook) : Detector * Hook :=
  fold_left (fun s f => tick f s) frames s.

End WithNumbers.
End Caller.

(** *** The landmark features of [aslMLModel.js] *)

Module MLModel.
Import Classifier.

Section WithNumbers.
Context {num : Type} `{JsNumber num}.

(** [flattenLandmarks(landmarks)]: three features for each of the first 21
    landmarks, zeros where a landmark or a coordinate is missing. *)
Definition flattenLandmarks (landmarks : list (Keypoint (num := num))) : list num :=
  flat_map (fun i =>
              match landmarks !! i with
              | Some lm => [orNum (Some (kx lm)) (lit 0); orNum (Some (ky lm)) (lit 0);
                            orNum (kz lm) (lit 0)]
              | None => [lit 0; lit 0; lit 0]
              end) (seq 0 21).

(** The rows [[features[3i], features[3i+1], features[3i+2]]] that
    [predict] hands to the tensor; a missing feature is [undefined]. *)
Definition reshape (features : list num) : list (list (option num)) :=
  map (fun i => [features !! (i * 3)%nat; features !! (i * 3 + 1)%nat;
                 features !! (i * 3 + 2)%nat]) (seq 0 21).

End WithNumbers.
End MLModel.

(** *** Sample values in the NaN-only model *)

Module Samples.
Import Classifier Detection DetectorMore Caller.

(** A hand as the estimator delivers it: 21 scored landmarks and 21
    three-dimensional ones. *)
Definition scoredHand : Hand (num := unit) :=
  {| keypoints := Some (replicate 21 {| x2 := tt; y2 := tt; score := Some tt |});
     keypoints3D := Some (replicate 21 {| x3 := tt; y3 := tt; z3 := tt |}) |}.

(** A new detector after a successful [initialize()]. *)
Definition readyDetector : Detector :=
  snd (initialize None true Loaded constructor).

(** The state of the hook as [useAIServices] creates it. *)
Definition hookAtStart : Hook (num := unit) :=
  {| builder := SentenceBuilder.constructor; currentWord := ""; currentSentence := "";
     currentGesture := None; captionHistory := []; gestureHistory := [] |}.

(** A frame on a playing video, all its clock readings at [t]. *)
Definition frameAt (hands : list (Hand (num := unit))) (t : Z) : Frame :=
  {| videoReady := true; estimated := Some hands; smoothedAt := t; stampedAt := t;
     clock := {| atLetter := t; atCaption := t; atStamp := t; atHistory := t |} |}.

End Samples.

(* ===================================================================== *)
(** * Properties *)
(* ===================================================================== *)

(** ** Confidence smoother *)

Section SmootherFacts.
Import Smoother Suppression.

Implicit Types (st : State) (m : gmap string Z) (g c : string) (t : Z).

Lemma confidenceOf_ensureEntry g m :
  confidenceOf g (ensureEntry g m) = confidenceOf g m.
Proof.
  unfold confidenceOf, ensureEntry.
  destruct (m !! g) eqn:E; [by rewrite E|].
  by rewrite lookup_insert_eq.
Qed.

Lemma confidenceOf_resetOnSwitch g last m :
  g ≠ last -> confidenceOf g (resetOnSwitch g last m) = confidenceOf g m.
Proof.
  intros Hne. unfold confidenceOf, resetOnSwitch.
  destruct (_ && _); [|done].
  by rewrite lookup_insert_ne.
Qed.

(** The counter read before the increment is the stored one whenever the
    candidate differs from the confirmed gesture. *)
Lemma currentConfidence_new g st :
  g ≠ lastGesture st ->
  confidenceOf g (resetOnSwitch g (lastGesture st)
                    (ensureEntry g (gestureConfidence st)))
  = confidenceOf g (gestureConfidence st).
Proof.
  intros Hne. rewrite confidenceOf_resetOnSwitch by done.
  apply confidenceOf_ensureEntry.
Qed.

Lemma lookup_decayOthers g k m :
  decayOthers g m !! k = decayOne g k <$> m !! k.
Proof.
  unfold decayOthers. rewrite map_lookup_imap.
  by destruct (m !! k).
Qed.

Lemma decayOne_self g v : decayOne g g v = v.
Proof. unfold decayOne. by rewrite bool_decide_eq_false_2 by (intros ?; done). Qed.

(** The branch that answers [null]. *)
Lemma smoothGesture_pending st c t :
  c ≠ lastGesture st ->
  confidenceOf c (gestureConfidence st) < minConfidenceFrames st ->
  fst (smoothGesture c t st) = None.
Proof.
  intros Hne Hlt. unfold smoothGesture. rewrite currentConfidence_new by done.
  rewrite (proj2 (Z.leb_gt _ _)) by lia.
  by rewrite bool_decide_eq_true_2.
Qed.

Lemma smoothGesture_counters g t st :
  gestureConfidence (snd (smoothGesture g t st)) = countersAfter g st.
Proof.
  unfold smoothGesture, countersAfter.
  repeat (match goal with |- context [if ?b then _ else _] => destruct b end);
    reflexivity.
Qed.

Lemma smoothGesture_settings g t st :
  minConfidenceFrames (snd (smoothGesture g t st)) = minConfidenceFrames st
  ∧ gestureDebounceTime (snd (smoothGesture g t st)) = gestureDebounceTime st.
Proof.
  unfold smoothGesture.
  repeat (match goal with |- context [if ?b then _ else _] => destruct b end);
    split; reflexivity.
Qed.

Lemma confidenceOf_countersAfter g st :
  g ≠ lastGesture st ->
  confidenceOf g (countersAfter g st) = confidenceOf g (gestureConfidence st) + 1.
Proof.
  intros Hne. unfold countersAfter.
  rewrite currentConfidence_new by done.
  unfold confidenceOf at 1.
  rewrite lookup_decayOthers, lookup_insert_eq. simpl.
  by rewrite decayOne_self.
Qed.

(** While the answer is [null] the confirmed gesture and its timestamp
    stay as they are. *)
Lemma pending_keeps_last g t st :
  g ≠ lastGesture st ->
  confidenceOf g (gestureConfidence st) < minConfidenceFrames st ->
  lastGesture (snd (smoothGesture g t st)) = lastGesture st
  ∧ lastGestureTimestamp (snd (smoothGesture g t st)) = lastGestureTimestamp st.
Proof.
  intros Hne Hlt. unfold smoothGesture.
  rewrite currentConfidence_new by done.
  rewrite (proj2 (Z.leb_gt _ _)) by lia.
  by rewrite bool_decide_eq_true_2.
Qed.

(** A fresh candidate stays pending for as many consecutive ticks as its
    counter has room below [minConfidenceFrames]; with a counter at [0]
    that is [minConfidenceFrames] ticks, the last one included. *)
Lemma pending_run c ticks : ∀ st,
  c ≠ lastGesture st ->
  Forall (λ tk, fst tk = c) ticks ->
  confidenceOf c (gestureConfidence st) + Z.of_nat (length ticks)
    ≤ minConfidenceFrames st ->
  Forall (λ o, o = None) (fst (feed ticks st))
  ∧ lastGesture (snd (feed ticks st)) = lastGesture st
  ∧ lastGestureTimestamp (snd (feed ticks st)) = lastGestureTimestamp st
  ∧ minConfidenceFrames (snd (feed ticks st)) = minConfidenceFrames st
  ∧ gestureDebounceTime (snd (feed ticks st)) = gestureDebounceTime st
  ∧ confidenceOf c (gestureConfidence (snd (feed ticks st)))
    = confidenceOf c (gestureConfidence st) + Z.of_nat (length ticks).
Proof.
  induction ticks as [|[g t] ticks IH]; intros st Hne Hall Hroom.
  - simpl. repeat split; [constructor | lia].
  - apply Forall_cons in Hall as [Hg Hall]. simpl in Hg. subst g.
    simpl length in Hroom.
    assert (Hlt : confidenceOf c (gestureConfidence st) < minConfidenceFrames st) by lia.
    pose proof (smoothGesture_pending st c t Hne Hlt) as Hout.
    destruct (pending_keeps_last c t st Hne Hlt) as [Hlast Hts].
    destruct (smoothGesture_settings c t st) as [Hmin Hdeb].
    pose proof (smoothGesture_counters c t st) as Hcnt.
    pose proof (confidenceOf_countersAfter c st Hne) as Hinc.
    simpl. destruct (smoothGesture c t st) as [out st1] eqn:E1.
    simpl in Hout, Hlast, Hts, Hmin, Hdeb, Hcnt. subst out.
    rewrite <- Hcnt in Hinc.
    destruct (IH st1) as (Houts & Hl & Ht & Hm & Hd & Hc).
    { by rewrite Hlast. }
    { done. }
    { rewrite Hinc, Hmin. lia. }
    destruct (feed ticks st1) as [outs st2]. simpl in *.
    repeat split.
    + by constructor.
    + congruence.
    + congruence.
    + congruence.
    + congruence.
    + rewrite Hc, Hinc. lia.
Qed.




(** A switch inside one confusable group resets the counter of the
    gesture it leaves, on the first tick of the new gesture. *)
Lemma group_switch_hard_reset g t st :
  g ≠ lastGesture st ->
  isSimilarSwitch g (lastGesture st) = true ->
  gestureConfidence (snd (smoothGesture g t st)) !! lastGesture st = Some 0.
Proof.
  intros Hne Hsim. rewrite smoothGesture_counters. unfold countersAfter.
  rewrite lookup_decayOthers, lookup_insert_ne by done.
  unfold resetOnSwitch. rewrite Hsim, bool_decide_eq_true_2 by done. simpl.
  rewrite lookup_insert_eq. simpl. unfold decayOne.
  by rewrite andb_false_r.
Qed.

(** Once the counter read before the increment has reached
    [minConfidenceFrames], a switch inside one group is confirmed at any
    time, also inside the debounce window. *)
Lemma group_switch_skips_debounce g t st :
  g ≠ lastGesture st ->
  isSimilarSwitch g (lastGesture st) = true ->
  minConfidenceFrames st ≤ confidenceOf g (gestureConfidence st) ->
  fst (smoothGesture g t st) = Some g
  ∧ lastGesture (snd (smoothGesture g t st)) = g
  ∧ lastGestureTimestamp (snd (smoothGesture g t st)) = t.
Proof.
  intros Hne Hsim Hge. unfold smoothGesture.
  rewrite currentConfidence_new by done.
  rewrite (proj2 (Z.leb_le _ _)) by lia.
  rewrite bool_decide_eq_true_2 by done.
  rewrite Hsim. simpl. done.
Qed.

(** Outside a group the switch waits for the debounce time. *)
Lemma other_switch_debounced g t st :
  g ≠ lastGesture st ->
  isSimilarSwitch g (lastGesture st) = false ->
  minConfidenceFrames st ≤ confidenceOf g (gestureConfidence st) ->
  fst (smoothGesture g t st)
  = Some (if t - lastGestureTimestamp st <? gestureDebounceTime st
          then lastGesture st else g).
Proof.
  intros Hne Hsim Hge. unfold smoothGesture.
  rewrite currentConfidence_new by done.
  rewrite (proj2 (Z.leb_le _ _)) by lia.
  rewrite bool_decide_eq_true_2 by done.
  rewrite Hsim. simpl. by destruct (_ <? _).
Qed.

(** A fresh gesture fed on consecutive ticks to the initial detector is
    still pending on the second tick, at any times. *)
Lemma fresh_gesture_second_tick_pending g t1 t2 :
  g ≠ "none" ->
  ∃ st, feed [(g, t1); (g, t2)] constructor = ([None; None], st).
Proof.
  intros Hne.
  destruct (pending_run g [(g, t1); (g, t2)] constructor) as (Houts & _).
  { done. }
  { repeat constructor. }
  { vm_compute. discriminate. }
  destruct (feed _ constructor) as [outs st] eqn:E. exists st.
  simpl in Houts.
  assert (length outs = 2%nat) as Hlen.
  { simpl in E. repeat (destruct (smoothGesture _ _ _) in E). by inversion E. }
  destruct outs as [|o1 [|o2 [|]]]; try discriminate.
  apply Forall_cons in Houts as [-> Houts].
  apply Forall_cons in Houts as [-> _]. done.
Qed.

(** The counter, not the number of consecutive ticks, is what the test
    reads: a counter left over from earlier ticks (here ['K'], decayed from
    10 to 4 while ['A'] was being confirmed) lets a gesture be confirmed on
    its first tick back. *)
Example residual_counter_confirms_at_once :
  let ticks :=
    (map (λ i, ("K", 1700000000000 + 500 * Z.of_nat i)) (seq 0 10)
     ++ [("A", 1700000005000); ("A", 1700000005500); ("A", 1700000006000)])%list in
  let confirmedA := snd (feed ticks constructor) in
  lastGesture confirmedA = "A"
  ∧ gestureConfidence confirmedA !! "K" = Some 4
  ∧ fst (smoothGesture "K" 1700000006500 confirmedA) = Some "K".
Proof. vm_compute. repeat split; reflexivity. Qed.

Lemma none_in_no_group g : isSimilarSwitch g "none" = false.
Proof.
  unfold isSimilarSwitch.
  replace (has fistLikeGestures "none") with false by (vm_compute; reflexivity).
  replace (has fingerGestures "none") with false by (vm_compute; reflexivity).
  replace (has thumbOverlapGestures "none") with false by (vm_compute; reflexivity).
  by rewrite !andb_false_r.
Qed.

Lemma feed_snoc ticks g t : ∀ st,
  feed (ticks ++ [(g, t)]) st
  = ((fst (feed ticks st) ++ [fst (smoothGesture g t (snd (feed ticks st)))])%list,
     snd (smoothGesture g t (snd (feed ticks st)))).
Proof.
  induction ticks as [|[g' t'] ticks IH]; intros st; simpl.
  - by destruct (smoothGesture g t st).
  - destruct (smoothGesture g' t' st) as [o st1]. rewrite IH.
    by destruct (feed ticks st1).
Qed.

(** The third consecutive tick confirms it, the clock being past the
    debounce time counted from the initial timestamp [0]. *)
Lemma fresh_gesture_third_tick_confirmed g t1 t2 t3 :
  g ≠ "none" -> 100 <= t3 ->
  fst (feed [(g, t1); (g, t2); (g, t3)] constructor) = [None; None; Some g].
Proof.
  intros Hne Ht3.
  destruct (pending_run g [(g, t1); (g, t2)] constructor)
    as (_ & Hl & Hts & Hm & Hd & Hc).
  { done. }
  { repeat constructor. }
  { vm_compute. discriminate. }
  destruct (fresh_gesture_second_tick_pending g t1 t2 Hne) as [st Hfeed].
  change [(g, t1); (g, t2); (g, t3)] with ([(g, t1); (g, t2)] ++ [(g, t3)])%list.
  rewrite feed_snoc. rewrite Hfeed in *. simpl in Hl, Hts, Hm, Hd, Hc. simpl.
  rewrite (other_switch_debounced g t3 st).
  - rewrite Hts, Hd. by rewrite (proj2 (Z.ltb_ge _ _)) by lia.
  - by rewrite Hl.
  - rewrite Hl. apply none_in_no_group.
  - rewrite Hm, Hc. vm_compute. discriminate.
Qed.

(** C1. Three ticks of ['K'] spaced 200 ms apart, fed to the detector as
    the constructor leaves it ([minConfidenceFrames = 2],
    [gestureDebounceTime = 100]): the first two calls return [null] and
    ['K'] is returned by the third call. *)
Theorem K_K_K_confirmed_on_third_tick :
  fst (feed [("K", 1700000000000); ("K", 1700000000200); ("K", 1700000000400)]
            constructor)
  = [None; None; Some "K"].
Proof. vm_compute. reflexivity. Qed.

(** C3. With ['C'] confirmed, ['E'] fed on consecutive ticks 10 ms apart,
    all inside the debounce window: the first tick resets the counter of
    ['C'] to [0]; the second tick ([minConfidenceFrames] ticks of ['E'])
    still returns [null]; the third tick confirms ['E'] without waiting
    for the debounce time. *)
Theorem C_to_E_confirmed_on_third_tick :
  let confirmedC :=
    snd (feed [("C", 1700000000000); ("C", 1700000000200); ("C", 1700000000400)]
              constructor) in
  lastGesture confirmedC = "C"
  ∧ lastGestureTimestamp confirmedC = 1700000000400
  ∧ gestureConfidence (snd (smoothGesture "E" 1700000000410 confirmedC)) !! "C" = Some 0
  ∧ fst (feed [("E", 1700000000410); ("E", 1700000000420)] confirmedC) = [None; None]
  ∧ fst (feed [("E", 1700000000410); ("E", 1700000000420); ("E", 1700000000430)]
              confirmedC)
    = [None; None; Some "E"].
Proof. vm_compute. repeat split; reflexivity. Qed.

End SmootherFacts.

(** ** JavaScript string primitives *)

Section StringFacts.
Import JsString.
Local Open Scope nat_scope.

Implicit Types (s w : string) (a c x : ascii) (n k : nat).

Lemma len_app s w : len (s ++ w) = len s + len w.
Proof. induction s as [|a s IH]; simpl; [done | unfold len in *; simpl; lia]. Qed.

Lemma takeS_all n s : len s <= n -> takeS n s = s.
Proof.
  revert n. induction s as [|a s IH]; intros [|n] Hn; simpl in *; try done; try lia.
  f_equal. apply IH. unfold len in *. lia.
Qed.

Lemma len_dropS n s : len (dropS n s) = len s - n.
Proof.
  revert s. induction n as [|n IH]; intros [|a s]; simpl; done.
Qed.

Lemma dropS_app_len s w : dropS (len s) (s ++ w) = w.
Proof. induction s as [|a s IH]; simpl; done. Qed.

Lemma takeS_app_len s w : takeS (len s) (s ++ w) = s.
Proof. induction s as [|a s IH]; simpl; [done | by f_equal]. Qed.

(** [s.slice(-k)] keeps the last [k] characters. *)
Lemma slice_last (k : positive) s :
  slice (Z.neg k) None s = dropS (len s - Pos.to_nat k) s.
Proof.
  unfold slice, relIndex. simpl.
  replace (Z.to_nat (Z.max (Z.of_nat (len s) + Z.neg k) 0)) with (len s - Pos.to_nat k) by lia.
  apply takeS_all. rewrite len_dropS. lia.
Qed.

(** [s.slice(0, -1)] drops the last character. *)
Lemma slice_init s : slice 0 (Some (-1)%Z) s = takeS (len s - 1) s.
Proof.
  unfold slice, relIndex. simpl.
  replace (Z.to_nat (Z.max (Z.of_nat (len s) + -1) 0)) with (len s - 1) by lia.
  by rewrite Nat.sub_0_r.
Qed.

Lemma slice_last1_snoc s a : slice (-1) None (s ++ String a "") = String a "".
Proof.
  rewrite (slice_last 1), len_app. simpl.
  replace (len s + 1 - Pos.to_nat 1) with (len s) by lia.
  apply dropS_app_len.
Qed.

Lemma slice_init_snoc s a : slice 0 (Some (-1)%Z) (s ++ String a "") = s.
Proof.
  rewrite slice_init, len_app. simpl.
  replace (len s + 1 - 1) with (len s) by lia.
  apply takeS_app_len.
Qed.

Lemma slice_last2_cons a s :
  2 <= len s -> slice (-2) None (String a s) = slice (-2) None s.
Proof.
  intros Hlen. rewrite !(slice_last 2).
  change (len (String a s)) with (S (len s)).
  replace (S (len s) - Pos.to_nat 2) with (S (len s - Pos.to_nat 2)) by lia.
  reflexivity.
Qed.

(** Every non-empty string ends with some character. *)
Lemma snoc_view s : s ≠ "" -> ∃ w a, s = w ++ String a "".
Proof.
  induction s as [|c s IH]; [done|]. intros _.
  destruct s as [|c' s'].
  - by exists "", c.
  - destruct IH as (w & a & ->); [done|]. by exists (String c w), a.
Qed.

Lemma upper_of_lower c : isUpper c = true -> upperChar (lowerChar c) = c.
Proof.
  destruct c as [[] [] [] [] [] [] [] []]; vm_compute; intros; congruence.
Qed.

Lemma lower_is_lower c :
  isLower c || isUpper c = true -> isLower (lowerChar c) = true.
Proof.
  destruct c as [[] [] [] [] [] [] [] []]; vm_compute; intros; congruence.
Qed.

Lemma upper_not_space c : Ascii.eqb (upperChar c) " " = Ascii.eqb c " ".
Proof. destruct c as [[] [] [] [] [] [] [] []]; vm_compute; reflexivity. Qed.

Lemma lower_not_space c : isLower c = true -> Ascii.eqb c " " = false.
Proof. destruct c as [[] [] [] [] [] [] [] []]; vm_compute; intros; congruence. Qed.

(** [split] and [join] *)

Lemma split_nonempty sep s : split sep s ≠ [].
Proof.
  destruct s as [|c r]; simpl; [done|].
  destruct (Ascii.eqb c sep); [done|]. by destruct (split sep r).
Qed.

Lemma join_cons sep w ws :
  ws ≠ [] -> join sep (w :: ws) = w ++ sep ++ join sep ws.
Proof. by destruct ws. Qed.

Lemma join_split (sep : ascii) s : join (String sep "") (split sep s) = s.
Proof.
  induction s as [|c r IH]; [done|]. simpl.
  destruct (Ascii.eqb_spec c sep) as [->|Hne].
  - rewrite join_cons by apply split_nonempty. simpl. by rewrite IH.
  - pose proof (split_nonempty sep r) as Hnil.
    destruct (split sep r) as [|w ws]; [done|].
    destruct ws as [|w' ws'].
    + simpl in *. by rewrite IH.
    + change (join (String sep "") (String c w :: w' :: ws'))
        with (String c (w ++ String sep "" ++ join (String sep "") (w' :: ws'))).
      change (join (String sep "") (w :: w' :: ws'))
        with (w ++ String sep "" ++ join (String sep "") (w' :: ws')) in IH.
      by rewrite IH.
Qed.

End StringFacts.

(** ** Sentence assembler *)

Section AssemblerFacts.
Import JsString SentenceBuilder Assembler.
Context `{Engine}.

Implicit Types (st : State) (w s letter : string) (a c x : ascii) (now t : Z).

(** *** Runs of identical letters *)

Lemma tripleAt_app a r x :
  (2 <= len r)%nat -> tripleAt a (r ++ String x "") = tripleAt a r.
Proof.
  destruct r as [|b [|c' r']]; unfold len; simpl; intros; try lia. done.
Qed.

(** Appending [x] keeps a word free of triples exactly when the word does
    not already end with [x] twice: the test [addLetter] makes. *)
Lemma noTriple_snoc w x :
  noTriple (w ++ String x "")
  = noTriple w && negb (String.eqb (slice (-2) None w) (String x (String x ""))).
Proof.
  induction w as [|a r IH].
  - vm_compute. done.
  - change (noTriple (String a r ++ String x ""))
      with (negb (tripleAt a (r ++ String x "")) && noTriple (r ++ String x "")).
    rewrite IH. clear IH.
    destruct r as [|b [|c' r']].
    + change (slice (-2) None (String a "")) with (String a "").
      change (slice (-2) None "") with "".
      cbv -[Ascii.eqb]. by destruct (Ascii.eqb a x).
    + change (slice (-2) None (String a (String b ""))) with (String a (String b "")).
      change (slice (-2) None (String b "")) with (String b "").
      cbv -[Ascii.eqb].
      destruct (Ascii.eqb_spec a b) as [->|Hab]; destruct (Ascii.eqb_spec b x) as [->|Hbx];
        rewrite ?Ascii.eqb_refl; try done.
      all: destruct (Ascii.eqb_spec a x); congruence.
    + rewrite (slice_last2_cons a) by (unfold len; simpl; lia).
      rewrite (tripleAt_app a (String b (String c' r'))) by (unfold len; simpl; lia).
      change (noTriple (String a (String b (String c' r'))))
        with (negb (tripleAt a (String b (String c' r')))
              && noTriple (String b (String c' r'))).
      by rewrite andb_assoc.
Qed.

Lemma noTriple_init w x : noTriple (w ++ String x "") = true -> noTriple w = true.
Proof. rewrite noTriple_snoc. by intros [? _]%andb_prop. Qed.

Lemma noTriple_backspace w : noTriple w = true -> noTriple (slice 0 (Some (-1)) w) = true.
Proof.
  destruct (String.string_dec w "") as [->|Hne]; [done|].
  destruct (snoc_view w Hne) as (w' & a & ->).
  rewrite slice_init_snoc. apply noTriple_init.
Qed.

Lemma onlyLower_snoc w x : onlyLower (w ++ String x "") = onlyLower w && isLower x.
Proof.
  induction w as [|a r IH]; simpl.
  - by rewrite andb_true_r.
  - by rewrite IH, andb_assoc.
Qed.

Lemma onlyLower_backspace w :
  onlyLower w = true -> onlyLower (slice 0 (Some (-1)) w) = true.
Proof.
  destruct (String.string_dec w "") as [->|Hne]; [done|].
  destruct (snoc_view w Hne) as (w' & a & ->).
  rewrite slice_init_snoc, onlyLower_snoc. by intros [? _]%andb_prop.
Qed.

Lemma onlyLower_lacks_space w : onlyLower w = true -> lacks " " w = true.
Proof.
  induction w as [|a r IH]; [done|]. simpl.
  intros [Ha Hr]%andb_prop. by rewrite (lower_not_space a Ha), IH.
Qed.

(** *** What each operation does to the word in progress *)

Lemma addSpace_word st r st' :
  addSpace st = Some (r, st') -> currentWord st' = "" ∨ st' = st.
Proof.
  unfold addSpace. destruct (len (currentWord st) =? 0)%nat.
  - intros [= _ <-]. by right.
  - destruct (if (0 <? len (sentence st))%nat then _ else _); [|done].
    intros [= _ <-]. by left.
Qed.

Lemma single_letter_inv letter :
  isSingleLetter letter = true ->
  ∃ c, letter = String c "" ∧ isLower c || isUpper c = true.
Proof.
  destruct letter as [|c [|]]; simpl; try done. intros Hc. by exists c.
Qed.

Lemma addSpace_wordOk st r st' : wordOk st -> addSpace st = Some (r, st') -> wordOk st'.
Proof.
  intros Hok [Hw | ->]%addSpace_word; [|done].
  unfold wordOk. by rewrite Hw.
Qed.

Lemma backspace_wordOk st : wordOk st -> wordOk (snd (backspace st)).
Proof.
  intros [Ht Hl]. unfold backspace.
  destruct (0 <? len (currentWord st))%nat; simpl.
  - split; [by apply noTriple_backspace | by apply onlyLower_backspace].
  - by destruct (0 <? len (sentence st))%nat.
Qed.

Lemma addLetter_wordOk letter now st r st' :
  wordOk st -> addLetter letter now st = Some (r, st') -> wordOk st'.
Proof.
  intros Hok. unfold addLetter.
  destruct (_ && _); [by intros [= _ <-]|].
  destruct (_ && _); [by intros [= _ <-]|].
  destruct (String.eqb letter "SPACE"); [by apply addSpace_wordOk|].
  destruct (_ || _).
  { intros [= Hb]. replace st' with (snd (backspace st)) by (by rewrite Hb).
    by apply backspace_wordOk. }
  destruct (String.eqb letter "CLEAR"); [unfold clear; by intros [= _ <-]|].
  destruct (isSingleLetter letter) eqn:Hletter; [|by intros [= _ <-]].
  destruct (single_letter_inv letter Hletter) as (c & -> & Hc).
  change (toLowerCase (String c "")) with (String (lowerChar c) "").
  change (String (lowerChar c) "" ++ String (lowerChar c) "")
    with (String (lowerChar c) (String (lowerChar c) "")).
  destruct (String.eqb _ _) eqn:Htwo; intros [= _ <-]; [done|].
  destruct Hok as [Ht Hl]. split; simpl.
  - by rewrite noTriple_snoc, Ht, Htwo.
  - by rewrite onlyLower_snoc, Hl, lower_is_lower.
Qed.

Lemma apply_wordOk op st : wordOk st -> wordOk (apply op st).
Proof.
  intros Hok. destruct op; simpl.
  - destruct (addLetter letter now st) as [[r st']|] eqn:E; [|done].
    by eapply addLetter_wordOk.
  - destruct (addSpace st) as [[r st']|] eqn:E; [|done].
    by eapply addSpace_wordOk.
  - by apply backspace_wordOk.
  - done.
  - done.
  - done.
Qed.

(** The word in progress never holds three identical letters in a row,
    and holds lowercase letters only, after any sequence of calls. *)
Lemma run_wordOk ops : ∀ st, wordOk st -> wordOk (run ops st).
Proof.
  induction ops as [|op ops IH]; intros st Hok; [done|].
  simpl. apply IH. by apply apply_wordOk.
Qed.

Lemma reachable_wordOk ops : wordOk (run ops constructor).
Proof. by apply run_wordOk. Qed.

(** *** The guards of [addLetter] *)

Lemma single_char_not_keyword c :
  String.eqb (String c "") "SPACE" = false
  ∧ String.eqb (String c "") "BACKSPACE" || String.eqb (String c "") "DELETE" = false
  ∧ String.eqb (String c "") "CLEAR" = false.
Proof. cbv -[Ascii.eqb]. repeat split; repeat destruct (Ascii.eqb c _); done. Qed.

(** [addLetter] on a single letter, past the two guards. *)
Lemma addLetter_letter c now st :
  isLower c || isUpper c = true ->
  duplicateGuard (String c "") now st = false ->
  debounceGuard (String c "") now st = false ->
  addLetter (String c "") now st
  = if String.eqb (slice (-2) None (currentWord st))
                  (String (lowerChar c) (String (lowerChar c) ""))
    then Some (report st "triple_prevented", st)
    else
      let st' := {| currentWord := currentWord st ++ String (lowerChar c) "";
                    sentence := sentence st; lastLetter := String c "";
                    lastLetterTimestamp := now |} in
      Some (report st' "letter_added", st').
Proof.
  intros Hc Hdup Hdeb. unfold addLetter.
  fold (duplicateGuard (String c "") now st). rewrite Hdup.
  fold (debounceGuard (String c "") now st). rewrite Hdeb.
  destruct (single_char_not_keyword c) as (-> & -> & ->).
  change (isSingleLetter (String c "")) with (isLower c || isUpper c). rewrite Hc.
  reflexivity.
Qed.

(** C5 (amended). After any sequence of calls the word in progress holds
    no three identical consecutive letters, and no [addLetter] produces
    one.  A single letter whose append would create such a run is refused
    and nothing changes; the answer is [duplicate_blocked] or [debounced]
    when one of these two earlier guards applies and [triple_prevented]
    otherwise. *)
Theorem triple_letter_guard ops letter now :
  let st := run ops constructor in
  noTriple (currentWord st) = true
  ∧ (∀ r st', addLetter letter now st = Some (r, st') ->
              noTriple (currentWord st') = true)
  ∧ (isSingleLetter letter = true ->
     noTriple (currentWord st ++ toLowerCase letter) = false ->
     addLetter letter now st
     = Some (report st (if duplicateGuard letter now st then "duplicate_blocked"
                        else if debounceGuard letter now st then "debounced"
                        else "triple_prevented"), st)).
Proof.
  intros st. pose proof (reachable_wordOk ops) as Hok. fold st in Hok.
  split; [apply Hok|]. split.
  - intros r st' Hadd. by apply (addLetter_wordOk letter now st r st' Hok Hadd).
  - intros Hletter Htriple.
    destruct (single_letter_inv letter Hletter) as (c & -> & Hc).
    change (toLowerCase (String c "")) with (String (lowerChar c) "") in Htriple.
    rewrite noTriple_snoc, (proj1 Hok) in Htriple. simpl in Htriple.
    apply negb_false_iff in Htriple.
    destruct (duplicateGuard (String c "") now st) eqn:Hdup.
    { unfold addLetter. fold (duplicateGuard (String c "") now st). by rewrite Hdup. }
    destruct (debounceGuard (String c "") now st) eqn:Hdeb.
    { unfold addLetter. fold (duplicateGuard (String c "") now st). rewrite Hdup.
      fold (debounceGuard (String c "") now st). by rewrite Hdeb. }
    rewrite addLetter_letter by done. by rewrite Htriple.
Qed.

(** C6 (amended). After an uppercase letter (['A'] for one) has been
    added at [t1], the same letter at [t2] with [t1 < t2 < t1 + 1500] is
    answered [duplicate_blocked] and the builder is left as it was. *)
Theorem repeated_letter_blocked c st t1 t2 r1 st1 :
  isUpper c = true ->
  addLetter (String c "") t1 st = Some (r1, st1) ->
  action r1 = "letter_added" ->
  t1 < t2 -> t2 - t1 < letterHoldTime ->
  addLetter (String c "") t2 st1 = Some (report st1 "duplicate_blocked", st1).
Proof.
  intros Hc Hadd Hact Hlt Hhold.
  assert (Hst1 : currentWord st1 = currentWord st ++ String (lowerChar c) ""
                 ∧ lastLetterTimestamp st1 = t1).
  { revert Hadd. unfold addLetter.
    destruct (_ && _); [intros [= <- _]; done|].
    destruct (_ && _); [intros [= <- _]; done|].
    destruct (single_char_not_keyword c) as (-> & -> & ->).
    change (isSingleLetter (String c "")) with (isLower c || isUpper c).
    rewrite Hc, orb_true_r.
    destruct (String.eqb _ _); intros [= <- <-]; done. }
  destruct Hst1 as [Hword Hts].
  unfold addLetter. rewrite Hword, slice_last1_snoc, Hts.
  change (toUpperCase (String (lowerChar c) ""))
    with (String (upperChar (lowerChar c)) "").
  rewrite upper_of_lower, String.eqb_refl by done.
  unfold letterHoldTime in Hhold.
  by rewrite (proj2 (Z.ltb_lt _ _)) by lia.
Qed.

(** *** Completing a word and taking it back *)

Lemma split_lacks sep w : lacks sep w = true -> split sep w = [w].
Proof.
  induction w as [|a r IH]; [done|]. simpl.
  intros [Ha Hr]%andb_prop. apply negb_true_iff in Ha. rewrite Ha.
  by rewrite IH.
Qed.

Lemma split_snoc_word sep s w :
  lacks sep w = true ->
  split sep (s ++ String sep w) = (split sep s ++ [w])%list.
Proof.
  intros Hw. induction s as [|a r IH].
  - simpl. by rewrite Ascii.eqb_refl, split_lacks.
  - change (split sep (String a r ++ String sep w))
      with (if Ascii.eqb a sep then "" :: split sep (r ++ String sep w)
            else match split sep (r ++ String sep w) with
                 | w0 :: ws => String a w0 :: ws
                 | [] => [String a ""]
                 end).
    rewrite IH. simpl. destruct (Ascii.eqb a sep); [done|].
    pose proof (split_nonempty sep r). by destruct (split sep r).
Qed.

Lemma len_zero s : (len s =? 0)%nat = true -> s = "".
Proof. by destruct s. Qed.

Lemma len_pos s : s ≠ "" -> (len s =? 0)%nat = false ∧ (0 <? len s)%nat = true.
Proof. by destruct s. Qed.

(** C7 (amended). For a non-empty word without a space that autocorrect
    leaves unchanged, [addSpace] completes the word with no correction
    reported, and the [backspace] that follows answers [word_deleted]:
    it leaves the word in progress empty and restores the sentence to
    what it was before [addSpace]. *)
Theorem space_then_backspace st :
  currentWord st ≠ "" ->
  autoCorrect (currentWord st) = VString (currentWord st) ->
  lacks " " (currentWord st) = true ->
  ∃ r1 st1,
    addSpace st = Some (r1, st1)
    ∧ action r1 = "word_completed" ∧ correctedWord r1 = None
    ∧ action (fst (backspace st1)) = "word_deleted"
    ∧ currentWord (snd (backspace st1)) = ""
    ∧ sentence (snd (backspace st1)) = sentence st.
Proof.
  intros Hne Hauto Hlacks. unfold addSpace.
  rewrite (proj1 (len_pos _ Hne)), Hauto.
  simpl JsValue_eqb. rewrite String.eqb_refl.
  destruct (0 <? len (sentence st))%nat eqn:Hs.
  - eexists _, _. split; [reflexivity|]. simpl.
    unfold backspace. simpl.
    assert (Hpos : (0 <? len (sentence st ++ String " " (currentWord st)))%nat = true).
    { rewrite len_app. apply Nat.ltb_lt. apply Nat.ltb_lt in Hs. lia. }
    change (sentence st ++ " " ++ currentWord st)
      with (sentence st ++ String " " (currentWord st)).
    rewrite Hpos. simpl.
    rewrite split_snoc_word, removelast_last by done.
    repeat split. apply (join_split " ").
  - assert (Hempty : sentence st = "") by (by destruct (sentence st)).
    destruct (currentWord st) as [|a r] eqn:Hw; [done|].
    assert (Hcap : toUpperCase (charAt 0 (String a r)) ++ slice 1 None (String a r)
                   = String (upperChar a) r).
    { change (toUpperCase (charAt 0 (String a r))) with (String (upperChar a) "").
      f_equal.
      unfold slice, relIndex. simpl Z.ltb. cbv iota.
      change (len (String a r)) with (S (len r)).
      replace (Nat.min (Z.to_nat 1) (S (len r))) with 1%nat by lia.
      simpl. replace (len r - 0)%nat with (len r) by lia.
      by apply takeS_all. }
    rewrite Hcap.
    eexists _, _. split; [reflexivity|]. simpl.
    unfold backspace. simpl.
    simpl in Hlacks. apply andb_prop in Hlacks as [Ha Hr].
    apply negb_true_iff in Ha.
    rewrite split_lacks by done. rewrite upper_not_space, Ha. simpl.
    by rewrite Hempty.
Qed.

(** *** Replacing the sentence *)

(** C10. [setSentence(text)] stores [text] as it is and empties the word
    in progress; the last accepted letter and its time stay. *)
Theorem setSentence_overrides text st :
  sentence (setSentence text st) = text
  ∧ currentWord (setSentence text st) = ""
  ∧ lastLetter (setSentence text st) = lastLetter st
  ∧ lastLetterTimestamp (setSentence text st) = lastLetterTimestamp st.
Proof. repeat split. Qed.

End AssemblerFacts.

(** ** Sentence assembler: the claims as stated, and instances on V8 *)

Section AssemblerInstances.
Import JsString SentenceBuilder Assembler.

(** C5 (as stated) fails on a reachable state: with ["ll"] in progress a
    third ['L'] half a second later is answered by the duplicate guard. *)
Lemma triple_claim_fails : ¬ triple_claim.
Proof.
  intros H.
  pose proof (H [AddLetter "L" 1700000000000; AddLetter "L" 1700000002500] "L" 1700000003000 _ _
                eq_refl eq_refl eq_refl) as [Hact _].
  vm_compute in Hact. discriminate.
Qed.

Lemma triple_letter_guard_witness :
  currentWord (run [AddLetter "L" 1700000000000; AddLetter "L" 1700000002500]
                   constructor) = "ll"
  ∧ addLetter "L" 1700000006000
              (run [AddLetter "L" 1700000000000; AddLetter "L" 1700000002500] constructor)
    = Some (report (run [AddLetter "L" 1700000000000; AddLetter "L" 1700000002500]
                        constructor) "triple_prevented",
            run [AddLetter "L" 1700000000000; AddLetter "L" 1700000002500] constructor).
Proof.
  split; [reflexivity|].
  destruct (triple_letter_guard [AddLetter "L" 1700000000000; AddLetter "L" 1700000002500] "L" 1700000006000)
    as (_ & _ & H).
  apply H; reflexivity.
Defined.

(** C6 (as stated) fails: the second ['A'] is answered by the duplicate
    guard, which runs before the debounce test. *)
Lemma debounce_claim_fails : ¬ debounce_claim.
Proof.
  intros H.
  assert (Hlt : 1700000000500 - 1700000000000 < letterHoldTime)
    by (unfold letterHoldTime; lia).
  pose proof (H constructor 1700000000000 1700000000500 _ _ _ _ eq_refl eq_refl
                ltac:(lia) Hlt eq_refl) as [Hact _].
  vm_compute in Hact. discriminate.
Qed.

Lemma repeated_letter_blocked_witness :
  ∃ st1, fst <$> addLetter "A" 1700000000000 constructor
         = Some (report st1 "letter_added")
         ∧ addLetter "A" 1700000000500 st1 = Some (report st1 "duplicate_blocked", st1).
Proof.
  eexists. split; [reflexivity|].
  apply (repeated_letter_blocked "A" constructor 1700000000000 1700000000500 _ _
           eq_refl eq_refl eq_refl).
  - lia.
  - unfold letterHoldTime. lia.
Defined.

(** C7 (as stated) fails: after [addSpace] the word in progress is empty
    and [backspace] removes the completed word from the sentence; the
    word does not come back. *)
Lemma round_trip_claim_fails : ¬ round_trip_claim.
Proof.
  intros H.
  pose proof (H {| currentWord := "hi"; sentence := ""; lastLetter := "I";
                   lastLetterTimestamp := 1700000000000 |} _ _
                ltac:(discriminate) ltac:(vm_compute; reflexivity) eq_refl) as Hback.
  vm_compute in Hback. discriminate.
Qed.

Lemma space_then_backspace_witness :
  ∃ r1 st1,
    addSpace {| currentWord := "hi"; sentence := "Well"; lastLetter := "I";
                lastLetterTimestamp := 1700000000000 |} = Some (r1, st1)
    ∧ action r1 = "word_completed" ∧ correctedWord r1 = None
    ∧ action (fst (backspace st1)) = "word_deleted"
    ∧ currentWord (snd (backspace st1)) = ""
    ∧ sentence (snd (backspace st1)) = "Well".
Proof.
  apply (space_then_backspace
           {| currentWord := "hi"; sentence := "Well"; lastLetter := "I";
              lastLetterTimestamp := 1700000000000 |}).
  - discriminate.
  - vm_compute. reflexivity.
  - reflexivity.
Defined.

(** *** The scenarios of the specification *)

Example teh_is_corrected :
  addSpace {| currentWord := "teh"; sentence := ""; lastLetter := "H";
              lastLetterTimestamp := 1700000000000 |}
  = Some ({| r_currentWord := ""; r_sentence := "The"; action := "word_completed";
             correctedWord := Some (VString "the") |},
          {| currentWord := ""; sentence := "The"; lastLetter := "";
             lastLetterTimestamp := 1700000000000 |}).
Proof. vm_compute. reflexivity. Qed.

Example space_on_empty_word_ignored :
  addSpace constructor = Some (report constructor "space_ignored", constructor).
Proof. reflexivity. Qed.

Example backspace_letters_then_word :
  let st := {| currentWord := "hel"; sentence := "Hi there"; lastLetter := "L";
               lastLetterTimestamp := 1700000000000 |} in
  let st3 := run [Backspace; Backspace; Backspace] st in
  currentWord st3 = "" ∧ sentence st3 = "Hi there"
  ∧ action (fst (backspace st3)) = "word_deleted"
  ∧ sentence (snd (backspace st3)) = "Hi".
Proof. vm_compute. repeat split; reflexivity. Qed.

End AssemblerInstances.

(** ** The distance computed by [levenshteinDistance] *)

Section EditDistanceFacts.
Import JsString SentenceBuilder EditDistance.
Local Open Scope nat_scope.

Implicit Types (a b s ra rb suffix : string) (x y c : ascii) (n : nat).

Lemma lev_nil_l b : lev "" b = len b.
Proof. by destruct b. Qed.

Lemma lev_nil_r a : lev a "" = len a.
Proof. by destruct a. Qed.

Lemma lev_cons x a y b :
  lev (String x a) (String y b)
  = if Ascii.eqb x y then lev a b
    else S (Nat.min (lev a b) (Nat.min (lev a (String y b)) (lev (String x a) b))).
Proof. reflexivity. Qed.

(** *** The rows of the matrix *)

Lemma fillRow_rowFrom bc suffix : ∀ ra rb,
  fillRow bc suffix (lev ra rb) (lev ra (String bc rb)) (rowFrom rb ra suffix)
  = rowFrom (String bc rb) ra suffix.
Proof.
  induction suffix as [|c s IH]; intros ra rb; [done|].
  change (rowFrom rb ra (String c s))
    with (lev (String c ra) rb :: rowFrom rb (String c ra) s).
  change (rowFrom (String bc rb) ra (String c s))
    with (lev (String c ra) (String bc rb) :: rowFrom (String bc rb) (String c ra) s).
  cbn [fillRow].
  assert (Hcell : (if Ascii.eqb bc c then lev ra rb
                   else Nat.min (lev ra rb + 1)
                          (Nat.min (lev ra (String bc rb) + 1) (lev (String c ra) rb + 1)))
                  = lev (String c ra) (String bc rb)).
  { rewrite lev_cons, (Ascii.eqb_sym bc c). destruct (Ascii.eqb c bc); lia. }
  rewrite Hcell. f_equal. apply IH.
Qed.

Lemma nextRow_fullRow bc a rb :
  nextRow bc a (S (len rb)) (fullRow rb a) = fullRow (String bc rb) a.
Proof.
  unfold nextRow, fullRow. rewrite !lev_nil_l.
  change (len (String bc rb)) with (S (len rb)). f_equal.
  rewrite <- (fillRow_rowFrom bc a "" rb). by rewrite !lev_nil_l.
Qed.

Lemma fillMatrix_fullRow b a : ∀ rb,
  fillMatrix b a (len rb) (fullRow rb a) = fullRow (revAppend b rb) a.
Proof.
  induction b as [|bc b IH]; intros rb; [done|].
  cbn [fillMatrix revAppend]. rewrite nextRow_fullRow. apply (IH (String bc rb)).
Qed.

Lemma rowFrom_first_row suffix : ∀ ra,
  rowFrom "" ra suffix = seq (S (len ra)) (len suffix).
Proof.
  induction suffix as [|c s IH]; intros ra; [done|].
  cbn [rowFrom]. rewrite lev_nil_r, IH. reflexivity.
Qed.

Lemma last_rowFrom rb suffix : ∀ ra,
  List.last (lev ra rb :: rowFrom rb ra suffix) 0 = lev (revAppend suffix ra) rb.
Proof.
  induction suffix as [|c s IH]; intros ra; [done|].
  cbn [rowFrom revAppend]. rewrite <- IH. reflexivity.
Qed.

Lemma len_revAppend s : ∀ acc, len (revAppend s acc) = len s + len acc.
Proof.
  induction s as [|c s IH]; intros acc; [done|].
  cbn [revAppend]. rewrite IH. unfold len. simpl. lia.
Qed.

(** The loops compute the recurrence on the two strings read backwards. *)
Lemma levenshteinDistance_lev a b :
  levenshteinDistance a b = lev (revS a) (revS b).
Proof.
  unfold levenshteinDistance, revS.
  destruct (len a =? 0) eqn:Ha.
  { apply len_zero in Ha. subst a. rewrite lev_nil_l, len_revAppend.
    unfold len. simpl. lia. }
  destruct (len b =? 0) eqn:Hb.
  { apply len_zero in Hb. subst b. rewrite lev_nil_r, len_revAppend.
    unfold len. simpl. lia. }
  replace (seq 0 (S (len a))) with (fullRow "" a)
    by (unfold fullRow; by rewrite rowFrom_first_row).
  pose proof (fillMatrix_fullRow b a "") as Hrows. change (len "") with 0 in Hrows.
  rewrite Hrows. unfold fullRow. apply last_rowFrom.
Qed.

(** *** The recurrence and edit scripts *)

(** One character more or less on either side moves the value by at most
    one. *)
Lemma lev_one_character k : ∀ a b,
  len a + len b <= k ->
  (∀ x, lev (String x a) b <= S (lev a b))
  ∧ (∀ y, lev a (String y b) <= S (lev a b))
  ∧ (∀ x, lev a b <= S (lev (String x a) b))
  ∧ (∀ y, lev a b <= S (lev a (String y b))).
Proof.
  induction k as [|k IH]; intros a b Hsize.
  { destruct a, b; unfold len in Hsize; simpl in Hsize; try lia.
    repeat split; intros; vm_compute; lia. }
  repeat split.
  - intros x. destruct b as [|y b'].
    { rewrite !lev_nil_r. unfold len. simpl. lia. }
    destruct (IH a b') as (_ & _ & _ & H4).
    { unfold len in *. simpl in *. lia. }
    rewrite lev_cons. destruct (Ascii.eqb x y).
    + apply H4.
    + lia.
  - intros y. destruct a as [|x a'].
    { rewrite !lev_nil_l. unfold len. simpl. lia. }
    destruct (IH a' b) as (_ & _ & H3 & _).
    { unfold len in *. simpl in *. lia. }
    rewrite lev_cons. destruct (Ascii.eqb x y).
    + apply H3.
    + lia.
  - intros x. destruct b as [|y b'].
    { rewrite !lev_nil_r. unfold len. simpl. lia. }
    destruct (IH a b') as (_ & H2 & H3 & _).
    { unfold len in *. simpl in *. lia. }
    rewrite (lev_cons x a y b'). specialize (H2 y). specialize (H3 x).
    destruct (Ascii.eqb x y); lia.
  - intros y. destruct a as [|x a'].
    { rewrite !lev_nil_l. unfold len. simpl. lia. }
    destruct (IH a' b) as (H1 & _ & _ & H4).
    { unfold len in *. simpl in *. lia. }
    rewrite (lev_cons x a' y b). specialize (H1 x). specialize (H4 y).
    destruct (Ascii.eqb x y); lia.
Qed.

Lemma edits_insert_all b : edits "" b (len b).
Proof. induction b as [|y b IH]; [constructor | by apply edits_insert]. Qed.

Lemma edits_delete_all a : edits a "" (len a).
Proof. induction a as [|x a IH]; [constructor | by apply edits_delete]. Qed.

(** The recurrence counts the edits of a script... *)
Lemma lev_reached a : ∀ b, edits a b (lev a b).
Proof.
  induction a as [|x a IHa]; intros b.
  { rewrite lev_nil_l. apply edits_insert_all. }
  induction b as [|y b IHb].
  { rewrite lev_nil_r. apply edits_delete_all. }
  rewrite lev_cons. destruct (Ascii.eqb_spec x y) as [->|Hxy].
  - apply edits_keep, IHa.
  - destruct (Nat.min_spec (lev a b) (Nat.min (lev a (String y b)) (lev (String x a) b)))
      as [[_ ->]|[_ ->]].
    + apply edits_substitute, IHa.
    + destruct (Nat.min_spec (lev a (String y b)) (lev (String x a) b))
        as [[_ ->]|[_ ->]].
      * apply edits_delete, IHa.
      * apply edits_insert, IHb.
Qed.

(** ... and no script does with fewer. *)
Lemma lev_least a b n : edits a b n -> lev a b <= n.
Proof.
  induction 1 as [|c a b n _ IH|x y a b n _ IH|x a b n _ IH|y a b n _ IH].
  - done.
  - by rewrite lev_cons, Ascii.eqb_refl.
  - rewrite lev_cons. destruct (Ascii.eqb x y); lia.
  - destruct (lev_one_character _ a b (Nat.le_refl _)) as (H1 & _).
    specialize (H1 x). lia.
  - destruct (lev_one_character _ a b (Nat.le_refl _)) as (_ & H2 & _).
    specialize (H2 y). lia.
Qed.

(** *** Scripts read backwards *)

Lemma append_cons x a s : String x a ++ s = String x (a ++ s).
Proof. reflexivity. Qed.

Lemma append_nil_r s : s ++ "" = s.
Proof. induction s as [|c s IH]; [done|]. by rewrite append_cons, IH. Qed.

Lemma append_assoc s1 s2 s3 : (s1 ++ s2) ++ s3 = s1 ++ (s2 ++ s3).
Proof. induction s1 as [|c s1 IH]; [done|]. by rewrite !append_cons, IH. Qed.

Lemma revAppend_app s : ∀ acc, revAppend s acc = revS s ++ acc.
Proof.
  unfold revS. induction s as [|c s IH]; intros acc; [done|].
  cbn [revAppend]. rewrite (IH (String c acc)), (IH (String c "")).
  by rewrite append_assoc.
Qed.

Lemma revS_cons c s : revS (String c s) = revS s ++ String c "".
Proof. unfold revS at 1. cbn [revAppend]. apply revAppend_app. Qed.

Lemma revS_snoc s c : revS (s ++ String c "") = String c (revS s).
Proof.
  induction s as [|x s IH]; [done|].
  by rewrite append_cons, !revS_cons, IH.
Qed.

Lemma revS_involutive s : revS (revS s) = s.
Proof.
  induction s as [|c s IH]; [done|]. by rewrite revS_cons, revS_snoc, IH.
Qed.

Lemma edits_keep_last c a b n :
  edits a b n -> edits (a ++ String c "") (b ++ String c "") n.
Proof.
  induction 1; rewrite ?append_cons; try by constructor.
  apply edits_keep. constructor.
Qed.

Lemma edits_substitute_last x y a b n :
  edits a b n -> edits (a ++ String x "") (b ++ String y "") (S n).
Proof.
  induction 1; rewrite ?append_cons; try by constructor.
  apply edits_substitute. constructor.
Qed.

Lemma edits_delete_last x a b n : edits a b n -> edits (a ++ String x "") b (S n).
Proof.
  induction 1; rewrite ?append_cons; try by constructor.
  apply edits_delete. constructor.
Qed.

Lemma edits_insert_last y a b n : edits a b n -> edits a (b ++ String y "") (S n).
Proof.
  induction 1; rewrite ?append_cons; try by constructor.
  apply edits_insert. constructor.
Qed.

Lemma edits_rev a b n : edits a b n -> edits (revS a) (revS b) n.
Proof.
  induction 1; rewrite ?revS_cons.
  - constructor.
  - by apply edits_keep_last.
  - by apply edits_substitute_last.
  - by apply edits_delete_last.
  - by apply edits_insert_last.
Qed.

(** [levenshteinDistance(a, b)] is the Levenshtein distance of [a] and [b]:
    some script of that many insertions, deletions and substitutions turns
    [a] into [b], and none does with fewer. *)
Lemma levenshteinDistance_least_edits a b :
  edits a b (levenshteinDistance a b)
  ∧ ∀ n, edits a b n -> levenshteinDistance a b <= n.
Proof.
  rewrite levenshteinDistance_lev. split.
  - rewrite <- (revS_involutive a) at 1. rewrite <- (revS_involutive b) at 1.
    apply edits_rev, lev_reached.
  - intros n Hn. by apply lev_least, edits_rev.
Qed.

End EditDistanceFacts.

(** ** Autocorrect engine *)

Section AutocorrectFacts.
Import JsString SentenceBuilder Fuzzy EditDistance.
Context `{Engine}.
Local Open Scope nat_scope.

Implicit Types (word key value : string) (best : option (string * nat)).

(** One candidate more keeps the description of the selection. *)
Lemma consider_selects word maxDistance seen best cand :
  selects word maxDistance seen best ->
  selects word maxDistance (seen ++ [cand]) (consider word maxDistance best cand).
Proof.
  destruct cand as [key value]. unfold consider.
  set (d := levenshteinDistance word key).
  assert (Hskip : ∀ v m before k after,
    m <= maxDistance -> m <= d ->
    levenshteinDistance word k = m ->
    (∀ kv, In kv before -> m < levenshteinDistance word (fst kv)) ->
    (∀ kv, In kv after -> m <= levenshteinDistance word (fst kv)) ->
    selects word maxDistance ((before ++ (k, v) :: after) ++ [(key, value)])
            (Some (v, m))).
  { intros v m before k after Hm Hmd Hk Hbefore Hafter. split; [done|].
    exists before, k, (after ++ [(key, value)])%list.
    rewrite <- app_assoc. split; [done|]. split; [done|]. split; [done|].
    intros kv [Hin|[<-|[]]]%in_app_or; [by apply Hafter | simpl; fold d; lia]. }
  assert (Htake : ∀ all_,
    d <= maxDistance ->
    (∀ kv, In kv all_ -> d < levenshteinDistance word (fst kv)) ->
    selects word maxDistance (all_ ++ [(key, value)]) (Some (value, d))).
  { intros all_ Hd Hall. split; [done|].
    exists all_, key, []. split; [done|]. split; [done|]. split; [done|].
    by intros kv []. }
  destruct best as [[v m]|]; simpl.
  - intros (Hm & before & k & after & -> & Hk & Hbefore & Hafter).
    destruct (d <=? maxDistance) eqn:Hd; destruct (d <? m) eqn:Hlt; simpl.
    + apply Nat.leb_le in Hd. apply Nat.ltb_lt in Hlt. apply Htake; [done|].
      intros kv [Hin|[<-|Hin]]%in_app_or.
      * specialize (Hbefore kv Hin). lia.
      * simpl. lia.
      * specialize (Hafter kv Hin). lia.
    + apply Nat.ltb_ge in Hlt. by apply Hskip.
    + apply Nat.leb_gt in Hd. apply Hskip; try done. lia.
    + apply Nat.leb_gt in Hd. apply Hskip; try done. lia.
  - intros Hall. rewrite andb_true_r.
    destruct (d <=? maxDistance) eqn:Hd.
    + apply Nat.leb_le in Hd. apply Htake; [done|].
      intros kv Hin. specialize (Hall kv Hin). lia.
    + apply Nat.leb_gt in Hd.
      intros kv [Hin|[<-|[]]]%in_app_or; [by apply Hall | simpl; fold d; lia].
Qed.

Lemma fold_consider_selects word maxDistance rest : ∀ seen best,
  selects word maxDistance seen best ->
  selects word maxDistance (seen ++ rest)
          (fold_left (consider word maxDistance) rest best).
Proof.
  induction rest as [|cand rest IH]; intros seen best Hsel.
  - by rewrite app_nil_r.
  - simpl. replace (seen ++ cand :: rest)%list with ((seen ++ [cand]) ++ rest)%list
      by (by rewrite <- app_assoc).
    apply IH. by apply consider_selects.
Qed.



End AutocorrectFacts.

(** ** Autocorrect engine: instances *)

Section AutocorrectInstances.
Import JsString SentenceBuilder Fuzzy EditDistance.
Local Open Scope nat_scope.


End AutocorrectInstances.

(** ** Shape classifier and detection tick *)

Create HintDb shapes.

Section ClassifierFacts.
Import Classifier Detection.
Context {num : Type} `{JsNumber num}.
Variable mlIsLoaded : bool.
Variable mlPredict : list (Keypoint (num := num)) -> option (string * num).

Implicit Types (pts : list (Point (num := num))) (d : Detector).

(** *** Landmark reads *)

Lemma at_Some pts i : (i < length pts)%nat -> ∃ p, at_ pts i = Some p.
Proof. intros Hi. by apply lookup_lt_is_Some_2. Qed.

Lemma at_None pts i : (length pts <= i)%nat -> at_ pts i = None.
Proof. intros Hi. by apply lookup_ge_None_2. Qed.

Lemma at_hasDepth pts i p : Forall hasDepth pts -> at_ pts i = Some p -> hasDepth p.
Proof. intros Hall Hp. by eapply Forall_lookup_1. Qed.

(** Reads every landmark the goal mentions, given that the index exists. *)
Ltac read_points :=
  repeat match goal with
  | |- context [at_ ?k ?i] =>
      let p := fresh "p" in
      let E := fresh "E" in
      destruct (at_Some k i ltac:(simpl; lia)) as [p E]; rewrite E; simpl
  end.

Ltac unfold_shape :=
  unfold isThumbAcrossPalm, isThumbToSide, isDShape, isThumbTouchingFingers,
    isCShape, isFShape, isOShape, isGShape, areFingersTogether, isHShape, isKShape,
    isLShape, isPShape, isQShape, isRShape, isTShape, isXShape, isMShape; simpl.

Ltac total := intros; unfold_shape; read_points; eauto.

Section Complete.
Variable pts : list (Point (num := num)).
Hypothesis Hlen : (21 <= length pts)%nat.
Hypothesis Hdepth : Forall hasDepth pts.

Lemma isThumbAcrossPalm_total : ∃ b, isThumbAcrossPalm pts = Some b.
Proof. total. Qed.
Lemma isThumbToSide_total : ∃ b, isThumbToSide pts = Some b.
Proof. total. Qed.
Lemma isThumbTouchingFingers_total : ∃ b, isThumbTouchingFingers pts = Some b.
Proof. total. Qed.
Lemma isDShape_total : ∃ b, isDShape pts = Some b.
Proof. total. Qed.
Lemma isCShape_total : ∃ b, isCShape pts = Some b.
Proof. total. Qed.
Lemma isFShape_total : ∃ b, isFShape pts = Some b.
Proof. total. Qed.
Lemma isOShape_total : ∃ b, isOShape pts = Some b.
Proof. total. Qed.
Lemma isGShape_total i t : ∃ b, isGShape pts i t = Some b.
Proof. total. destruct (_ || _); read_points; eauto. Qed.
Lemma areFingersTogether_total : ∃ b, areFingersTogether pts 8 12 = Some b.
Proof. total. Qed.
Lemma isHShape_total : ∃ b, isHShape pts = Some b.
Proof. unfold isHShape. apply areFingersTogether_total. Qed.
Lemma isKShape_total : ∃ b, isKShape pts = Some b.
Proof. total. Qed.
Lemma isLShape_total : ∃ b, isLShape pts = Some b.
Proof. total. Qed.
Lemma isPShape_total : ∃ b, isPShape pts = Some b.
Proof. total. Qed.
Lemma isQShape_total : ∃ b, isQShape pts = Some b.
Proof. total. Qed.
Lemma isRShape_total i m : ∃ b, isRShape pts i m = Some b.
Proof. total. destruct (_ || _); read_points; eauto. Qed.
Lemma isTShape_total : ∃ b, isTShape pts = Some b.
Proof. total. Qed.
Lemma isXShape_total i : ∃ b, isXShape pts i = Some b.
Proof. total. destruct (negb i); read_points; eauto. Qed.
Lemma isMShape_total : ∃ b, isMShape pts = Some b.
Proof. total. Qed.

Lemma isThumbInFront_total : ∃ b, isThumbInFront pts = Some b.
Proof.
  unfold isThumbInFront. read_points.
  destruct (truthyOpt _); simpl; eauto.
Qed.

Lemma isEShape_total : ∃ b, isEShape pts = Some b.
Proof.
  unfold isEShape. read_points.
  destruct isThumbAcrossPalm_total as [b ->]. simpl. eauto.
Qed.

(** The depth is what [isNShape] needs beyond the landmarks themselves:
    its logging calls [toFixed] on three depths. *)
Lemma isNShape_total : ∃ b, isNShape pts = Some b.
Proof.
  unfold isNShape.
  destruct (at_Some pts 4 ltac:(lia)) as [p4 E4].
  destruct (at_Some pts 8 ltac:(lia)) as [p8 E8].
  destruct (at_Some pts 12 ltac:(lia)) as [p12 E12].
  rewrite E4, E8, E12. simpl.
  destruct (at_hasDepth _ _ _ Hdepth E4) as [z4 ->].
  destruct (at_hasDepth _ _ _ Hdepth E8) as [z8 ->].
  destruct (at_hasDepth _ _ _ Hdepth E12) as [z12 ->].
  simpl. eauto.
Qed.

Lemma orElse_total (P : string -> Prop) test letter rest :
  (∃ b, test = Some b) -> P letter -> (∃ g, rest = Some g ∧ P g) ->
  ∃ g, orElse test letter rest = Some g ∧ P g.
Proof. intros [[] ->] Hletter Hrest; simpl; eauto. Qed.

Lemma guarded_total guard shape :
  (∃ b, shape = Some b) -> ∃ b, guarded guard shape = Some b.
Proof. intros Hshape. destruct guard; simpl; eauto. Qed.

Lemma constant_total (b : bool) : ∃ b', Some b = Some b'.
Proof. eauto. Qed.

Lemma not_together_total : ∃ b, negb <$> areFingersTogether pts 8 12 = Some b.
Proof. destruct areFingersTogether_total as [b ->]. simpl. eauto. Qed.

Local Hint Resolve isThumbAcrossPalm_total isThumbToSide_total isDShape_total
  isCShape_total isFShape_total isOShape_total isGShape_total
  areFingersTogether_total isHShape_total isKShape_total isLShape_total
  isPShape_total isQShape_total isRShape_total isTShape_total isXShape_total
  isMShape_total isThumbInFront_total isEShape_total isNShape_total
  guarded_total constant_total not_together_total : shapes.

Ltac named := unfold shapeNames; simpl; tauto.

Lemma lettersAfterFist_total across t i m r p :
  ∃ g, lettersAfterFist pts across t i m r p = Some g ∧ In g shapeNames.
Proof.
  unfold lettersAfterFist.
  do 7 (apply orElse_total; [auto with shapes | named |]).
  destruct isKShape_total as [valid ->]. unfold mbind, option_bind. cbv beta iota.
  do 15 (apply orElse_total; [auto with shapes | named |]).
  eexists. split; [reflexivity | named].
Qed.

Lemma detectASLLetter_total t i m r p :
  ∃ g, detectASLLetter pts t i m r p = Some g ∧ In g shapeNames.
Proof.
  unfold detectASLLetter.
  destruct isThumbAcrossPalm_total as [across ->].
  destruct isThumbToSide_total as [side ->].
  destruct isThumbTouchingFingers_total as [touching ->]. simpl.
  pose proof (lettersAfterFist_total across t i m r p) as Hrest.
  destruct (_ && _ && _ && _); [|done].
  destruct (side && negb across).
  { eexists. split; [reflexivity | named]. }
  do 3 (apply orElse_total; [auto with shapes | named |]).
  destruct side; [|done]. eexists. split; [reflexivity | named].
Qed.

End Complete.

(** *** The landmarks built from [keypoints3D] *)

Lemma fromKeypoints3D_length (points : list (Keypoint3D (num := num))) :
  length (map toPixel (fromKeypoints3D points)) = length points.
Proof.
  unfold fromKeypoints3D. destruct (zBounds points). by rewrite !length_map.
Qed.

Lemma fromKeypoints3D_depth (points : list (Keypoint3D (num := num))) :
  Forall hasDepth (map toPixel (fromKeypoints3D points)).
Proof.
  unfold fromKeypoints3D. destruct (zBounds points) as [minZ maxZ].
  rewrite Forall_map, Forall_map. apply Forall_true. intros point.
  unfold hasDepth. simpl. eauto.
Qed.

Lemma angleBased_total (points : list (Keypoint3D (num := num))) :
  (21 <= length points)%nat ->
  ∃ g, angleBased (fromKeypoints3D points) = Some g ∧ In g shapeNames.
Proof.
  intros Hlen. unfold angleBased. apply detectASLLetter_total.
  - by rewrite fromKeypoints3D_length.
  - apply fromKeypoints3D_depth.
Qed.

(** A hand with one to nine landmarks: the first helper of
    [detectASLLetter] reads [keypoints[9]] and raises. *)
Lemma angleBased_raises (kps : list (Keypoint (num := num))) :
  (length kps <= 9)%nat -> angleBased kps = None.
Proof.
  intros Hlen. unfold angleBased, detectASLLetter, isThumbAcrossPalm.
  rewrite (at_None _ 9) by (by rewrite length_map).
  destruct (at_ _ 4); simpl; [|done].
  destruct (at_ _ 0); simpl; [|done].
  by destruct (at_ _ 5).
Qed.

Lemma incomplete_hand_raises d hand others (points : list (Keypoint3D (num := num))) :
  useMLHybrid d = false ->
  keypoints3D hand = Some points ->
  (1 <= length points <= 9)%nat ->
  classifyGesture mlIsLoaded mlPredict d (hand :: others) = None.
Proof.
  intros Hml Hpoints Hlen. unfold classifyGesture, selectKeypoints.
  rewrite Hpoints, Hml. destruct points as [|p ps]; [simpl in Hlen; lia|]. simpl.
  apply angleBased_raises.
  unfold fromKeypoints3D. destruct (zBounds _). rewrite length_map. lia.
Qed.

(** [detectGesture] catches that exception (or the one of its own logging
    block) and returns [null] with the detector untouched. *)
Lemma incomplete_hand_caught d hand others (points : list (Keypoint3D (num := num)))
      videoReady now stamp :
  useMLHybrid d = false ->
  keypoints3D hand = Some points ->
  (1 <= length points <= 9)%nat ->
  detectGesture mlIsLoaded mlPredict videoReady (Some (hand :: others)) now stamp d
  = (None, d).
Proof.
  intros Hml Hpoints Hlen. unfold detectGesture.
  destruct (_ || _); [done|]. destruct (negb videoReady); [done|].
  destruct (logSamplePoint hand); [|done].
  by rewrite (incomplete_hand_raises d hand others points).
Qed.

(** C9 (amended). Classification returns a value, without raising, on
    every well-formed input: ['none'] when there is no hand or the first
    hand has no landmarks, and otherwise, for a first hand with at least 21
    three-dimensional landmarks, one of the 26 shape names (25 letters and
    ['unknown']) when the ML hybrid is off as the constructor leaves it.
    A first hand with one to nine landmarks makes [classifyGesture] raise;
    [detectGesture] catches the exception and returns [null], the detector
    unchanged. *)
Theorem classification_total_on_well_formed d (hands : list (Hand (num := num))) :
  (wellFormed hands = true ->
   ∃ g, classifyGesture mlIsLoaded mlPredict d hands = Some g
        ∧ (nothingToClassify hands = true -> g = "none")
        ∧ (useMLHybrid d = false -> nothingToClassify hands = false ->
           In g shapeNames))
  ∧ (useMLHybrid d = false -> incomplete hands = true ->
     classifyGesture mlIsLoaded mlPredict d hands = None
     ∧ ∀ videoReady now stamp,
         detectGesture mlIsLoaded mlPredict videoReady (Some hands) now stamp d
         = (None, d)).
Proof.
  split.
  - intros Hwf. destruct hands as [|hand others].
    { exists "none". by repeat split. }
    unfold classifyGesture, nothingToClassify, selectKeypoints.
    unfold wellFormed in Hwf.
    destruct (keypoints3D hand) as [[|p ps]|] eqn:H3.
    + destruct (keypoints hand) as [[|q qs]|]; [|done|]; exists "none"; by repeat split.
    + apply Nat.leb_le in Hwf.
      destruct (angleBased_total (p :: ps) Hwf) as (g & Hg & Hin).
      destruct (useMLHybrid d); simpl.
      * destruct mlIsLoaded; [|exists g; by repeat split].
        destruct (mlPredict _) as [[letter c]|]; [|exists g; by repeat split].
        destruct (_ >=? _)%js; [exists letter | exists g]; by repeat split.
      * exists g. by repeat split.
    + destruct (keypoints hand) as [[|q qs]|]; [|done|]; exists "none"; by repeat split.
  - intros Hml Hinc. destruct hands as [|hand others]; [done|].
    unfold incomplete in Hinc.
    destruct (keypoints3D hand) as [points|] eqn:Hpoints; [|done].
    apply andb_prop in Hinc as [Hlo Hhi].
    apply Nat.leb_le in Hlo. apply Nat.leb_le in Hhi.
    split.
    + by apply (incomplete_hand_raises d hand others points).
    + intros. by apply (incomplete_hand_caught d hand others points).
Qed.

(** C4 (amended). On an initialised detector a frame without a hand is
    answered at once with gesture ['none'] and confidence [0]; the smoother
    is not called, so no counter, confirmed gesture, timestamp or buffer
    changes.  The ['none'] that [classifyGesture] returns for a hand without
    landmarks does go through the smoother like any other symbol. *)
Theorem no_hand_frame_bypasses_smoother d now stamp :
  ready d = true ->
  detectGesture mlIsLoaded mlPredict true (Some []) now stamp d
  = (Some {| gesture := Some "none"; confidence := lit 0; hands_ := [];
             timestamp := None |}, d)
  ∧ ∀ hand others,
      selectKeypoints hand = None ->
      let result :=
        detectGesture mlIsLoaded mlPredict true (Some (hand :: others)) now stamp d in
      smoother (snd result) = snd (Smoother.smoothGesture "none" now (smoother d))
      ∧ ∀ r, fst result = Some r ->
             gesture r = fst (Smoother.smoothGesture "none" now (smoother d)).
Proof.
  unfold ready. intros [Hinit Hloaded]%andb_prop. split.
  { unfold detectGesture. by rewrite Hinit, Hloaded. }
  intros hand others Hnone.
  assert (Hlog : logSamplePoint hand = Some tt).
  { unfold logSamplePoint. unfold selectKeypoints in Hnone.
    by destruct (keypoints3D hand) as [[|p ps]|]. }
  unfold detectGesture. generalize (calculateConfidence (hand :: others)).
  intros conf. unfold classifyGesture. rewrite Hinit, Hloaded, Hnone, Hlog. simpl.
  destruct (Smoother.smoothGesture "none" now (smoother d)) as [out s].
  destruct conf; simpl.
  - split; [done|]. by intros r [= <-].
  - split; [done|]. by intros r.
Qed.

End ClassifierFacts.

Section ClassifierWitnesses.
Import Classifier Detection.

(** C4 (as stated) fails: with ['K'] confirmed, the frame without a hand is
    answered ['none'], while the smoother fed ['none'] would answer [null]
    and count the tick. *)
Lemma no_hand_claim_fails : ¬ no_hand_claim.
Proof.
  intros Hclaim.
  pose proof (Hclaim unit NaN_only false (λ _, None) detectorOnK
                1700000000900 1700000000900 eq_refl) as Hframe.
  vm_compute in Hframe. destruct Hframe as [Hanswer _]. discriminate.
Qed.

Lemma no_hand_frame_bypasses_smoother_witness :
  detectGesture (num := unit) false (λ _, None) true (Some [])
                1700000000900 1700000000900 detectorOnK
  = (Some {| gesture := Some "none"; confidence := lit 0; hands_ := [];
             timestamp := None |}, detectorOnK).
Proof.
  apply (no_hand_frame_bypasses_smoother (num := unit) false (λ _, None) detectorOnK).
  reflexivity.
Defined.

(** C9 (as stated) fails: a hand with a single landmark makes
    [classifyGesture] raise. *)
Lemma total_claim_fails : ¬ total_claim.
Proof.
  intros Hclaim.
  destruct (Hclaim unit NaN_only false (λ _, None) constructor [onePointHand])
    as [g Hg].
  vm_compute in Hg. discriminate.
Qed.

Lemma classification_total_on_well_formed_witness :
  (∃ g, classifyGesture (num := unit) false (λ _, None) constructor [fullHand] = Some g
        ∧ In g shapeNames)
  ∧ classifyGesture (num := unit) false (λ _, None) constructor [onePointHand] = None.
Proof.
  split.
  - destruct (proj1 (classification_total_on_well_formed (num := unit) false (λ _, None)
                       constructor [fullHand]) eq_refl) as (g & Hg & _ & Hin).
    exists g. split; [exact Hg | apply Hin; reflexivity].
  - apply (proj2 (classification_total_on_well_formed (num := unit) false (λ _, None)
                    constructor [onePointHand]) eq_refl eq_refl).
Defined.

End ClassifierWitnesses.


(* ===================================================================== *)
(** * Further properties of the confidence smoother *)

Section SmootherInvariants.
Import Smoother.

Implicit Types (st : State) (m : gmap string Z) (g k : string) (t : Z).

Lemma feed_cons g t ticks st :
  feed ((g, t) :: ticks) st
  = (fst (smoothGesture g t st) :: fst (feed ticks (snd (smoothGesture g t st))),
     snd (feed ticks (snd (smoothGesture g t st)))).
Proof. simpl. destruct (smoothGesture g t st). by destruct (feed ticks _). Qed.

Lemma ensureEntry_nonneg g m :
  map_Forall (λ _ c, 0 ≤ c) m -> map_Forall (λ _ c, 0 ≤ c) (ensureEntry g m).
Proof.
  intros Hm. unfold ensureEntry. destruct (m !! g); [done|].
  by apply map_Forall_insert_2.
Qed.

Lemma resetOnSwitch_nonneg g last m :
  map_Forall (λ _ c, 0 ≤ c) m -> map_Forall (λ _ c, 0 ≤ c) (resetOnSwitch g last m).
Proof.
  intros Hm. unfold resetOnSwitch. destruct (_ && _); [|done].
  by apply map_Forall_insert_2.
Qed.

Lemma confidenceOf_nonneg g m :
  map_Forall (λ _ c, 0 ≤ c) m -> 0 ≤ confidenceOf g m.
Proof.
  intros Hm. unfold confidenceOf. destruct (m !! g) eqn:E; simpl; [|lia].
  exact (Hm _ _ E).
Qed.

Lemma decayOne_nonneg g k c : 0 ≤ c -> 0 ≤ decayOne g k c.
Proof. unfold decayOne. destruct (_ && _); lia. Qed.

Lemma countersAfter_nonneg g st :
  map_Forall (λ _ c, 0 ≤ c) (gestureConfidence st) ->
  map_Forall (λ _ c, 0 ≤ c) (countersAfter g st).
Proof.
  intros Hm k c. unfold countersAfter. rewrite lookup_decayOthers.
  pose proof (resetOnSwitch_nonneg g (lastGesture st) _ (ensureEntry_nonneg g _ Hm)) as H1.
  pose proof (confidenceOf_nonneg g _ H1) as Hg.
  destruct (decide (k = g)) as [->|Hne].
  - rewrite lookup_insert_eq. simpl. intros [= <-]. apply decayOne_nonneg. lia.
  - rewrite lookup_insert_ne by done.
    destruct (_ !! k) as [v|] eqn:E; simpl; [|done].
    intros [= <-]. apply decayOne_nonneg. exact (H1 _ _ E).
Qed.

Lemma feed_nonneg ticks : ∀ st,
  map_Forall (λ _ c, 0 ≤ c) (gestureConfidence st) ->
  map_Forall (λ _ c, 0 ≤ c) (gestureConfidence (snd (feed ticks st))).
Proof.
  induction ticks as [|[g t] ticks IH]; intros st Hm; [done|].
  rewrite feed_cons. simpl. apply IH.
  rewrite smoothGesture_counters. by apply countersAfter_nonneg.
Qed.

(** X1. Whatever raw classifications a new detector is fed, at whatever
    times, no counter of [gestureConfidence] is ever negative. *)
Theorem counters_never_negative ticks g c :
  gestureConfidence (snd (feed ticks constructor)) !! g = Some c -> 0 ≤ c.
Proof.
  intros Hg.
  exact (feed_nonneg ticks constructor (map_Forall_empty _) g c Hg).
Qed.

Lemma counters_never_negative_witness :
  gestureConfidence (snd (feed [("C", 1700000000000); ("E", 1700000000200)] constructor))
    !! "C" = Some 0
  ∧ 0 ≤ 0.
Proof.
  assert (Hc : gestureConfidence
                 (snd (feed [("C", 1700000000000); ("E", 1700000000200)] constructor))
                 !! "C" = Some 0) by (vm_compute; reflexivity).
  split; [exact Hc|].
  exact (counters_never_negative
           [("C", 1700000000000); ("E", 1700000000200)] "C" 0 Hc).
Defined.

(** One tick of the confirmed gesture: it is returned, and only the
    counters change. *)
Lemma smoothGesture_same g t st :
  g = lastGesture st ->
  smoothGesture g t st = (Some g, setConfidence (countersAfter g st) st).
Proof.
  intros ->. unfold smoothGesture, countersAfter.
  rewrite bool_decide_eq_false_2 by (intros Hne; by apply Hne).
  by destruct (_ <=? _).
Qed.

(** X2. While the raw classification equals the confirmed gesture, every
    tick returns it, whatever its counter and the times of the ticks, and
    the confirmed gesture and its timestamp stay as they are. *)
Theorem held_gesture_is_returned ticks : ∀ st,
  Forall (λ tick, fst tick = lastGesture st) ticks ->
  Forall (λ out, out = Some (lastGesture st)) (fst (feed ticks st))
  ∧ lastGesture (snd (feed ticks st)) = lastGesture st
  ∧ lastGestureTimestamp (snd (feed ticks st)) = lastGestureTimestamp st.
Proof.
  induction ticks as [|[g t] ticks IH]; intros st Hall.
  - simpl. by repeat split.
  - apply Forall_cons in Hall as [Hg Hrest]. simpl in Hg.
    rewrite feed_cons, (smoothGesture_same g t st Hg). simpl.
    destruct (IH (setConfidence (countersAfter g st) st)) as (Houts & Hlast & Hts);
      [exact Hrest|].
    simpl in *. split; [|done].
    constructor; [by rewrite Hg|exact Houts].
Qed.

Lemma held_gesture_is_returned_witness :
  Forall (λ out, out = Some "none")
         (fst (feed [("none", 5); ("none", 1700000000000)] constructor))
  ∧ lastGesture (snd (feed [("none", 5); ("none", 1700000000000)] constructor)) = "none"
  ∧ lastGestureTimestamp (snd (feed [("none", 5); ("none", 1700000000000)] constructor))
    = 0.
Proof.
  apply (held_gesture_is_returned [("none", 5); ("none", 1700000000000)] constructor).
  repeat constructor.
Defined.

(** The ways one call of [smoothGesture] can end. *)
Lemma smoothGesture_outcome g t st :
  (fst (smoothGesture g t st) = None ∧ g ≠ lastGesture st
   ∨ fst (smoothGesture g t st) = Some g
   ∨ fst (smoothGesture g t st) = Some (lastGesture st))
  ∧ (lastGesture (snd (smoothGesture g t st)) = lastGesture st
     ∧ lastGestureTimestamp (snd (smoothGesture g t st)) = lastGestureTimestamp st
     ∨ fst (smoothGesture g t st) = Some g
       ∧ lastGesture (snd (smoothGesture g t st)) = g
       ∧ lastGestureTimestamp (snd (smoothGesture g t st)) = t).
Proof.
  unfold smoothGesture.
  destruct (_ <=? _); destruct (bool_decide (g ≠ lastGesture st)) eqn:E;
    try destruct (_ && _); simpl; try (split; auto; fail).
  apply bool_decide_eq_true_1 in E. auto.
Qed.

(** X3. One call of [smoothGesture] answers [null], the raw classification
    or the confirmed gesture, and nothing else; [null] is answered only for
    a classification that differs from the confirmed gesture.  The
    confirmed gesture and its timestamp change only in a call that returns
    the raw classification, and then to that classification and to the
    time of the call. *)
Theorem smoothGesture_answers g t st :
  (fst (smoothGesture g t st) = None ∧ g ≠ lastGesture st
   ∨ fst (smoothGesture g t st) = Some g
   ∨ fst (smoothGesture g t st) = Some (lastGesture st))
  ∧ (lastGesture (snd (smoothGesture g t st)) = lastGesture st
     ∧ lastGestureTimestamp (snd (smoothGesture g t st)) = lastGestureTimestamp st
     ∨ fst (smoothGesture g t st) = Some g
       ∧ lastGesture (snd (smoothGesture g t st)) = g
       ∧ lastGestureTimestamp (snd (smoothGesture g t st)) = t).
Proof. exact (smoothGesture_outcome g t st). Qed.

Lemma decayOne_bound g k c : k ≠ g -> decayOne g k c ≤ Z.max 0 (c - 2).
Proof.
  intros Hne. unfold decayOne. rewrite bool_decide_eq_true_2 by done. simpl.
  destruct (0 <? c) eqn:E; [lia|]. apply Z.ltb_ge in E. lia.
Qed.

Lemma confidenceOf_other g k st :
  k ≠ g ->
  confidenceOf k (countersAfter g st)
  ≤ Z.max 0 (confidenceOf k (gestureConfidence st) - 2).
Proof.
  intros Hne. unfold countersAfter, confidenceOf at 1.
  rewrite lookup_decayOthers, lookup_insert_ne by done.
  unfold resetOnSwitch.
  assert (Hens : ensureEntry g (gestureConfidence st) !! k = gestureConfidence st !! k).
  { unfold ensureEntry. destruct (_ !! g); [done|]. by rewrite lookup_insert_ne. }
  destruct (_ && _).
  - destruct (decide (lastGesture st = k)) as [->|Hk].
    + rewrite lookup_insert_eq. simpl. unfold decayOne.
      rewrite bool_decide_eq_true_2 by done. simpl. lia.
    + rewrite lookup_insert_ne, Hens by done. unfold confidenceOf.
      destruct (gestureConfidence st !! k); simpl; [by apply decayOne_bound|lia].
  - rewrite Hens. unfold confidenceOf.
    destruct (gestureConfidence st !! k); simpl; [by apply decayOne_bound|lia].
Qed.

(** X4. Decay: while one gesture is classified tick after tick, the
    counter of every other gesture loses at least 2 with each tick until it
    is 0 (or is reset at once): after [n] such ticks it is at most
    [max 0 (c - 2n)], where [c] is its value before. *)
Theorem other_counters_fade g k ticks : ∀ st,
  k ≠ g ->
  Forall (λ tick, fst tick = g) ticks ->
  confidenceOf k (gestureConfidence (snd (feed ticks st)))
  ≤ Z.max 0 (confidenceOf k (gestureConfidence st) - 2 * Z.of_nat (length ticks)).
Proof.
  intros st Hne. revert st.
  induction ticks as [|[g' t] ticks IH]; intros st Hall.
  - simpl. lia.
  - apply Forall_cons in Hall as [Hg Hrest]. simpl in Hg. subst g'.
    rewrite feed_cons. cbn [snd length].
    etrans; [apply IH, Hrest|].
    rewrite smoothGesture_counters.
    pose proof (confidenceOf_other g k st Hne). lia.
Qed.

Lemma other_counters_fade_witness :
  confidenceOf "C"
    (gestureConfidence
       (snd (feed [("E", 1700000000600); ("E", 1700000000800)]
               (snd (feed [("C", 1700000000000); ("C", 1700000000200);
                           ("C", 1700000000400)] constructor)))))
  ≤ Z.max 0
      (confidenceOf "C"
         (gestureConfidence
            (snd (feed [("C", 1700000000000); ("C", 1700000000200);
                        ("C", 1700000000400)] constructor)))
       - 2 * Z.of_nat (length [("E", 1700000000600); ("E", 1700000000800)])).
Proof.
  apply (other_counters_fade "E" "C" [("E", 1700000000600); ("E", 1700000000800)]).
  - discriminate.
  - repeat constructor.
Defined.

End SmootherInvariants.

(* ===================================================================== *)
(** * Further properties of the sentence builder *)

Section BuilderInvariants.
Import JsString SentenceBuilder Assembler BuilderReads.
Context `{Engine}.

Implicit Types (st : State) (w s letter : string) (a c x : ascii) (now t : Z).

(** X5. After any sequence of calls, accepted or refused, the word in
    progress holds only the letters [a] to [z]: whatever case the letters
    were given in, and no digit, space or keyword ever enters it. *)
Theorem word_holds_only_lowercase ops :
  onlyLower (currentWord (run ops constructor)) = true.
Proof. exact (proj2 (reachable_wordOk ops)). Qed.

Lemma addSpace_reports st r st' : addSpace st = Some (r, st') -> reports r st'.
Proof.
  unfold addSpace, reports.
  destruct (len (currentWord st) =? 0)%nat; [by intros [= <- <-]|].
  destruct (0 <? len (sentence st))%nat; [by intros [= <- <-]|].
  destruct (autoCorrect (currentWord st)); [by intros [= <- <-]|done].
Qed.

Lemma backspace_reports st : reports (fst (backspace st)) (snd (backspace st)).
Proof.
  unfold backspace, reports.
  destruct (0 <? len (currentWord st))%nat; [done|].
  by destruct (0 <? len (sentence st))%nat.
Qed.

(** X6. The object a call returns shows the word and the sentence as the
    call left them, for every operation that returns one and for refused
    calls as well. *)
Theorem result_shows_new_buffers st :
  (∀ letter now r st', addLetter letter now st = Some (r, st') -> reports r st')
  ∧ (∀ r st', addSpace st = Some (r, st') -> reports r st')
  ∧ reports (fst (backspace st)) (snd (backspace st))
  ∧ reports (fst (clear st)) (snd (clear st))
  ∧ reports (fst (clearWord st)) (snd (clearWord st)).
Proof.
  split; [|split; [apply addSpace_reports|split; [apply backspace_reports|done]]].
  intros letter now r st'. unfold addLetter.
  destruct (_ && _); [by intros [= <- <-]|].
  destruct (_ && _); [by intros [= <- <-]|].
  destruct (String.eqb letter "SPACE"); [apply addSpace_reports|].
  destruct (_ || _).
  { intros [= Hb]. pose proof (backspace_reports st) as Hr.
    by rewrite Hb in Hr. }
  destruct (String.eqb letter "CLEAR"); [by intros [= <- <-]|].
  destruct (isSingleLetter letter); [|by intros [= <- <-]].
  destruct (String.eqb _ _); by intros [= <- <-].
Qed.

Lemma addSpace_outcome st r st' :
  addSpace st = Some (r, st') ->
  action r = "space_ignored" ∧ st' = st ∨ action r = "word_completed".
Proof.
  unfold addSpace.
  destruct (len (currentWord st) =? 0)%nat; [intros [= <- <-]; by left|].
  destruct (0 <? len (sentence st))%nat; [intros [= <- <-]; by right|].
  destruct (autoCorrect (currentWord st)); [intros [= <- <-]; by right|done].
Qed.

Lemma backspace_outcome st :
  action (fst (backspace st)) = "backspace_ignored" ∧ snd (backspace st) = st
  ∨ action (fst (backspace st)) = "letter_deleted"
  ∨ action (fst (backspace st)) = "word_deleted".
Proof.
  unfold backspace.
  destruct (0 <? len (currentWord st))%nat; [by right; left|].
  destruct (0 <? len (sentence st))%nat; [by right; right|by left].
Qed.

(** X7. [addLetter] answers with one of eleven action tags.  With the six
    refusing tags the builder is exactly as before the call; a change is
    only ever reported for a single letter or one of the four keywords. *)
Theorem refused_call_changes_nothing letter now st r st' :
  addLetter letter now st = Some (r, st') ->
  In (action r) refusals ∧ st' = st
  ∨ In (action r) changes
    ∧ (isSingleLetter letter = true ∨ In letter keywords).
Proof.
  unfold addLetter, clear, refusals, changes, keywords.
  destruct (_ && _); [intros [= <- <-]; left; simpl; auto|].
  destruct (_ && _); [intros [= <- <-]; left; simpl; auto|].
  destruct (String.eqb letter "SPACE") eqn:Es.
  { apply String.eqb_eq in Es. intros Hsp.
    destruct (addSpace_outcome _ _ _ Hsp) as [[-> ->]| ->]; simpl; auto 10. }
  destruct (String.eqb letter "BACKSPACE") eqn:Eb; simpl.
  { apply String.eqb_eq in Eb. intros [= Hb].
    pose proof (backspace_outcome st) as Ho. rewrite Hb in Ho. simpl in Ho.
    destruct Ho as [[-> ->]|[-> | ->]]; simpl; auto 10. }
  destruct (String.eqb letter "DELETE") eqn:Ed; simpl.
  { apply String.eqb_eq in Ed. intros [= Hb].
    pose proof (backspace_outcome st) as Ho. rewrite Hb in Ho. simpl in Ho.
    destruct Ho as [[-> ->]|[-> | ->]]; simpl; auto 10. }
  destruct (String.eqb letter "CLEAR") eqn:Ec.
  { apply String.eqb_eq in Ec. intros [= <- <-]. simpl. auto 10. }
  destruct (isSingleLetter letter); [|intros [= <- <-]; left; simpl; auto 10].
  destruct (String.eqb (slice _ _ _) _); intros [= <- <-]; simpl; auto 10.
Qed.

(** A letter given to a builder whose word is empty and whose last letter
    is forgotten is accepted, whatever the clock says. *)
Lemma addLetter_fresh c now st :
  isLower c || isUpper c = true ->
  currentWord st = "" -> lastLetter st = "" ->
  addLetter (String c "") now st
  = Some (report {| currentWord := String (lowerChar c) ""; sentence := sentence st;
                    lastLetter := String c ""; lastLetterTimestamp := now |}
                 "letter_added",
          {| currentWord := String (lowerChar c) ""; sentence := sentence st;
             lastLetter := String c ""; lastLetterTimestamp := now |}).
Proof.
  intros Hc Hw Hl.
  rewrite addLetter_letter; [| done | |].
  - rewrite Hw. reflexivity.
  - unfold duplicateGuard. rewrite Hw. reflexivity.
  - unfold debounceGuard. rewrite Hl. reflexivity.
Qed.

(** X8. The first letter after [clear()], [clearWord()] or a completed
    word is always accepted, however soon it comes and whatever letter it
    is: these calls forget the last letter, so neither of the two timing
    guards can refuse it. *)
Theorem first_letter_of_a_word_is_accepted c now st0 st :
  isLower c || isUpper c = true ->
  st = snd (clear st0) ∨ st = snd (clearWord st0)
  ∨ (∃ r, addSpace st0 = Some (r, st) ∧ action r = "word_completed") ->
  ∃ r st',
    addLetter (String c "") now st = Some (r, st')
    ∧ action r = "letter_added"
    ∧ currentWord st' = String (lowerChar c) ""
    ∧ sentence st' = sentence st.
Proof.
  intros Hc Hst.
  assert (Hfresh : currentWord st = "" ∧ lastLetter st = "").
  { destruct Hst as [-> | [-> | (r & Hsp & Hact)]]; [done|done|].
    revert Hsp. unfold addSpace.
    destruct (len (currentWord st0) =? 0)%nat.
    { intros [= <- <-]. done. }
    destruct (0 <? len (sentence st0))%nat; [by intros [= <- <-]|].
    destruct (autoCorrect (currentWord st0)); [by intros [= <- <-]|done]. }
  destruct Hfresh as [Hw Hl].
  rewrite (addLetter_fresh c now st Hc Hw Hl).
  eexists _, _. split; [reflexivity|done].
Qed.

Local Open Scope nat_scope.

Lemma len_takeS n s : len (takeS n s) = Nat.min n (len s).
Proof.
  revert s. induction n as [|n IH]; intros [|a s]; simpl; try done.
  by rewrite IH.
Qed.

Lemma len_join_removelast (l : list string) :
  2 <= length l -> len (join " " (removelast l)) < len (join " " l).
Proof.
  induction l as [|w [|v [|u us]] IH]; simpl; try lia.
  - intros _. rewrite !len_app. simpl. lia.
  - intros _. specialize (IH ltac:(simpl; lia)).
    change (len (w ++ " " ++ join " " (removelast (v :: u :: us)))
            < len (w ++ " " ++ join " " (v :: u :: us))).
    rewrite !len_app. lia.
Qed.

Lemma len_pop_word s :
  s ≠ "" -> len (join " " (removelast (split " " s))) < len s.
Proof.
  intros Hs. rewrite <- (join_split " " s) at 2.
  destruct (split " " s) as [|w [|v l]] eqn:E.
  - by destruct (split_nonempty " " s).
  - simpl. pose proof (join_split " " s) as Hj. rewrite E in Hj. simpl in Hj.
    subst w. destruct s; [done|simpl; lia].
  - apply len_join_removelast. simpl. lia.
Qed.

Lemma backspace_shrinks st :
  0 < len (currentWord st) + len (sentence st) ->
  len (currentWord (snd (backspace st))) + len (sentence (snd (backspace st)))
  < len (currentWord st) + len (sentence st).
Proof.
  intros Hpos. unfold backspace.
  destruct (0 <? len (currentWord st)) eqn:Ew.
  - apply Nat.ltb_lt in Ew. simpl. rewrite slice_init, len_takeS. lia.
  - apply Nat.ltb_ge in Ew.
    destruct (0 <? len (sentence st)) eqn:Es.
    + simpl. assert (sentence st ≠ "") as Hne.
      { intros Hs. rewrite Hs in Es. done. }
      pose proof (len_pop_word _ Hne). lia.
    + apply Nat.ltb_ge in Es. lia.
Qed.

Lemma run_cons op ops st : run (op :: ops) st = run ops (apply op st).
Proof. reflexivity. Qed.

(** X9. Every [backspace()] on a builder that holds text removes at least
    one character, so as many calls as there are characters in the word
    and the sentence together leave both empty. *)
Theorem backspaces_empty_the_builder n : ∀ st,
  len (currentWord st) + len (sentence st) <= n ->
  currentWord (run (replicate n Backspace) st) = ""
  ∧ sentence (run (replicate n Backspace) st) = "".
Proof.
  induction n as [|n IH]; intros st Hn.
  - simpl. destruct (currentWord st), (sentence st); simpl in Hn; try lia. done.
  - simpl replicate. rewrite run_cons. apply IH. simpl.
    destruct (Nat.eq_dec (len (currentWord st) + len (sentence st)) 0) as [Hz|Hnz].
    + unfold backspace.
      destruct (currentWord st) eqn:Ew, (sentence st) eqn:Es; simpl in Hz; try lia.
      simpl. rewrite Ew, Es. simpl. lia.
    + pose proof (backspace_shrinks st ltac:(lia)). lia.
Qed.

End BuilderInvariants.

(** ** Sentence builder: instances *)

Section BuilderInstances.
Import JsString SentenceBuilder Assembler BuilderReads.

Lemma result_shows_new_buffers_witness :
  reports
    {| r_currentWord := "hi"; r_sentence := ""; action := "letter_added";
       correctedWord := None |}
    {| currentWord := "hi"; sentence := ""; lastLetter := "I";
       lastLetterTimestamp := 1700000000000 |}.
Proof.
  apply (proj1 (result_shows_new_buffers
                  {| currentWord := "h"; sentence := ""; lastLetter := "H";
                     lastLetterTimestamp := 1699999990000 |})
               "I" 1700000000000).
  reflexivity.
Defined.

Lemma refused_call_changes_nothing_witness :
  In "ignored" refusals
  ∧ {| currentWord := "h"; sentence := "Hi"; lastLetter := "H";
       lastLetterTimestamp := 1700000000000 |}
    = {| currentWord := "h"; sentence := "Hi"; lastLetter := "H";
         lastLetterTimestamp := 1700000000000 |}
  ∨ In "ignored" changes
    ∧ (isSingleLetter "thumbs_up" = true ∨ In "thumbs_up" keywords).
Proof.
  apply (refused_call_changes_nothing "thumbs_up" 1700000000500
           {| currentWord := "h"; sentence := "Hi"; lastLetter := "H";
              lastLetterTimestamp := 1700000000000 |}
           (report {| currentWord := "h"; sentence := "Hi"; lastLetter := "H";
                      lastLetterTimestamp := 1700000000000 |} "ignored")).
  reflexivity.
Defined.

Lemma first_letter_of_a_word_is_accepted_witness :
  ∃ r st',
    addLetter "L" 1700000000001
              (snd (clearWord {| currentWord := "hel"; sentence := "Hi"; lastLetter := "L";
                                 lastLetterTimestamp := 1700000000000 |}))
    = Some (r, st')
    ∧ action r = "letter_added"
    ∧ currentWord st' = "l"
    ∧ sentence st'
      = sentence (snd (clearWord {| currentWord := "hel"; sentence := "Hi";
                                    lastLetter := "L";
                                    lastLetterTimestamp := 1700000000000 |})).
Proof.
  apply (first_letter_of_a_word_is_accepted "L" 1700000000001
           {| currentWord := "hel"; sentence := "Hi"; lastLetter := "L";
              lastLetterTimestamp := 1700000000000 |}).
  - reflexivity.
  - right. left. reflexivity.
Defined.

Lemma backspaces_empty_the_builder_witness :
  currentWord
    (run (replicate 5 Backspace)
         {| currentWord := "h"; sentence := "Hi a"; lastLetter := "H";
            lastLetterTimestamp := 1700000000000 |}) = ""
  ∧ sentence
      (run (replicate 5 Backspace)
           {| currentWord := "h"; sentence := "Hi a"; lastLetter := "H";
              lastLetterTimestamp := 1700000000000 |}) = "".
Proof.
  apply (backspaces_empty_the_builder 5).
  simpl. lia.
Defined.

End BuilderInstances.

(* ===================================================================== *)
(** * Further properties of the autocorrection *)

Section AutocorrectRange.
Import JsString SentenceBuilder Assembler BuilderReads Fuzzy.
Context `{Engine}.

Implicit Types (st : State) (w s word : string) (a b c x : ascii).

Lemma lowerChar_idempotent c : lowerChar (lowerChar c) = lowerChar c.
Proof. destruct c as [[] [] [] [] [] [] [] []]; reflexivity. Qed.

Lemma lowerChar_lower c : isLower c = true -> lowerChar c = c.
Proof. destruct c as [[] [] [] [] [] [] [] []]; (reflexivity || discriminate). Qed.

Lemma toLowerCase_idempotent w : toLowerCase (toLowerCase w) = toLowerCase w.
Proof.
  induction w as [|c w IH]; [done|].
  change (String (lowerChar (lowerChar c)) (toLowerCase (toLowerCase w))
          = String (lowerChar c) (toLowerCase w)).
  by rewrite lowerChar_idempotent, IH.
Qed.

Lemma toLowerCase_onlyLower w : onlyLower w = true -> toLowerCase w = w.
Proof.
  induction w as [|c w IH]; [done|]. simpl.
  intros [Hc Hw]%andb_true_iff.
  change (String (lowerChar c) (toLowerCase w) = String c w).
  by rewrite lowerChar_lower, IH.
Qed.

(** The answer depends on the word only through its lower-case form. *)
Lemma autoCorrect_lower word : autoCorrect word = autoCorrect (toLowerCase word).
Proof. unfold autoCorrect. by rewrite toLowerCase_idempotent. Qed.

Lemma assoc_In k l v : assoc k l = Some v -> In (k, v) l.
Proof.
  induction l as [|[k' v'] l IH]; [done|]. simpl.
  destruct (String.eqb k k') eqn:E.
  - apply String.eqb_eq in E. intros [= ->]. left. by subst.
  - auto.
Qed.

Lemma inList_In w l : inList w l = true <-> In w l.
Proof.
  unfold inList. rewrite existsb_exists. split.
  - intros (x & Hx & ->%String.eqb_eq). done.
  - intros Hw. exists w. split; [done|apply String.eqb_refl].
Qed.

Lemma trySwaps_range l s :
  trySwaps l s = s ∨ commonWords_has (trySwaps l s) = true.
Proof.
  induction l as [|[wrong replacement] l IH]; simpl; [by left|].
  destruct (includes wrong s); [|done].
  destruct (commonWords_has (replaceFirst wrong replacement s)) eqn:E; [by right|done].
Qed.

Lemma In_tableWords_vocabulary w : commonWords_has w = true -> In w tableWords.
Proof.
  intros Hw%inList_In. unfold tableWords. apply in_or_app. by right.
Qed.

Lemma map_snd_candidates : map snd candidates = tableWords.
Proof.
  unfold candidates, tableWords. rewrite List.map_app, List.map_map. f_equal.
Qed.

Lemma findClosestWord_range word f : findClosestWord word = Some f -> In f tableWords.
Proof.
  unfold findClosestWord. destruct (len word <? 3)%nat; [done|].
  pose proof (fold_consider_selects word (maxDistanceOf word) candidates [] None) as Hsel.
  change ([] ++ candidates)%list with candidates in Hsel.
  destruct (fold_left _ candidates None) as [[value m]|]; [|done].
  cbn [option_map fst]. intros [= <-].
  destruct Hsel as (_ & before & key & after & Hc & _); [by intros ? []|].
  rewrite <- map_snd_candidates, Hc, List.map_app. apply in_or_app. right. by left.
Qed.

(** Where the answer of [autoCorrect] comes from. *)
Lemma autoCorrect_range word :
  (∃ shown, autoCorrect word = VObject shown
            ∧ (toLowerCase word = "constructor" ∨ toLowerCase word = "__proto__"))
  ∨ (∃ v, autoCorrect word = VString v
          ∧ (v = toLowerCase word
             ∨ v = reduceRepeats None None (toLowerCase word)
             ∨ In v tableWords)).
Proof.
  unfold autoCorrect, dictGet.
  destruct (assoc (toLowerCase word) autoCorrectDict) as [v|] eqn:Ed.
  { right. exists v. split; [done|]. right; right.
    apply assoc_In in Ed. unfold tableWords. apply in_or_app. left.
    change v with (snd (toLowerCase word, v)). by apply in_map. }
  destruct (String.eqb (toLowerCase word) "constructor") eqn:Ec.
  { apply String.eqb_eq in Ec. left. eauto. }
  destruct (String.eqb (toLowerCase word) "__proto__") eqn:Ep.
  { apply String.eqb_eq in Ep. left. eauto. }
  right.
  destruct (commonWords_has (toLowerCase word)); [eauto|].
  destruct (negb _) eqn:Es.
  { eexists. split; [done|]. unfold simpleCorrect.
    destruct (trySwaps_range swaps (reduceRepeats None None (toLowerCase word)))
      as [-> | Hv]; [auto|].
    right; right. by apply In_tableWords_vocabulary. }
  destruct (findClosestWord (toLowerCase word)) as [f|] eqn:Ef; [|eauto].
  destruct (negb (String.eqb f _)); [|eauto].
  eexists. split; [done|]. right; right. by apply (findClosestWord_range _ _ Ef).
Qed.

(** X10. What [autoCorrect] can return for a word of ASCII characters:
    one of the two inherited objects, and only for the words
    [constructor] and [__proto__] in any letter case; otherwise a string,
    which is the lower-cased word itself, the word with its runs of three
    or more equal characters reduced to two, a correction of the
    dictionary or a word of the vocabulary.  No other text is ever
    invented. *)
Theorem autoCorrect_answers word :
  asciiOnly word = true ->
  (∃ shown, autoCorrect word = VObject shown
            ∧ (toLowerCase word = "constructor" ∨ toLowerCase word = "__proto__"))
  ∨ (∃ v, autoCorrect word = VString v
          ∧ (v = toLowerCase word
             ∨ v = reduceRepeats None None (toLowerCase word)
             ∨ In v tableWords)).
Proof. intros _. exact (autoCorrect_range word). Qed.

Lemma table_lookups :
  forallb (λ kv, JsValue_eqb (autoCorrect (fst kv)) (VString (snd kv))) autoCorrectDict
  && forallb (λ v, JsValue_eqb (autoCorrect v) (VString v)) commonWords = true.
Proof. vm_compute. reflexivity. Qed.

Lemma JsValue_eqb_eq u v : JsValue_eqb u v = true -> u = v.
Proof.
  destruct u, v; simpl; try done; intros ->%String.eqb_eq; done.
Qed.

(** X11. The exact lookups, in any letter case: a word whose lower-case
    form is a key of the dictionary is answered with the correction of
    that key, and a word whose lower-case form is in the vocabulary with
    that form; no key is shadowed by another key or by the vocabulary. *)
Theorem exact_lookups_in_any_case word :
  (∀ v, In (toLowerCase word, v) autoCorrectDict -> autoCorrect word = VString v)
  ∧ (In (toLowerCase word) commonWords -> autoCorrect word = VString (toLowerCase word)).
Proof.
  pose proof table_lookups as [Hd Hv]%andb_true_iff.
  rewrite forallb_forall in Hd. rewrite forallb_forall in Hv.
  rewrite autoCorrect_lower. split.
  - intros v Hin. exact (JsValue_eqb_eq _ _ (Hd _ Hin)).
  - intros Hin. exact (JsValue_eqb_eq _ _ (Hv _ Hin)).
Qed.

(** *** Runs of equal characters *)

Lemma append_String a s1 s2 : String a s1 ++ s2 = String a (s1 ++ s2).
Proof. reflexivity. Qed.

Lemma reduceRepeats_fixes s : ∀ p2 p1,
  noTriple (context p2 p1 ++ s) = true -> reduceRepeats p2 p1 s = s.
Proof.
  induction s as [|c r IH]; intros p2 p1 Hn; [done|].
  cbn [reduceRepeats].
  destruct p2 as [a|], p1 as [b|]; cbn [context] in Hn.
  - rewrite !append_String in Hn. change ("" ++ String c r) with (String c r) in Hn.
    apply andb_true_iff in Hn as [Ht Hrest].
    cbn [tripleAt] in Ht.
    destruct (Ascii.eqb a c) eqn:Eac, (Ascii.eqb b c) eqn:Ebc; simpl;
      try (f_equal; apply IH; exact Hrest).
    apply Ascii.eqb_eq in Eac, Ebc. subst a b.
    rewrite Ascii.eqb_refl in Ht. done.
  - simpl. f_equal. apply IH. exact Hn.
  - simpl. f_equal. apply IH. exact Hn.
  - simpl. f_equal. apply IH. exact Hn.
Qed.

Lemma noTriple_cons3 a b c s :
  noTriple (String a (String b (String c s)))
  = negb (Ascii.eqb a b && Ascii.eqb b c) && noTriple (String b (String c s)).
Proof. reflexivity. Qed.

Lemma reduceRepeats_noTriple s : ∀ p2 p1,
  singleLine s = true -> noTriple (context p2 p1 ++ reduceRepeats p2 p1 s) = true.
Proof.
  induction s as [|c r IH]; intros p2 p1 Hs.
  - simpl. destruct p2, p1; reflexivity.
  - simpl in Hs. apply andb_true_iff in Hs as [Hc Hr].
    destruct p2 as [a|], p1 as [b|]; cbn [reduceRepeats context].
    + rewrite Hc, andb_true_r.
      destruct (Ascii.eqb a c) eqn:Eac, (Ascii.eqb b c) eqn:Ebc; cbn [andb].
      * apply Ascii.eqb_eq in Eac, Ebc. subst a b.
        exact (IH (Some c) (Some c) Hr).
      * specialize (IH (Some b) (Some c) Hr). cbn [context] in IH.
        rewrite !append_String in *. change ("" ++ ?x) with x in *.
        rewrite noTriple_cons3, IH, Ebc, andb_false_r. done.
      * specialize (IH (Some b) (Some c) Hr). cbn [context] in IH.
        rewrite !append_String in *. change ("" ++ ?x) with x in *.
        rewrite noTriple_cons3, IH, Ebc, !andb_true_r.
        destruct (Ascii.eqb a b) eqn:Eab; [|done].
        apply Ascii.eqb_eq in Eab, Ebc. subst. by rewrite Ascii.eqb_refl in Eac.
      * specialize (IH (Some b) (Some c) Hr). cbn [context] in IH.
        rewrite !append_String in *. change ("" ++ ?x) with x in *.
        rewrite noTriple_cons3, IH, Ebc, andb_false_r. done.
    + exact (IH None (Some c) Hr).
    + exact (IH (Some b) (Some c) Hr).
    + exact (IH None (Some c) Hr).
Qed.

Lemma vocabulary_noTriple : forallb noTriple commonWords = true.
Proof. vm_compute. reflexivity. Qed.

(** X12. [simpleCorrect] never returns a word with three identical
    characters in a row, for any word of ASCII characters without a line
    break (CR or LF, which the [.] of its regular expression does not
    match). *)
Theorem simpleCorrect_leaves_no_triple word :
  asciiOnly word = true ->
  singleLine word = true ->
  noTriple (simpleCorrect word) = true.
Proof.
  intros _ Hs. unfold simpleCorrect.
  destruct (trySwaps_range swaps (reduceRepeats None None word)) as [-> | Hv].
  - exact (reduceRepeats_noTriple word None None Hs).
  - pose proof vocabulary_noTriple as Hall. rewrite forallb_forall in Hall.
    apply Hall. by apply inList_In.
Qed.

(** X13. For a word assembled by the builder the lower-casing and the
    reduction of repeated letters of [autoCorrect] change nothing, so
    [autoCorrect] answers the word as typed or an entry of the two tables,
    or, when the word is [constructor], an inherited object. *)
Theorem built_word_is_kept_or_looked_up ops :
  let word := currentWord (run ops constructor) in
  toLowerCase word = word
  ∧ reduceRepeats None None word = word
  ∧ (autoCorrect word = VString word
     ∨ (∃ v, autoCorrect word = VString v ∧ In v tableWords)
     ∨ (word = "constructor" ∧ ∃ shown, autoCorrect word = VObject shown)).
Proof.
  intros word. destruct (reachable_wordOk ops) as [Hn Hl]. fold word in Hn, Hl.
  pose proof (toLowerCase_onlyLower word Hl) as Hlow.
  pose proof (reduceRepeats_fixes word None None Hn) as Hred.
  split; [done|]. split; [done|].
  destruct (autoCorrect_range word) as [(shown & Ha & Hw)|(v & Ha & Hc)].
  - rewrite Hlow in Hw. destruct Hw as [Hw|Hw].
    + right; right. split; [done|]. by exists shown.
    + rewrite Hw in Hl. discriminate.
  - rewrite Hlow, Hred in Hc. destruct Hc as [-> | [-> | Hin]]; eauto.
Qed.

End AutocorrectRange.

(** ** Autocorrection: instances *)

Section AutocorrectRangeInstances.
Import JsString SentenceBuilder Assembler BuilderReads Fuzzy.

Lemma autoCorrect_answers_witness :
  (∃ shown, autoCorrect "Hellooo" = VObject shown
            ∧ (toLowerCase "Hellooo" = "constructor"
               ∨ toLowerCase "Hellooo" = "__proto__"))
  ∨ (∃ v, autoCorrect "Hellooo" = VString v
          ∧ (v = toLowerCase "Hellooo"
             ∨ v = reduceRepeats None None (toLowerCase "Hellooo")
             ∨ In v tableWords)).
Proof.
  apply (autoCorrect_answers "Hellooo"). reflexivity.
Defined.

Lemma exact_lookups_in_any_case_witness :
  autoCorrect "TeH" = VString "the" ∧ autoCorrect "Hello" = VString "hello".
Proof.
  split.
  - apply (proj1 (exact_lookups_in_any_case "TeH") "the"). simpl. auto.
  - apply (proj2 (exact_lookups_in_any_case "Hello")).
    apply inList_In. vm_compute. reflexivity.
Defined.

Lemma simpleCorrect_leaves_no_triple_witness :
  noTriple (simpleCorrect "hellooooo") = true.
Proof.
  apply (simpleCorrect_leaves_no_triple "hellooooo").
  - reflexivity.
  - reflexivity.
Defined.

End AutocorrectRangeInstances.

(* ===================================================================== *)
(** * The sentence and the two read-only views *)

Section SentenceFacts.
Import JsString SentenceBuilder Assembler BuilderReads.
Context `{Engine}.

Implicit Types (st : State) (w s t : string) (a c x sep : ascii) (l : list string).

Lemma split_app sep s t :
  split sep (s ++ String sep t) = (split sep s ++ split sep t)%list.
Proof.
  induction s as [|c s IH].
  - change (split sep (String sep t) = "" :: split sep t).
    simpl. by rewrite Ascii.eqb_refl.
  - change (split sep (String c (s ++ String sep t))
            = (split sep (String c s) ++ split sep t)%list).
    simpl. destruct (Ascii.eqb c sep); [by rewrite IH|].
    rewrite IH. destruct (split sep s) eqn:E; [by destruct (split_nonempty sep s)|done].
Qed.

Lemma split_lacks_all sep s : Forall (λ w, lacks sep w = true) (split sep s).
Proof.
  induction s as [|c s IH]; simpl; [by constructor|].
  destruct (Ascii.eqb c sep) eqn:E; [by constructor|].
  destruct (split sep s) as [|w ws] eqn:Es; [by destruct (split_nonempty sep s)|].
  apply Forall_cons in IH as [Hw Hws]. constructor; [|done].
  simpl. by rewrite E, Hw.
Qed.

Lemma split_join sep l :
  l ≠ [] -> Forall (λ w, lacks sep w = true) l ->
  split sep (join (String sep "") l) = l.
Proof.
  induction l as [|w [|v vs] IH]; intros Hne Hall; [done| |].
  - apply Forall_cons in Hall as [Hw _]. simpl. by apply split_lacks.
  - apply Forall_cons in Hall as [Hw Hrest].
    change (split sep (w ++ String sep (join (String sep "") (v :: vs)))
            = w :: v :: vs).
    rewrite split_app, IH by done. by rewrite split_lacks.
Qed.

Lemma Forall_removelast {A} (P : A -> Prop) (k : list A) :
  Forall P k -> Forall P (removelast k).
Proof.
  induction k as [|y [|z k] IH]; intros Hk; simpl; [done|done|].
  apply Forall_cons in Hk as [Hy Hk]. constructor; [done|]. by apply IH.
Qed.

Lemma wellSpaced_pieces s :
  s ≠ "" -> wellSpaced s = true -> Forall (λ w, w ≠ "") (split " " s).
Proof.
  intros Hs. unfold wellSpaced.
  destruct (String.eqb s "") eqn:E; [by apply String.eqb_eq in E|].
  simpl. rewrite forallb_forall, List.Forall_forall.
  intros Hall w Hw Heq. specialize (Hall w Hw). subst w. done.
Qed.

Lemma pieces_wellSpaced s : Forall (λ w, w ≠ "") (split " " s) -> wellSpaced s = true.
Proof.
  intros Hall. unfold wellSpaced. apply orb_true_iff. right.
  rewrite forallb_forall. rewrite List.Forall_forall in Hall.
  intros w Hw. specialize (Hall w Hw). by destruct w.
Qed.

Lemma capitalised a s :
  toUpperCase (charAt 0 (String a s)) ++ slice 1 None (String a s)
  = String (upperChar a) s.
Proof.
  unfold charAt, slice, relIndex. simpl.
  rewrite Nat.sub_0_r, takeS_all by done. reflexivity.
Qed.

Lemma tableWords_pieces :
  forallb (λ w, negb (String.eqb w "") && lacks " " w) tableWords = true.
Proof. vm_compute. reflexivity. Qed.

Lemma reduceRepeats_lacks x s : ∀ p2 p1,
  lacks x s = true -> lacks x (reduceRepeats p2 p1 s) = true.
Proof.
  induction s as [|c r IH]; intros p2 p1 Hs; [done|].
  simpl in Hs. apply andb_true_iff in Hs as [Hc Hr].
  cbn [reduceRepeats]. destruct (match p2 with Some _ => _ | None => _ end).
  - by apply IH.
  - simpl. rewrite Hc. by apply IH.
Qed.

Lemma reduceRepeats_nonempty s : s ≠ "" -> reduceRepeats None None s ≠ "".
Proof. by destruct s. Qed.

(** What [autoCorrect] makes of a word of lower-case letters. *)
Lemma autoCorrect_piece w :
  onlyLower w = true -> w ≠ "" ->
  (∃ v, autoCorrect w = VString v ∧ v ≠ "" ∧ lacks " " v = true)
  ∨ (w = "constructor" ∧ ∃ shown, autoCorrect w = VObject shown).
Proof.
  intros Hl Hne.
  pose proof (toLowerCase_onlyLower w Hl) as Hlow.
  destruct (autoCorrect_range w) as [(shown & Ha & Hw)|(v & Ha & Hc)].
  - rewrite Hlow in Hw. destruct Hw as [Hw|Hw].
    + right. split; [done|]. by exists shown.
    + rewrite Hw in Hl. discriminate.
  - left. exists v. split; [done|]. rewrite Hlow in Hc.
    destruct Hc as [-> | [-> | Hin]].
    + split; [done|]. by apply onlyLower_lacks_space.
    + split; [by apply reduceRepeats_nonempty|].
      by apply reduceRepeats_lacks, onlyLower_lacks_space.
    + pose proof tableWords_pieces as Hall. rewrite forallb_forall in Hall.
      specialize (Hall v Hin). apply andb_true_iff in Hall as [Hc1 Hc2].
      split; [|done]. intros ->. done.
Qed.

Lemma lacks_capitalised a s :
  lacks " " (String a s) = true -> lacks " " (String (upperChar a) s) = true.
Proof. simpl. by rewrite upper_not_space. Qed.

Lemma addSpace_wellSpaced st r st' :
  onlyLower (currentWord st) = true ->
  wellSpaced (sentence st) = true ->
  currentWord st ≠ "constructor" ->
  addSpace st = Some (r, st') ->
  wellSpaced (sentence st') = true.
Proof.
  intros Hl Hs Hnc. unfold addSpace.
  destruct (len (currentWord st) =? 0)%nat eqn:Ew; [by intros [= <- <-]|].
  assert (currentWord st ≠ "") as Hne by (intros Hw; by rewrite Hw in Ew).
  destruct (0 <? len (sentence st))%nat eqn:Es.
  - intros [= <- <-]. simpl.
    assert (sentence st ≠ "") as Hsne by (intros Hw; by rewrite Hw in Es).
    apply pieces_wellSpaced.
    change (sentence st ++ " " ++ ?t) with (sentence st ++ String " " t).
    rewrite split_app. apply Forall_app. split; [by apply wellSpaced_pieces|].
    destruct (autoCorrect_piece _ Hl Hne) as [(v & -> & Hc & Hlc)|[Hw _]]; [|done].
    simpl. rewrite split_lacks by done. by constructor.
  - destruct (autoCorrect_piece _ Hl Hne) as [(v & -> & Hc & Hlc)|[Hw _]]; [|done].
    intros [= <- <-]. simpl. destruct v as [|a v]; [done|].
    rewrite capitalised. apply pieces_wellSpaced.
    rewrite split_lacks by (by apply lacks_capitalised). by constructor.
Qed.

Lemma backspace_wellSpaced st :
  wellSpaced (sentence st) = true ->
  wellSpaced (sentence (snd (backspace st))) = true.
Proof.
  intros Hs. unfold backspace.
  destruct (0 <? len (currentWord st))%nat; [done|].
  destruct (0 <? len (sentence st))%nat eqn:Es; [|done].
  simpl. assert (sentence st ≠ "") as Hsne by (intros Hw; by rewrite Hw in Es).
  pose proof (wellSpaced_pieces _ Hsne Hs) as Hall.
  destruct (removelast (split " " (sentence st))) as [|w ws] eqn:E; [done|].
  apply pieces_wellSpaced. rewrite <- E.
  rewrite split_join.
  - by apply Forall_removelast.
  - by rewrite E.
  - apply Forall_removelast, split_lacks_all.
Qed.

Lemma addLetter_dispatch letter now st r st' :
  addLetter letter now st = Some (r, st') ->
  sentence st' = sentence st
  ∨ String.eqb letter "SPACE" = true ∧ addSpace st = Some (r, st')
  ∨ st' = snd (backspace st) ∨ st' = snd (clear st).
Proof.
  unfold addLetter.
  destruct (_ && _); [intros [= <- <-]; by left|].
  destruct (_ && _); [intros [= <- <-]; by left|].
  destruct (String.eqb letter "SPACE"); [by auto|].
  destruct (_ || _); [intros [= Hb]; right; right; left; by rewrite Hb|].
  destruct (String.eqb letter "CLEAR");
    [unfold clear; intros [= _ <-]; by right; right; right|].
  destruct (isSingleLetter letter); [|intros [= <- <-]; by left].
  destruct (String.eqb (slice _ _ _) _); intros [= <- <-]; by left.
Qed.

Lemma apply_wellSpaced op st :
  keepsSpacing op = true ->
  negb (completes op && String.eqb (currentWord st) "constructor") = true ->
  wordOk st -> wellSpaced (sentence st) = true ->
  wellSpaced (sentence (apply op st)) = true.
Proof.
  intros Hop Hspare [_ Hl] Hs. destruct op as [letter now| | | | |text]; simpl.
  - destruct (addLetter letter now st) as [[r st']|] eqn:E; [|done].
    destruct (addLetter_dispatch _ _ _ _ _ E) as [-> | [[Hsp Ha] | [-> | ->]]];
      [done| |by apply backspace_wellSpaced|done].
    simpl in Hspare. rewrite Hsp in Hspare. simpl in Hspare.
    apply (addSpace_wellSpaced st r st'); try done.
    intros Hw. by rewrite Hw in Hspare.
  - destruct (addSpace st) as [[r st']|] eqn:E; [|done].
    simpl in Hspare.
    apply (addSpace_wellSpaced st r st'); try done.
    intros Hw. by rewrite Hw in Hspare.
  - by apply backspace_wellSpaced.
  - done.
  - done.
  - exact Hop.
Qed.

Lemma run_wellSpaced ops : ∀ st,
  forallb keepsSpacing ops = true ->
  sparesConstructor ops st = true ->
  wordOk st -> wellSpaced (sentence st) = true ->
  wellSpaced (sentence (run ops st)) = true.
Proof.
  induction ops as [|op ops IH]; intros st Hops Hspare Hw Hs; [done|].
  simpl in Hops. apply andb_true_iff in Hops as [Hop Hops].
  simpl in Hspare. apply andb_true_iff in Hspare as [Hsp Hspare].
  rewrite run_cons.
  apply IH; [done|done|by apply apply_wordOk|by apply apply_wellSpaced].
Qed.

(** X14. The sentence never gets a leading, trailing or doubled space:
    after any sequence of calls on a new builder in which every
    [setSentence] is given a text without such spaces and the word
    [constructor] is never completed, the sentence is empty or a list of
    non-empty words separated by single spaces.  (Completing
    [constructor] behind a non-empty sentence appends the text the engine
    prints for the [Object] function, whose spacing the language leaves
    open.) *)
Theorem sentence_stays_well_spaced ops :
  forallb keepsSpacing ops = true ->
  sparesConstructor ops constructor = true ->
  wellSpaced (sentence (run ops constructor)) = true.
Proof.
  intros Hops Hspare. apply run_wellSpaced; [done|done| |done].
  split; reflexivity.
Qed.

Lemma countWords_app_piece s w :
  w ≠ "" -> lacks " " w = true ->
  countWords (s ++ String " " w) = S (countWords s).
Proof.
  intros Hc Hl. unfold countWords.
  rewrite split_app, (split_lacks " " w), List.filter_app, List.length_app by done.
  simpl. destruct w; [done|]. simpl. lia.
Qed.

(** X15. Completing a word adds exactly one to the [wordCount] of
    [getState()] and leaves its [letterCount] at 0, whatever correction is
    applied: for every non-empty word of lower-case letters other than
    [constructor], [addSpace()] answers [word_completed] and the sentence
    has one word more. *)
Theorem completed_word_counts_once st :
  onlyLower (currentWord st) = true ->
  currentWord st ≠ "" ->
  currentWord st ≠ "constructor" ->
  ∃ r st',
    addSpace st = Some (r, st')
    ∧ action r = "word_completed"
    ∧ wordCount (getState st') = S (wordCount (getState st))
    ∧ letterCount (getState st') = 0%nat.
Proof.
  intros Hl Hne Hnc.
  destruct (autoCorrect_piece _ Hl Hne) as [(v & Ha & Hc & Hlc)|[Hw _]]; [|done].
  unfold addSpace. rewrite (proj1 (len_pos _ Hne)), Ha.
  destruct (0 <? len (sentence st))%nat eqn:Es.
  - eexists _, _. split; [reflexivity|]. split; [done|]. split; [|done].
    cbn [getState wordCount sentence toText].
    change (sentence st ++ " " ++ v) with (sentence st ++ String " " v).
    by apply countWords_app_piece.
  - eexists _, _. split; [reflexivity|]. split; [done|]. split; [|done].
    cbn [getState wordCount sentence].
    assert (sentence st = "") as -> by (by destruct (sentence st)).
    destruct v as [|a v]; [done|]. rewrite capitalised.
    unfold countWords. rewrite split_lacks by (by apply lacks_capitalised).
    reflexivity.
Qed.

(** X16. [addSpace()] raises in exactly one situation a builder can get
    into: the word in progress is [constructor] and the sentence is empty
    ([autoCorrect] then returns the inherited [Object] function, which has
    no [charAt]).  That situation can be reached by typing the eleven
    letters. *)
Theorem addSpace_raises_only_for_constructor :
  (∀ ops,
     let st := run ops constructor in
     addSpace st = None <-> currentWord st = "constructor" ∧ sentence st = "")
  ∧ (∃ ops, addSpace (run ops constructor) = None).
Proof.
  split.
  - intros ops st. destruct (reachable_wordOk ops) as [_ Hl]. fold st in Hl.
    unfold addSpace.
    destruct (len (currentWord st) =? 0)%nat eqn:Ew.
    { split; [done|]. intros [Hw _]. by rewrite Hw in Ew. }
    assert (currentWord st ≠ "") as Hne by (intros Hw; by rewrite Hw in Ew).
    destruct (autoCorrect_piece _ Hl Hne) as [(v & Ha & _)|[Hw [shown Ha]]];
      rewrite Ha.
    + destruct (0 <? len (sentence st))%nat; (split; [done|]);
        intros [Hw _]; rewrite Hw in Ha; vm_compute in Ha; discriminate.
    + destruct (0 <? len (sentence st))%nat eqn:Es.
      * split; [done|]. intros [_ Hs]. by rewrite Hs in Es.
      * split; [|done]. intros _. split; [done|]. by destruct (sentence st).
  - exists [AddLetter "C" 1700000000000; AddLetter "O" 1700000002000;
            AddLetter "N" 1700000004000; AddLetter "S" 1700000006000;
            AddLetter "T" 1700000008000; AddLetter "R" 1700000010000;
            AddLetter "U" 1700000012000; AddLetter "C" 1700000014000;
            AddLetter "T" 1700000016000; AddLetter "O" 1700000018000;
            AddLetter "R" 1700000020000].
    vm_compute. reflexivity.
Qed.

(** X17. [getCompleteText()] previews the sentence: when a word is in
    progress behind a non-empty sentence and [addSpace()] completes it
    without a correction, the new sentence is the text
    [getCompleteText()] showed before the call, and the call does not
    change what [getCompleteText()] shows. *)
Theorem getCompleteText_previews_addSpace st r st' :
  sentence st ≠ "" ->
  addSpace st = Some (r, st') ->
  action r = "word_completed" ->
  correctedWord r = None ->
  sentence st' = getCompleteText st ∧ getCompleteText st' = getCompleteText st.
Proof.
  intros Hs. unfold addSpace, getCompleteText.
  destruct (len (currentWord st) =? 0)%nat eqn:Ew; [by intros [= <- <-]|].
  assert (currentWord st ≠ "") as Hne by (intros Hw; by rewrite Hw in Ew).
  rewrite (proj2 (len_pos _ Hne)), (proj2 (len_pos _ Hs)).
  intros [= <- <-] _. simpl.
  destruct (JsValue_eqb _ _) eqn:E; [|done]. intros _.
  apply JsValue_eqb_eq in E. rewrite E. done.
Qed.

End SentenceFacts.

(** ** The sentence: instances *)

Section SentenceInstances.
Import JsString SentenceBuilder Assembler BuilderReads.

Lemma sentence_stays_well_spaced_witness :
  wellSpaced
    (sentence (run [AddLetter "H" 1700000000000; AddLetter "I" 1700000002000; AddSpace;
                    AddLetter "A" 1700000004000; AddLetter "SPACE" 1700000006000;
                    Backspace; SetSentence "Good morning"; AddSpace] constructor))
  = true.
Proof.
  apply (sentence_stays_well_spaced
           [AddLetter "H" 1700000000000; AddLetter "I" 1700000002000; AddSpace;
            AddLetter "A" 1700000004000; AddLetter "SPACE" 1700000006000;
            Backspace; SetSentence "Good morning"; AddSpace]).
  - vm_compute. reflexivity.
  - vm_compute. reflexivity.
Defined.

Lemma completed_word_counts_once_witness :
  ∃ r st',
    addSpace {| currentWord := "helo"; sentence := "Well"; lastLetter := "O";
                lastLetterTimestamp := 1700000000000 |} = Some (r, st')
    ∧ action r = "word_completed"
    ∧ wordCount (getState st')
      = S (wordCount (getState {| currentWord := "helo"; sentence := "Well";
                                  lastLetter := "O";
                                  lastLetterTimestamp := 1700000000000 |}))
    ∧ letterCount (getState st') = 0%nat.
Proof.
  apply (completed_word_counts_once
           {| currentWord := "helo"; sentence := "Well"; lastLetter := "O";
              lastLetterTimestamp := 1700000000000 |}).
  - reflexivity.
  - discriminate.
  - discriminate.
Defined.

Lemma getCompleteText_previews_addSpace_witness :
  sentence {| currentWord := ""; sentence := "Well hi"; lastLetter := "";
              lastLetterTimestamp := 1700000000000 |}
  = getCompleteText {| currentWord := "hi"; sentence := "Well"; lastLetter := "I";
                       lastLetterTimestamp := 1700000000000 |}
  ∧ getCompleteText {| currentWord := ""; sentence := "Well hi"; lastLetter := "";
                       lastLetterTimestamp := 1700000000000 |}
    = getCompleteText {| currentWord := "hi"; sentence := "Well"; lastLetter := "I";
                         lastLetterTimestamp := 1700000000000 |}.
Proof.
  apply (getCompleteText_previews_addSpace
           {| currentWord := "hi"; sentence := "Well"; lastLetter := "I";
              lastLetterTimestamp := 1700000000000 |}
           {| r_currentWord := ""; r_sentence := "Well hi"; action := "word_completed";
              correctedWord := None |}).
  - discriminate.
  - vm_compute. reflexivity.
  - reflexivity.
  - reflexivity.
Defined.

End SentenceInstances.

(* ===================================================================== *)
(** * The edit distance as a metric *)

Section EditDistanceMetric.
Import JsString SentenceBuilder EditDistance Fuzzy.
Local Open Scope nat_scope.

Implicit Types (a b s : string) (x y : ascii) (n m k : nat).

Lemma edits_refl a : edits a a 0.
Proof. induction a; constructor; done. Qed.

Lemma edits_zero a b n : edits a b n -> n = 0 -> a = b.
Proof.
  induction 1 as [|z a b n _ IH| | |]; intros Hn; try done.
  by rewrite IH.
Qed.

Lemma edits_sym a b n : edits a b n -> edits b a n.
Proof. induction 1; by constructor. Qed.

(** Two edit scripts in a row make one that is no longer than both
    together. *)
Lemma edits_trans a b n :
  edits a b n -> ∀ s m, edits b s m -> ∃ k, k <= n + m ∧ edits a s k.
Proof.
  induction 1 as [|z a b n _ IH|x y a b n _ IH|x a b n _ IH|y a b n _ IH];
    intros s m H2.
  - exists m. split; [lia|done].
  - remember (String z b) as zb eqn:Ezb. revert Ezb.
    induction H2 as [|z' b' s' m' H2' _|x' y' b' s' m' H2' _|x' b' s' m' H2' _
                     |y' b' s' m' _ IH2]; intros Ezb.
    + done.
    + injection Ezb as -> ->. destruct (IH _ _ H2') as (k & Hk & He).
      exists k. split; [lia|by constructor].
    + injection Ezb as -> ->. destruct (IH _ _ H2') as (k & Hk & He).
      exists (S k). split; [lia|by constructor].
    + injection Ezb as -> ->. destruct (IH _ _ H2') as (k & Hk & He).
      exists (S k). split; [lia|by constructor].
    + destruct (IH2 Ezb) as (k & Hk & He).
      exists (S k). split; [lia|by constructor].
  - remember (String y b) as yb eqn:Eyb. revert Eyb.
    induction H2 as [|z' b' s' m' H2' _|x' y' b' s' m' H2' _|x' b' s' m' H2' _
                     |y' b' s' m' _ IH2]; intros Eyb.
    + done.
    + injection Eyb as -> ->. destruct (IH _ _ H2') as (k & Hk & He).
      exists (S k). split; [lia|by constructor].
    + injection Eyb as -> ->. destruct (IH _ _ H2') as (k & Hk & He).
      exists (S k). split; [lia|by constructor].
    + injection Eyb as -> ->. destruct (IH _ _ H2') as (k & Hk & He).
      exists (S k). split; [lia|by constructor].
    + destruct (IH2 Eyb) as (k & Hk & He).
      exists (S k). split; [lia|by constructor].
  - destruct (IH _ _ H2) as (k & Hk & He).
    exists (S k). split; [lia|by constructor].
  - remember (String y b) as yb eqn:Eyb. revert Eyb.
    induction H2 as [|z' b' s' m' H2' _|x' y' b' s' m' H2' _|x' b' s' m' H2' _
                     |y' b' s' m' _ IH2]; intros Eyb.
    + done.
    + injection Eyb as -> ->. destruct (IH _ _ H2') as (k & Hk & He).
      exists (S k). split; [lia|by constructor].
    + injection Eyb as -> ->. destruct (IH _ _ H2') as (k & Hk & He).
      exists (S k). split; [lia|by constructor].
    + injection Eyb as -> ->. destruct (IH _ _ H2') as (k & Hk & He).
      exists k. split; [lia|done].
    + destruct (IH2 Eyb) as (k & Hk & He).
      exists (S k). split; [lia|by constructor].
Qed.

Lemma edits_len a b n : edits a b n -> len a <= len b + n ∧ len b <= len a + n.
Proof. induction 1; simpl; lia. Qed.

Lemma edits_longest a : ∀ b, ∃ k, k <= Nat.max (len a) (len b) ∧ edits a b k.
Proof.
  induction a as [|x a IH]; intros b.
  - exists (len b). split; [simpl; lia|apply edits_insert_all].
  - destruct b as [|y b].
    + exists (len (String x a)). split; [simpl; lia|apply edits_delete_all].
    + destruct (IH b) as (k & Hk & He). exists (S k).
      split; [simpl; lia|by constructor].
Qed.

(** X18. [levenshteinDistance] is a metric on strings: it is 0 exactly
    for equal strings, it is symmetric, and it obeys the triangle
    inequality. *)
Theorem levenshteinDistance_is_a_metric a b s :
  (levenshteinDistance a b = 0 <-> a = b)
  ∧ levenshteinDistance a b = levenshteinDistance b a
  ∧ levenshteinDistance a s <= levenshteinDistance a b + levenshteinDistance b s.
Proof.
  destruct (levenshteinDistance_least_edits a b) as [Hab Lab].
  destruct (levenshteinDistance_least_edits b a) as [Hba Lba].
  destruct (levenshteinDistance_least_edits b s) as [Hbs _].
  destruct (levenshteinDistance_least_edits a s) as [_ Las].
  split; [split|split].
  - intros Hz. exact (edits_zero _ _ _ Hab Hz).
  - intros ->. pose proof (Lba 0 (edits_refl b)). lia.
  - pose proof (Lab _ (edits_sym _ _ _ Hba)).
    pose proof (Lba _ (edits_sym _ _ _ Hab)). lia.
  - destruct (edits_trans _ _ _ Hab _ _ Hbs) as (k & Hk & He).
    pose proof (Las k He). lia.
Qed.

(** X19. The distance is at least the difference of the two lengths and
    at most the greater of them. *)
Theorem levenshteinDistance_bounds a b :
  len a - len b <= levenshteinDistance a b
  ∧ len b - len a <= levenshteinDistance a b
  ∧ levenshteinDistance a b <= Nat.max (len a) (len b).
Proof.
  destruct (levenshteinDistance_least_edits a b) as [Hab Lab].
  pose proof (edits_len _ _ _ Hab).
  destruct (edits_longest a b) as (k & Hk & He).
  pose proof (Lab k He). lia.
Qed.

(** X20. The fuzzy pass only selects a candidate of similar length: the
    length of the dictionary key or vocabulary word it matched differs
    from the length of the word by at most the distance budget
    [ceil(0.4 * length)]. *)
Theorem fuzzy_match_has_similar_length (word r : string) :
  findClosestWord word = Some r ->
  ∃ key, In (key, r) candidates
         ∧ len word - len key <= maxDistanceOf word
         ∧ len key - len word <= maxDistanceOf word.
Proof.
  unfold findClosestWord. destruct (len word <? 3); [done|].
  pose proof (fold_consider_selects word (maxDistanceOf word) candidates [] None) as Hsel.
  change ([] ++ candidates)%list with candidates in Hsel.
  destruct (fold_left _ candidates None) as [[value m]|]; [|done].
  cbn [option_map fst]. intros [= <-].
  destruct Hsel as (Hm & before & key & after & Hc & Hd & _); [by intros ? []|].
  exists key. split.
  { rewrite Hc. apply in_or_app. right. by left. }
  destruct (levenshteinDistance_least_edits word key) as [He _].
  pose proof (edits_len _ _ _ He). lia.
Qed.

Lemma fuzzy_match_has_similar_length_witness :
  ∃ key, In (key, "help") candidates
         ∧ len "helpp" - len key <= maxDistanceOf "helpp"
         ∧ len key - len "helpp" <= maxDistanceOf "helpp".
Proof.
  apply (fuzzy_match_has_similar_length "helpp" "help").
  vm_compute. reflexivity.
Defined.

End EditDistanceMetric.

(* ===================================================================== *)
(** * Further properties of the classifier and of [detectGesture] *)

Section DetectorFacts.
Import Classifier Detection DetectorMore.
Context {num : Type} `{JsNumber num}.
Variable mlIsLoaded : bool.
Variable mlPredict : list (Keypoint (num := num)) -> option (string * num).

Implicit Types (pts : list (Point (num := num))) (d : Detector).

Ltac answered :=
  repeat match goal with
  | |- context [orElse ?test _ _] => destruct test as [[]|]; cbn [orElse]
  | |- context [if ?b then _ else _] => destruct b
  end;
  try discriminate;
  try (intros [= <-]; unfold answerNames; simpl; tauto).

Lemma lettersAfterFist_answers pts across t i m r p g :
  lettersAfterFist pts across t i m r p = Some g -> In g answerNames.
Proof.
  unfold lettersAfterFist, isHShape. cbv zeta.
  unfold mbind, option_bind.
  destruct (isKShape pts) as [kShapeValid|]; answered.
Qed.

Lemma detectASLLetter_answers pts t i m r p g :
  detectASLLetter pts t i m r p = Some g -> In g answerNames.
Proof.
  unfold detectASLLetter. cbv zeta. unfold mbind, option_bind.
  destruct (isThumbAcrossPalm pts) as [across|]; [|done].
  destruct (isThumbToSide pts) as [side|]; [|done].
  destruct (isThumbTouchingFingers pts) as [touching|]; [|done].
  destruct (_ && _ && _ && _).
  - destruct (side && negb across).
    { intros [= <-]. unfold answerNames. simpl. tauto. }
    destruct (isMShape pts) as [[]|]; cbn [orElse]; try done.
    { intros [= <-]. unfold answerNames. simpl. tauto. }
    destruct (isEShape pts) as [[]|]; cbn [orElse]; try done.
    { intros [= <-]. unfold answerNames. simpl. tauto. }
    destruct (isThumbInFront pts) as [[]|] eqn:Efront; cbn [orElse]; try done.
    { intros [= <-]. unfold answerNames. simpl. tauto. }
    destruct side.
    { intros [= <-]. unfold answerNames. simpl. tauto. }
    apply lettersAfterFist_answers.
  - apply lettersAfterFist_answers.
Qed.

Lemma angleBased_answers (kps : list (Keypoint (num := num))) g :
  angleBased kps = Some g -> In g answerNames.
Proof. unfold angleBased. apply detectASLLetter_answers. Qed.

(** X21. The angle-based classifier answers every hand of at least 21
    three-dimensional landmarks with one of 24 letters or ['unknown'],
    and it never answers ['U'] (nor ['J']): the test for ['U'] repeats the
    test for ['H'], which comes first. *)
Theorem angle_classifier_never_answers_U (points : list (Keypoint3D (num := num))) :
  (21 <= length points)%nat ->
  ∃ g, angleBased (fromKeypoints3D points) = Some g
       ∧ In g answerNames ∧ g ≠ "U" ∧ g ≠ "J".
Proof.
  intros Hlen. destruct (angleBased_total points Hlen) as (g & Hg & _).
  exists g. split; [done|].
  pose proof (angleBased_answers _ _ Hg) as Hin. split; [done|].
  unfold answerNames in Hin. simpl in Hin.
  split; intros ->; repeat (destruct Hin as [Hin|Hin]; [discriminate|]); done.
Qed.

Lemma classifyGesture_answers d hands g :
  useMLHybrid d = false ->
  classifyGesture mlIsLoaded mlPredict d hands = Some g ->
  In g ("none" :: answerNames).
Proof.
  intros Hml. unfold classifyGesture. rewrite Hml. cbn [andb].
  destruct hands as [|hand others]; [intros [= <-]; by left|].
  destruct (selectKeypoints hand) as [kps|]; [|intros [= <-]; by left].
  intros Hg. right. by apply (angleBased_answers kps).
Qed.

Lemma pushGesture_buffer raw d s :
  (length (gestureBuffer d) <= bufferSize d)%nat ->
  (length (gestureBuffer (pushGesture raw d s)) <= bufferSize d)%nat.
Proof.
  intros Hlen. unfold pushGesture. cbn [gestureBuffer].
  destruct (bufferSize d <? _)%nat eqn:E.
  - destruct (gestureBuffer d) as [|g0 rest]; simpl in *; [lia|].
    rewrite length_app. simpl. lia.
  - by apply Nat.ltb_ge in E.
Qed.

(** What a call of [detectGesture] can leave behind: the detector as it
    was, or the detector with the raw classification pushed onto the
    buffer and counted by the smoother. *)
Lemma detectGesture_detector videoReady estimated now stamp d :
  snd (detectGesture mlIsLoaded mlPredict videoReady estimated now stamp d) = d
  ∨ ∃ hands raw,
      estimated = Some hands
      ∧ classifyGesture mlIsLoaded mlPredict d hands = Some raw
      ∧ snd (detectGesture mlIsLoaded mlPredict videoReady estimated now stamp d)
        = pushGesture raw d (snd (Smoother.smoothGesture raw now (smoother d))).
Proof.
  unfold detectGesture.
  destruct (_ || _); [by left|].
  destruct (negb videoReady); [by left|].
  destruct estimated as [[|hand others]|]; [by left| |by left].
  destruct (logSamplePoint hand); [|by left].
  destruct (classifyGesture _ _ d (hand :: others)) as [raw|] eqn:Ec; [|by left].
  right. exists (hand :: others), raw. split; [done|]. split; [done|].
  destruct (Smoother.smoothGesture raw now (smoother d)) as [smoothed s].
  by destruct (calculateConfidence (hand :: others)).
Qed.

(** X22. The legacy gesture buffer never outgrows [bufferSize]: from a
    buffer within the bound, it stays within it over any call of
    [detectGesture], and the bound itself is never changed. *)
Theorem gestureBuffer_stays_bounded videoReady estimated now stamp d :
  (length (gestureBuffer d) <= bufferSize d)%nat ->
  let d' := snd (detectGesture mlIsLoaded mlPredict videoReady estimated now stamp d) in
  (length (gestureBuffer d') <= bufferSize d')%nat ∧ bufferSize d' = bufferSize d.
Proof.
  intros Hlen d'. subst d'.
  destruct (detectGesture_detector videoReady estimated now stamp d)
    as [-> | (hands & raw & _ & _ & ->)]; [done|].
  split; [|done]. exact (pushGesture_buffer raw d _ Hlen).
Qed.

Lemma length_fromKeypoints3D (points : list (Keypoint3D (num := num))) :
  length (fromKeypoints3D points) = length points.
Proof.
  unfold fromKeypoints3D. destruct (zBounds points). by rewrite length_map.
Qed.

(** X23. A failure after the classification does not undo the tick: when
    the first hand has no [keypoints] array, so that
    [calculateConfidence] raises, [detectGesture] answers [null], yet the
    raw classification has been counted by the smoother and pushed onto
    the buffer. *)
Theorem late_failure_keeps_the_tick d hand others raw now stamp :
  ready d = true ->
  useMLHybrid d = false ->
  keypoints hand = None ->
  classifyGesture mlIsLoaded mlPredict d (hand :: others) = Some raw ->
  detectGesture mlIsLoaded mlPredict true (Some (hand :: others)) now stamp d
  = (None, pushGesture raw d (snd (Smoother.smoothGesture raw now (smoother d)))).
Proof.
  intros Hready Hml Hk Hc. unfold ready in Hready.
  apply andb_true_iff in Hready as [Hi Hl].
  unfold detectGesture. rewrite Hi, Hl. cbn [negb orb].
  assert (logSamplePoint hand = Some tt) as ->.
  { revert Hc. unfold classifyGesture, selectKeypoints, logSamplePoint.
    rewrite Hk, Hml. cbn [andb].
    destruct (keypoints3D hand) as [[|p ps]|] eqn:E3; [done| |done].
    destruct ((p :: ps) !! 8%nat) eqn:E8; [done|].
    apply lookup_ge_None_1 in E8.
    rewrite angleBased_raises; [done|].
    rewrite length_fromKeypoints3D. lia. }
  rewrite Hc.
  destruct (Smoother.smoothGesture raw now (smoother d)) as [smoothed s].
  unfold calculateConfidence. rewrite Hk. reflexivity.
Qed.

(** X24. [cleanup()] and [initialize()] never touch the smoother: a
    detector that was cleaned up answers [null] to every frame and stays
    as it is, and after any later [initialize()], successful or not, the
    confirmed gesture, its timestamp and all counters are those from
    before the cleanup, while the buffer is empty. *)
Theorem cleanup_keeps_the_smoother d mlLoaded backend created :
  (∀ videoReady estimated now stamp,
     detectGesture mlIsLoaded mlPredict videoReady estimated now stamp (cleanup d)
     = (None, cleanup d))
  ∧ smoother (snd (initialize mlLoaded backend created (cleanup d))) = smoother d
  ∧ gestureBuffer (snd (initialize mlLoaded backend created (cleanup d))) = []
  ∧ (fst (initialize mlLoaded backend created (cleanup d)) = true
     <-> ready (snd (initialize mlLoaded backend created (cleanup d))) = true).
Proof.
  split; [reflexivity|].
  unfold initialize, cleanup, ready. cbn [useMLHybrid smoother gestureBuffer].
  destruct (useMLHybrid d), mlLoaded as [[]|], backend, created; simpl; done.
Qed.

End DetectorFacts.

(* ===================================================================== *)
(** * The detection loop *)

Section LoopFacts.
Import JsString Classifier Detection DetectorMore Caller.
Context {num : Type} `{JsNumber num} `{SentenceBuilder.Engine}.
Variable mlIsLoaded : bool.
Variable mlPredict : list (Keypoint (num := num)) -> option (string * num).

Implicit Types (h : Hook (num := num)) (d : Detector) (r : Detection (num := num))
         (g : string) (C c : ascii).

Lemma isUpperLetter_inv (s : string) :
  isUpperLetter s = true -> ∃ C, s = String C "" ∧ isUpper C = true.
Proof. destruct s as [|C [|? ?]]; try done. intros HC. by exists C. Qed.

Lemma lower_of_upper C : isUpper C = true -> isLower (lowerChar C) = true.
Proof. intros HC. apply lower_is_lower. by rewrite HC, orb_true_r. Qed.

(** What the builder does with the single upper-case letter the loop
    gives it. *)
Lemma addLetter_upper C now (st : SentenceBuilder.State) :
  isUpper C = true ->
  ∃ res st',
    SentenceBuilder.addLetter (String C "") now st = Some (res, st')
    ∧ SentenceBuilder.action res ≠ "word_completed"
    ∧ SentenceBuilder.r_currentWord res = SentenceBuilder.currentWord st'
    ∧ SentenceBuilder.r_sentence res = SentenceBuilder.sentence st'
    ∧ SentenceBuilder.sentence st' = SentenceBuilder.sentence st
    ∧ (SentenceBuilder.currentWord st' = SentenceBuilder.currentWord st
       ∨ SentenceBuilder.currentWord st'
         = SentenceBuilder.currentWord st ++ String (lowerChar C) "").
Proof.
  intros HC. unfold SentenceBuilder.addLetter.
  destruct (single_char_not_keyword C) as (Hs & Hb & Hc).
  destruct (_ && _); [eexists _, _; split; [reflexivity|]; simpl; auto 10|].
  destruct (_ && _); [eexists _, _; split; [reflexivity|]; simpl; auto 10|].
  rewrite Hs, Hb, Hc.
  change (isSingleLetter (String C "")) with (isLower C || isUpper C).
  rewrite HC, orb_true_r.
  destruct (String.eqb (slice _ _ _) _);
    eexists _, _; (split; [reflexivity|]); simpl; auto 10.
Qed.

Lemma passes_gesture r g :
  passes r = Some g ->
  gesture r = Some g ∧ g ≠ "none" ∧ g ≠ "unknown_gesture".
Proof.
  unfold passes. destruct (gesture r) as [g'|]; [|done].
  destruct (String.eqb g' "none") eqn:E1; [by rewrite andb_false_r|].
  destruct (String.eqb g' "unknown_gesture") eqn:E2; [by rewrite andb_false_r|].
  destruct (_ && _); [|done]. intros [= ->].
  apply String.eqb_neq in E1, E2. done.
Qed.

Lemma remember_fields g (conf : num) now h :
  builder (remember g conf now h) = builder h
  ∧ currentWord (remember g conf now h) = currentWord h
  ∧ currentSentence (remember g conf now h) = currentSentence h
  ∧ captionHistory (remember g conf now h) = captionHistory h.
Proof. done. Qed.

(** The three ways the body of the callback can go. *)
Lemma onDetection_cases result clock h :
  (builder (onDetection result clock h) = builder h
   ∧ currentWord (onDetection result clock h) = currentWord h
   ∧ currentSentence (onDetection result clock h) = currentSentence h
   ∧ captionHistory (onDetection result clock h) = captionHistory h
   ∧ gestureHistory (onDetection result clock h) = gestureHistory h)
  ∨ (∃ r g C res,
       result = Some r ∧ passes r = Some g
       ∧ toUpperCase g = String C "" ∧ isUpper C = true
       ∧ SentenceBuilder.addLetter (String C "") (atLetter clock) (builder h)
         = Some (res, builder (onDetection result clock h))
       ∧ currentWord (onDetection result clock h) = SentenceBuilder.r_currentWord res
       ∧ currentSentence (onDetection result clock h) = SentenceBuilder.r_sentence res
       ∧ captionHistory (onDetection result clock h) = captionHistory h
       ∧ gestureHistory (onDetection result clock h)
         = gestureHistory (remember g (confidence r) (atHistory clock) h))
  ∨ (∃ r g,
       result = Some r ∧ passes r = Some g
       ∧ isUpperLetter (toUpperCase g) = false
       ∧ builder (onDetection result clock h) = builder h
       ∧ currentWord (onDetection result clock h) = currentWord h
       ∧ currentSentence (onDetection result clock h) = currentSentence h
       ∧ captionHistory (onDetection result clock h)
         = (lastN 20 (captionHistory h)
            ++ [ {| id := atCaption clock; text := "[Sign] " ++ interpretGesture g;
                    kind := "sign"; shown := atStamp clock |} ])%list
       ∧ gestureHistory (onDetection result clock h)
         = gestureHistory (remember g (confidence r) (atHistory clock) h)).
Proof.
  unfold onDetection.
  destruct result as [r|]; [|by left].
  destruct (passes r) as [g|] eqn:Ep.
  2:{ left. destruct (gesture r) as [g|]; [|done]. by destruct (String.eqb g "none"). }
  destruct (isUpperLetter (toUpperCase g)) eqn:Eu.
  - destruct (isUpperLetter_inv _ Eu) as (C & EC & HC). rewrite EC.
    destruct (addLetter_upper C (atLetter clock) (builder h) HC)
      as (res & st' & Ha & Hact & _).
    rewrite Ha. apply String.eqb_neq in Hact. rewrite Hact.
    right; left. exists r, g, C, res. by repeat split.
  - right; right. exists r, g. by repeat split.
Qed.

(** X25. One firing of the detection loop never touches the sentence and
    never completes a word: it leaves the word in progress as it is or
    appends one lower-case letter to it.  It either talks to the builder
    or adds a caption, never both, and a caption it adds starts with
    [[Sign] ].  The word and the sentence shown on screen keep mirroring
    the builder. *)
Theorem detection_loop_only_appends result clock h :
  let h' := onDetection result clock h in
  SentenceBuilder.sentence (builder h') = SentenceBuilder.sentence (builder h)
  ∧ (SentenceBuilder.currentWord (builder h') = SentenceBuilder.currentWord (builder h)
     ∨ ∃ c, isLower c = true
            ∧ SentenceBuilder.currentWord (builder h')
              = SentenceBuilder.currentWord (builder h) ++ String c "")
  ∧ (captionHistory h' = captionHistory h
     ∨ builder h' = builder h
       ∧ ∃ cap interpretation,
           captionHistory h' = (lastN 20 (captionHistory h) ++ [cap])%list
           ∧ text cap = "[Sign] " ++ interpretation)
  ∧ (mirrors h -> mirrors h').
Proof.
  intros h'. subst h'.
  destruct (onDetection_cases result clock h)
    as [(Hb & Hw & Hs & Hc & _)
       |[(r & g & C & res & _ & _ & _ & HC & Ha & Hw & Hs & Hc & _)
        |(r & g & _ & _ & _ & Hb & Hw & Hs & Hc & _)]].
  - unfold mirrors. rewrite Hb, Hw, Hs, Hc. auto.
  - destruct (addLetter_upper C (atLetter clock) (builder h) HC)
      as (res' & st' & Ha' & _ & Hrw & Hrs & Hsen & Hword).
    rewrite Ha in Ha'. injection Ha' as <- <-.
    split; [done|]. split; [|split; [by left|]].
    + destruct Hword as [Hword|Hword]; [by left|]. right.
      exists (lowerChar C). split; [by apply lower_of_upper|done].
    + intros _. unfold mirrors. by rewrite Hw, Hs.
  - unfold mirrors. rewrite Hb, Hw, Hs, Hc. split; [done|]. split; [by left|]. split.
    + right. split; [done|]. eexists _, _. split; [reflexivity|].
      reflexivity.
    + auto.
Qed.

Lemma length_lastN {A} n (l : list A) : (length (lastN n l) <= n)%nat.
Proof. unfold lastN. rewrite length_drop. lia. Qed.

Lemma remember_bounded g (conf : num) now h :
  (length (gestureHistory h) <= 50)%nat ->
  (length (gestureHistory (remember g conf now h)) <= 50)%nat.
Proof.
  intros Hlen. unfold remember. cbn [gestureHistory].
  destruct (50 <? _)%nat eqn:E.
  - destruct (gestureHistory h) as [|s0 rest]; simpl in *; [lia|].
    rewrite length_app. simpl. lia.
  - by apply Nat.ltb_ge in E.
Qed.

Lemma onDetection_bounded result clock h :
  (length (gestureHistory h) <= 50)%nat ->
  (length (captionHistory h) <= 21)%nat ->
  (length (gestureHistory (onDetection result clock h)) <= 50)%nat
  ∧ (length (captionHistory (onDetection result clock h)) <= 21)%nat.
Proof.
  intros Hg Hc.
  destruct (onDetection_cases result clock h)
    as [(_ & _ & _ & -> & ->)
       |[(r & g & C & res & _ & _ & _ & _ & _ & _ & _ & -> & ->)
        |(r & g & _ & _ & _ & _ & _ & _ & -> & ->)]].
  - done.
  - split; [by apply remember_bounded|done].
  - split; [by apply remember_bounded|].
    rewrite length_app. pose proof (length_lastN 20 (captionHistory h)). simpl. lia.
Qed.

Lemma tick_eq (f : Frame) d h :
  tick mlIsLoaded mlPredict f (d, h)
  = (snd (detectGesture mlIsLoaded mlPredict (videoReady f) (estimated f)
                        (smoothedAt f) (stampedAt f) d),
     onDetection (fst (detectGesture mlIsLoaded mlPredict (videoReady f) (estimated f)
                                     (smoothedAt f) (stampedAt f) d))
                 (clock f) h).
Proof. unfold tick. simpl. by destruct (detectGesture _ _ _ _ _ _ d). Qed.

Lemma session_cons (f : Frame) frames (s : Detector * Hook (num := num)) :
  session mlIsLoaded mlPredict (f :: frames) s
  = session mlIsLoaded mlPredict frames (tick mlIsLoaded mlPredict f s).
Proof. reflexivity. Qed.

(** X26. The two histories of the hook stay bounded over a whole session:
    [gestureHistory] never holds more than 50 entries and
    [captionHistory] never more than 21 (the last 20 and the new one). *)
Theorem session_histories_stay_bounded (frames : list Frame) : ∀ d h,
  (length (gestureHistory h) <= 50)%nat ->
  (length (captionHistory h) <= 21)%nat ->
  (length (gestureHistory (snd (session mlIsLoaded mlPredict frames (d, h)))) <= 50)%nat
  ∧ (length (captionHistory (snd (session mlIsLoaded mlPredict frames (d, h))))
     <= 21)%nat.
Proof.
  induction frames as [|f frames IH]; intros d h Hg Hc; [done|].
  rewrite session_cons, tick_eq.
  destruct (onDetection_bounded
              (fst (detectGesture mlIsLoaded mlPredict (videoReady f) (estimated f)
                                  (smoothedAt f) (stampedAt f) d))
              (clock f) h Hg Hc) as [Hg' Hc'].
  by apply IH.
Qed.

(** The gesture of a result is [null], or a name the classifier can
    answer, as long as the confirmed gesture is one. *)
Lemma detectGesture_names (f : Frame) d :
  useMLHybrid d = false ->
  In (Smoother.lastGesture (smoother d)) ("none" :: answerNames) ->
  let result := detectGesture mlIsLoaded mlPredict (videoReady f) (estimated f)
                              (smoothedAt f) (stampedAt f) d in
  useMLHybrid (snd result) = false
  ∧ In (Smoother.lastGesture (smoother (snd result))) ("none" :: answerNames)
  ∧ ∀ r g, fst result = Some r -> gesture r = Some g -> In g ("none" :: answerNames).
Proof.
  intros Hml Hlast. cbv zeta. unfold detectGesture.
  destruct (_ || _); [done|].
  destruct (negb (videoReady f)); [done|].
  destruct (estimated f) as [[|hand others]|]; [|  |done].
  { split; [done|]. split; [done|]. intros r g [= <-] [= <-]. by left. }
  destruct (logSamplePoint hand); [|done].
  destruct (classifyGesture _ _ d (hand :: others)) as [raw|] eqn:Ec; [|done].
  pose proof (classifyGesture_answers mlIsLoaded mlPredict d _ _ Hml Ec) as Hraw.
  pose proof (smoothGesture_outcome raw (smoothedAt f) (smoother d)) as [Hout Hst].
  destruct (Smoother.smoothGesture raw (smoothedAt f) (smoother d)) as [smoothed s].
  cbn [fst snd] in Hout, Hst.
  assert (In (Smoother.lastGesture s) ("none" :: answerNames)) as Hlast'.
  { destruct Hst as [[-> _]|(_ & -> & _)]; done. }
  assert (∀ g, smoothed = Some g -> In g ("none" :: answerNames)) as Hsm.
  { intros g ->. destruct Hout as [[? _]|[[= ->]|[= ->]]]; done. }
  destruct (calculateConfidence (hand :: others)); cbn [fst snd pushGesture];
    (split; [done|]); (split; [done|]); [|done].
  intros r g [= <-]. cbn [gesture]. apply Hsm.
Qed.

Lemma answer_is_letter_or_unknown g :
  In g ("none" :: answerNames) -> g ≠ "none" ->
  (∃ C, toUpperCase g = String C "" ∧ isUpper C = true)
  ∨ (isUpperLetter (toUpperCase g) = false
     ∧ "[Sign] " ++ interpretGesture g = "[Sign] Unknown gesture").
Proof.
  intros Hin Hnone. unfold answerNames in Hin. simpl in Hin.
  repeat (destruct Hin as [<-|Hin]; [first [done | by right | left; eexists; by split]|]).
  done.
Qed.

Lemma In_lastN {A} n (l : list A) x : In x (lastN n l) -> In x l.
Proof.
  unfold lastN. generalize (length l - n)%nat as k. intros k. revert l.
  induction k as [|k IH]; intros [|y l]; simpl; auto.
Qed.

Lemma tick_captions (f : Frame) d h :
  useMLHybrid d = false ->
  In (Smoother.lastGesture (smoother d)) ("none" :: answerNames) ->
  let s := tick mlIsLoaded mlPredict f (d, h) in
  useMLHybrid (fst s) = false
  ∧ In (Smoother.lastGesture (smoother (fst s))) ("none" :: answerNames)
  ∧ SentenceBuilder.sentence (builder (snd s)) = SentenceBuilder.sentence (builder h)
  ∧ (∃ typed, Assembler.onlyLower typed = true
              ∧ SentenceBuilder.currentWord (builder (snd s))
                = SentenceBuilder.currentWord (builder h) ++ typed)
  ∧ Forall (λ cap, In cap (captionHistory h) ∨ text cap = "[Sign] Unknown gesture")
           (captionHistory (snd s)).
Proof.
  intros Hml Hlast. cbv zeta. rewrite tick_eq. cbn [fst snd].
  destruct (detectGesture_names f d Hml Hlast) as (Hml' & Hlast' & Hnames).
  split; [done|]. split; [done|].
  set (result := fst (detectGesture _ _ _ _ _ _ d)) in *.
  assert (Forall (λ cap, In cap (captionHistory h)
                         ∨ text cap = "[Sign] Unknown gesture") (captionHistory h))
    as Hold.
  { apply List.Forall_forall. auto. }
  destruct (onDetection_cases result (clock f) h)
    as [(Hb & _ & _ & Hc & _)
       |[(r & g & C & res & Hr & Hp & _ & HC & Ha & _ & _ & Hc & _)
        |(r & g & Hr & Hp & Hu & Hb & _ & _ & Hc & _)]].
  - rewrite Hb, Hc. split; [done|]. split; [|done].
    exists "". split; [done|]. by rewrite append_nil_r.
  - destruct (addLetter_upper C (atLetter (clock f)) (builder h) HC)
      as (res' & st' & Ha' & _ & _ & _ & Hsen & Hword).
    rewrite Ha in Ha'. injection Ha' as <- <-.
    rewrite Hc. split; [done|]. split; [|done].
    destruct Hword as [-> | ->].
    + exists "". split; [done|]. by rewrite append_nil_r.
    + exists (String (lowerChar C) ""). split; [|done].
      simpl. by rewrite lower_of_upper.
  - rewrite Hb, Hc. split; [done|]. split.
    { exists "". split; [done|]. by rewrite append_nil_r. }
    destruct (passes_gesture _ _ Hp) as (Hg & Hnone & _).
    pose proof (Hnames r g Hr Hg) as Hin.
    destruct (answer_is_letter_or_unknown g Hin Hnone) as [(C & EC & HC)|[_ Htext]].
    { rewrite EC in Hu. simpl in Hu. congruence. }
    apply Forall_app. split.
    + apply List.Forall_forall. intros cap Hcap. left. by apply (In_lastN 20).
    + constructor; [|done]. right. exact Htext.
Qed.

(** X27. With the ML hybrid off, as the constructor leaves it, a whole
    session of the detection loop never changes the sentence, only ever
    appends lower-case letters to the word in progress, and the only
    caption it can add is [[Sign] Unknown gesture]: the classifier's
    ['unknown'] is not the ['unknown_gesture'] the loop filters out. *)
Theorem session_types_letters_only (frames : list Frame) : ∀ d h,
  useMLHybrid d = false ->
  In (Smoother.lastGesture (smoother d)) ("none" :: answerNames) ->
  let s := session mlIsLoaded mlPredict frames (d, h) in
  SentenceBuilder.sentence (builder (snd s)) = SentenceBuilder.sentence (builder h)
  ∧ (∃ typed, Assembler.onlyLower typed = true
              ∧ SentenceBuilder.currentWord (builder (snd s))
                = SentenceBuilder.currentWord (builder h) ++ typed)
  ∧ Forall (λ cap, In cap (captionHistory h) ∨ text cap = "[Sign] Unknown gesture")
           (captionHistory (snd s)).
Proof.
  induction frames as [|f frames IH]; intros d h Hml Hlast; cbv zeta.
  - cbn [session fold_left snd]. split; [done|]. split.
    + exists "". split; [done|]. by rewrite append_nil_r.
    + apply List.Forall_forall. auto.
  - rewrite session_cons.
    destruct (tick_captions f d h Hml Hlast) as (Hml' & Hlast' & Hs & Hw & Hc).
    destruct (tick mlIsLoaded mlPredict f (d, h)) as [d1 h1]. cbn [fst snd] in *.
    destruct (IH d1 h1 Hml' Hlast') as (Hs2 & Hw2 & Hc2).
    split; [congruence|]. split.
    + destruct Hw as (t1 & Ht1 & E1), Hw2 as (t2 & Ht2 & E2).
      exists (t1 ++ t2). split.
      * clear -Ht1 Ht2. induction t1 as [|a t1 IHt]; [done|].
        simpl in *. apply andb_true_iff in Ht1 as [Ha Ht1].
        by rewrite Ha, IHt.
      * by rewrite E2, E1, append_assoc.
    + rewrite List.Forall_forall in Hc, Hc2. apply List.Forall_forall.
      intros cap Hcap. destruct (Hc2 cap Hcap) as [Hin|Htext]; [|by right].
      exact (Hc cap Hin).
Qed.

End LoopFacts.

(* ===================================================================== *)
(** * The features of the ML model *)

Section FeatureFacts.
Import Classifier MLModel.
Context {num : Type} `{JsNumber num}.

Implicit Types (landmarks : list (Keypoint (num := num))) (i j k : nat).

Lemma length_flat_map_triples {A B} (f : A -> list B) (l : list A) :
  (∀ x, length (f x) = 3%nat) -> length (flat_map f l) = (3 * length l)%nat.
Proof.
  intros Hf. induction l as [|x l IH]; [done|].
  simpl. rewrite length_app, Hf, IH. lia.
Qed.

Lemma lookup_flat_map_triples {A B} (f : A -> list B) (l : list A) k j :
  (∀ x, length (f x) = 3%nat) -> (j < 3)%nat ->
  flat_map f l !! (k * 3 + j)%nat = l !! k ≫= λ x, f x !! j.
Proof.
  intros Hf Hj. revert k. induction l as [|x l IH]; intros k; [done|].
  simpl. destruct k as [|k].
  - simpl. rewrite lookup_app_l by (rewrite Hf; lia). done.
  - rewrite lookup_app_r by (rewrite Hf; lia). rewrite Hf.
    replace (S k * 3 + j - 3)%nat with (k * 3 + j)%nat by lia.
    apply IH.
Qed.

Lemma flat_map_agree {A B} (f g : A -> list B) (l : list A) :
  (∀ x, In x l -> f x = g x) -> flat_map f l = flat_map g l.
Proof.
  induction l as [|x l IH]; intros Hfg; [done|].
  simpl. rewrite (Hfg x) by (by left). rewrite IH; [done|].
  intros y Hy. apply Hfg. by right.
Qed.

(** The three features of landmark [i]. *)
Lemma triple_length landmarks i :
  length (match landmarks !! i with
          | Some lm => [orNum (Some (kx lm)) (lit 0); orNum (Some (ky lm)) (lit 0);
                        orNum (kz lm) (lit 0)]
          | None => [lit 0; lit 0; lit 0]
          end) = 3%nat.
Proof. by destruct (landmarks !! i). Qed.

(** X28. [flattenLandmarks] always yields 63 features, whatever the
    number of landmarks: a missing landmark or coordinate gives zeros and
    landmarks beyond the 21st are ignored.  So every row that [predict]
    forms from the features is a full triple (no [undefined] reaches the
    tensor), and row [i] holds the three features of landmark [i]. *)
Theorem flattenLandmarks_gives_63_features landmarks :
  length (flattenLandmarks landmarks) = 63%nat
  ∧ flattenLandmarks (take 21 landmarks) = flattenLandmarks landmarks
  ∧ reshape (flattenLandmarks landmarks)
    = map (λ i, match landmarks !! i with
                | Some lm => [Some (orNum (Some (kx lm)) (lit 0));
                              Some (orNum (Some (ky lm)) (lit 0));
                              Some (orNum (kz lm) (lit 0))]
                | None => [Some (lit 0); Some (lit 0); Some (lit 0)]
                end) (seq 0 21).
Proof.
  split; [|split].
  - unfold flattenLandmarks.
    rewrite length_flat_map_triples by (intros i; apply triple_length).
    reflexivity.
  - unfold flattenLandmarks. apply flat_map_agree.
    intros i Hi%in_seq. by rewrite lookup_take_lt by lia.
  - unfold reshape, flattenLandmarks. apply map_ext_in.
    intros i Hi%in_seq.
    rewrite (lookup_flat_map_triples _ _ i 1), (lookup_flat_map_triples _ _ i 2)
      by (first [lia | intros k; apply triple_length]).
    replace (i * 3)%nat with (i * 3 + 0)%nat by lia.
    rewrite (lookup_flat_map_triples _ _ i 0)
      by (first [lia | intros k; apply triple_length]).
    rewrite lookup_seq_lt by lia. simpl.
    by destruct (landmarks !! i).
Qed.

End FeatureFacts.

(* ===================================================================== *)
(** * Instances in the NaN-only model *)

Section LoopWitnesses.
Import Classifier Detection DetectorMore Caller Samples.

Lemma angle_classifier_never_answers_U_witness :
  ∃ g, angleBased (num := unit)
                  (fromKeypoints3D (replicate 21 {| x3 := tt; y3 := tt; z3 := tt |}))
       = Some g
       ∧ In g answerNames ∧ g ≠ "U" ∧ g ≠ "J".
Proof.
  apply (angle_classifier_never_answers_U
           (num := unit) (replicate 21 {| x3 := tt; y3 := tt; z3 := tt |})).
  simpl. lia.
Defined.

Lemma gestureBuffer_stays_bounded_witness :
  (length (gestureBuffer
             (snd (detectGesture (num := unit) false (λ _, None) true
                                 (Some [scoredHand]) 1700000000900 1700000000900
                                 detectorOnK)))
   <= bufferSize
        (snd (detectGesture (num := unit) false (λ _, None) true
                            (Some [scoredHand]) 1700000000900 1700000000900
                            detectorOnK)))%nat
  ∧ bufferSize
      (snd (detectGesture (num := unit) false (λ _, None) true
                          (Some [scoredHand]) 1700000000900 1700000000900
                          detectorOnK))
    = bufferSize detectorOnK.
Proof.
  apply (gestureBuffer_stays_bounded
           (num := unit) false (λ _, None) true (Some [scoredHand])
           1700000000900 1700000000900 detectorOnK).
  simpl. lia.
Defined.

Lemma late_failure_keeps_the_tick_witness :
  detectGesture (num := unit) false (λ _, None) true (Some [fullHand])
                1700000000900 1700000000900 detectorOnK
  = (None,
     pushGesture "unknown" detectorOnK
                 (snd (Smoother.smoothGesture "unknown" 1700000000900
                                              (smoother detectorOnK)))).
Proof.
  apply (late_failure_keeps_the_tick
           (num := unit) false (λ _, None) detectorOnK fullHand [] "unknown"
           1700000000900 1700000000900).
  - reflexivity.
  - reflexivity.
  - reflexivity.
  - vm_compute. reflexivity.
Defined.

Lemma detection_loop_only_appends_witness :
  mirrors
    (onDetection (num := unit)
       (Some {| gesture := Some "A"; confidence := tt; hands_ := [scoredHand];
                timestamp := Some 1700000000000 |})
       {| atLetter := 1700000000000; atCaption := 1700000000000;
          atStamp := 1700000000000; atHistory := 1700000000000 |}
       hookAtStart).
Proof.
  apply (proj2 (proj2 (proj2
           (detection_loop_only_appends (num := unit)
              (Some {| gesture := Some "A"; confidence := tt; hands_ := [scoredHand];
                       timestamp := Some 1700000000000 |})
              {| atLetter := 1700000000000; atCaption := 1700000000000;
                 atStamp := 1700000000000; atHistory := 1700000000000 |}
              hookAtStart)))).
  split; reflexivity.
Defined.

Lemma session_histories_stay_bounded_witness :
  (length (gestureHistory
             (snd (session (num := unit) false (λ _, None)
                           [frameAt [scoredHand] 1700000000000;
                            frameAt [scoredHand] 1700000000500;
                            frameAt [scoredHand] 1700000001000]
                           (readyDetector, hookAtStart)))) <= 50)%nat
  ∧ (length (captionHistory
               (snd (session (num := unit) false (λ _, None)
                             [frameAt [scoredHand] 1700000000000;
                              frameAt [scoredHand] 1700000000500;
                              frameAt [scoredHand] 1700000001000]
                             (readyDetector, hookAtStart)))) <= 21)%nat.
Proof.
  apply (session_histories_stay_bounded
           (num := unit) false (λ _, None)
           [frameAt [scoredHand] 1700000000000; frameAt [scoredHand] 1700000000500;
            frameAt [scoredHand] 1700000001000] readyDetector hookAtStart).
  - simpl. lia.
  - simpl. lia.
Defined.

Lemma session_types_letters_only_witness :
  SentenceBuilder.sentence
    (builder (snd (session (num := unit) false (λ _, None)
                           [frameAt [scoredHand] 1700000000000;
                            frameAt [scoredHand] 1700000000500;
                            frameAt [scoredHand] 1700000001000]
                           (readyDetector, hookAtStart))))
  = SentenceBuilder.sentence (builder hookAtStart)
  ∧ (∃ typed,
       Assembler.onlyLower typed = true
       ∧ SentenceBuilder.currentWord
           (builder (snd (session (num := unit) false (λ _, None)
                                  [frameAt [scoredHand] 1700000000000;
                                   frameAt [scoredHand] 1700000000500;
                                   frameAt [scoredHand] 1700000001000]
                                  (readyDetector, hookAtStart))))
         = SentenceBuilder.currentWord (builder hookAtStart) ++ typed)
  ∧ Forall (λ cap, In cap (captionHistory hookAtStart)
                   ∨ text cap = "[Sign] Unknown gesture")
           (captionHistory
              (snd (session (num := unit) false (λ _, None)
                            [frameAt [scoredHand] 1700000000000;
                             frameAt [scoredHand] 1700000000500;
                             frameAt [scoredHand] 1700000001000]
                            (readyDetector, hookAtStart)))).
Proof.
  apply (session_types_letters_only
           (num := unit) false (λ _, None)
           [frameAt [scoredHand] 1700000000000; frameAt [scoredHand] 1700000000500;
            frameAt [scoredHand] 1700000001000] readyDetector hookAtStart).
  - reflexivity.
  - left. reflexivity.
Defined.

End LoopWitnesses.
